(** * Validation routines for marshaled D-Bus data

    A shallow embedding of [dbus/dbus-marshal-validate.c]: the signature
    validator, the body validator and the validators of names (object
    paths, interface, member and bus names), with the properties of the
    specification stated and settled on it.

    Conventions of the embedding.
    - Memory is a map from addresses to bytes; a pointer is an address
      in [Z]; a [DBusString] is a data pointer and a length.
    - C [int] values are modelled as [Z]; the functions' [_dbus_assert]
      lines keep them in range, and a failed assertion is the outcome
      [Abort].
    - Every C function is a computation that yields an outcome together
      with the list of addresses it read, in program order.
    - A [while] loop is a [Fixpoint] on a budget of iterations that keeps
      the loop's own test; an exhausted budget is the outcome
      [OutOfFuel]. *)

From Stdlib Require Import ZArith List Bool Lia Sorted.
From Stdlib Require Import Strings.Ascii Strings.String Strings.Byte.
Import ListNotations.

Local Open Scope Z_scope.

(** ** Outcomes and the read-logging monad *)

Inductive outcome (R A : Type) : Type :=
| Val (a : A)        (* control falls through with the value [a] *)
| Ret (r : R)        (* a [return r;] statement was executed *)
| Abort              (* a [_dbus_assert] failed *)
| OutOfFuel.         (* the loop budget was exhausted *)

Arguments Val {R A} a.
Arguments Ret {R A} r.
Arguments Abort {R A}.
Arguments OutOfFuel {R A}.

(** A computation inside a function that returns [R]: its outcome and the
    addresses it read. *)
Definition M (R A : Type) : Type := (outcome R A * list Z)%type.

Definition ret {R A} (a : A) : M R A := (Val a, []).

Definition return_ {R A} (r : R) : M R A := (Ret r, []).

Definition abort {R A} : M R A := (Abort, []).

Definition out_of_fuel {R A} : M R A := (OutOfFuel, []).

Definition bind {R A B} (m : M R A) (k : A -> M R B) : M R B :=
  match m with
  | (Val a, d) => let r := k a in (fst r, d ++ snd r)
  | (Ret r, d) => (Ret r, d)
  | (Abort, d) => (Abort, d)
  | (OutOfFuel, d) => (OutOfFuel, d)
  end.

Notation "x <- m ;; k" := (bind m (fun x => k))
  (at level 61, m at next level, right associativity).
Notation "' pat <- m ;; k" := (bind m (fun x => match x with pat => k end))
  (at level 61, pat pattern, m at next level, right associativity).
Notation "m ;;; k" := (bind m (fun _ => k))
  (at level 61, right associativity).

(** [_dbus_assert (b)] *)
Definition dbus_assert {R} (b : bool) : M R unit :=
  if b then ret tt else abort.

(** A call of a function whose body is [m]: the callee's [return] gives
    the value of the call expression. *)
Definition call {R R'} (m : M R R) : M R' R :=
  match m with
  | (Val r, d) => (Val r, d)
  | (Ret r, d) => (Val r, d)
  | (Abort, d) => (Abort, d)
  | (OutOfFuel, d) => (OutOfFuel, d)
  end.

Definition result {R A} (m : M R A) : outcome R A := fst m.
Definition reads {R A} (m : M R A) : list Z := snd m.

(** ** Memory and strings *)

Definition memory : Type := Z -> byte.

Definition byte_val (b : byte) : Z := Z.of_N (Byte.to_N b).

(** The memory that holds [data] from address [base] on, and [m]
    elsewhere. *)
Definition store_bytes (base : Z) (data : list byte) (m : memory) : memory :=
  fun a =>
    if (base <=? a) && (a <? base + Z.of_nat (List.length data))
    then nth (Z.to_nat (a - base)) data x00
    else m a.

Definition zero_memory : memory := fun _ => x00.

Definition chr (c : ascii) : Z := Z.of_N (N_of_ascii c).

(** Modelled from the spec: the byte-range abstraction ([DBusString] of
    dbus-string.c, which is not among the sources): a data pointer and a
    length, with length, byte-at-index and zero-copy sub-view. *)
Record DBusString : Type := mkString { string_data : Z; string_len : Z }.

Definition _dbus_string_get_length (s : DBusString) : Z := string_len s.

Definition _dbus_string_get_const_data (s : DBusString) : Z := string_data s.

Definition _dbus_string_get_const_data_len (s : DBusString) (start l : Z) : Z :=
  string_data s + start.

Definition _dbus_string_init_const_len (p l : Z) : DBusString := mkString p l.

(** ** Constants of the protocol *)

(** Modelled from the spec: the closed enumeration of validity codes
    (dbus-marshal-validate.h is not among the sources); the codes are
    those this file returns. *)
Inductive DBusValidity : Type :=
| DBUS_VALID
| DBUS_INVALID_UNKNOWN_TYPECODE
| DBUS_INVALID_MISSING_ARRAY_ELEMENT_TYPE
| DBUS_INVALID_SIGNATURE_TOO_LONG
| DBUS_INVALID_EXCEEDED_MAXIMUM_ARRAY_RECURSION
| DBUS_INVALID_EXCEEDED_MAXIMUM_STRUCT_RECURSION
| DBUS_INVALID_STRUCT_ENDED_BUT_NOT_STARTED
| DBUS_INVALID_STRUCT_STARTED_BUT_NOT_ENDED
| DBUS_INVALID_STRUCT_HAS_NO_FIELDS
| DBUS_INVALID_ALIGNMENT_PADDING_NOT_NUL
| DBUS_INVALID_BOOLEAN_NOT_ZERO_OR_ONE
| DBUS_INVALID_NOT_ENOUGH_DATA
| DBUS_INVALID_TOO_MUCH_DATA
| DBUS_INVALID_STRING_LENGTH_OUT_OF_BOUNDS
| DBUS_INVALID_BAD_PATH
| DBUS_INVALID_BAD_UTF8_IN_STRING
| DBUS_INVALID_ARRAY_LENGTH_INCORRECT
| DBUS_INVALID_STRING_MISSING_NUL
| DBUS_INVALID_SIGNATURE_LENGTH_OUT_OF_BOUNDS
| DBUS_INVALID_BAD_SIGNATURE
| DBUS_INVALID_SIGNATURE_MISSING_NUL
| DBUS_INVALID_VARIANT_SIGNATURE_LENGTH_OUT_OF_BOUNDS
| DBUS_INVALID_VARIANT_SIGNATURE_BAD
| DBUS_INVALID_VARIANT_SIGNATURE_MISSING_NUL
| DBUS_INVALID_VARIANT_SIGNATURE_EMPTY
| DBUS_INVALID_VARIANT_SIGNATURE_SPECIFIES_MULTIPLE_VALUES.

Definition is_valid (v : DBusValidity) : bool :=
  match v with
  | DBUS_VALID => true
  | _ => false
  end.

(** Modelled from the spec: the type-code alphabet and the fixed maxima of
    the host protocol (dbus-protocol.h is not among the sources). *)
Definition DBUS_TYPE_INVALID : Z := 0.
Definition DBUS_TYPE_BYTE : Z := chr "y".
Definition DBUS_TYPE_BOOLEAN : Z := chr "b".
Definition DBUS_TYPE_INT32 : Z := chr "i".
Definition DBUS_TYPE_UINT32 : Z := chr "u".
Definition DBUS_TYPE_INT64 : Z := chr "x".
Definition DBUS_TYPE_UINT64 : Z := chr "t".
Definition DBUS_TYPE_DOUBLE : Z := chr "d".
Definition DBUS_TYPE_STRING : Z := chr "s".
Definition DBUS_TYPE_OBJECT_PATH : Z := chr "o".
Definition DBUS_TYPE_SIGNATURE : Z := chr "g".
Definition DBUS_TYPE_ARRAY : Z := chr "a".
Definition DBUS_TYPE_VARIANT : Z := chr "v".
Definition DBUS_TYPE_STRUCT : Z := chr "r".
Definition DBUS_STRUCT_BEGIN_CHAR : Z := chr "(".
Definition DBUS_STRUCT_END_CHAR : Z := chr ")".

Definition DBUS_MAXIMUM_SIGNATURE_LENGTH : Z := 255.
Definition DBUS_MAXIMUM_TYPE_RECURSION_DEPTH : Z := 32.
Definition DBUS_MAXIMUM_NAME_LENGTH : Z := 255.
Definition _DBUS_INT_MAX : Z := 2147483647.

#[global] Arguments chr : simpl never.
#[global] Arguments DBUS_TYPE_INVALID : simpl never.
#[global] Arguments DBUS_TYPE_BYTE : simpl never.
#[global] Arguments DBUS_TYPE_BOOLEAN : simpl never.
#[global] Arguments DBUS_TYPE_INT32 : simpl never.
#[global] Arguments DBUS_TYPE_UINT32 : simpl never.
#[global] Arguments DBUS_TYPE_INT64 : simpl never.
#[global] Arguments DBUS_TYPE_UINT64 : simpl never.
#[global] Arguments DBUS_TYPE_DOUBLE : simpl never.
#[global] Arguments DBUS_TYPE_STRING : simpl never.
#[global] Arguments DBUS_TYPE_OBJECT_PATH : simpl never.
#[global] Arguments DBUS_TYPE_SIGNATURE : simpl never.
#[global] Arguments DBUS_TYPE_ARRAY : simpl never.
#[global] Arguments DBUS_TYPE_VARIANT : simpl never.
#[global] Arguments DBUS_TYPE_STRUCT : simpl never.
#[global] Arguments DBUS_STRUCT_BEGIN_CHAR : simpl never.
#[global] Arguments DBUS_STRUCT_END_CHAR : simpl never.
#[global] Arguments DBUS_MAXIMUM_SIGNATURE_LENGTH : simpl never.
#[global] Arguments DBUS_MAXIMUM_TYPE_RECURSION_DEPTH : simpl never.
#[global] Arguments DBUS_MAXIMUM_NAME_LENGTH : simpl never.
#[global] Arguments _DBUS_INT_MAX : simpl never.

Section Validate.

Variable mem : memory.

(** Dereference of a [const unsigned char] pointer [p]. *)
Definition load {R} (p : Z) : M R Z := (Val (byte_val (mem p)), [p]).

(** ** The signature validator *)

(** The locals [last], [struct_depth] and [array_depth] of
    [_dbus_validate_signature_with_reason]. *)
Record sig_state : Type := mkSig {
  last : Z;
  struct_depth : Z;
  array_depth : Z
}.

Definition is_basic_or_variant (c : Z) : bool :=
  (c =? DBUS_TYPE_BYTE) || (c =? DBUS_TYPE_BOOLEAN) || (c =? DBUS_TYPE_INT32)
  || (c =? DBUS_TYPE_UINT32) || (c =? DBUS_TYPE_INT64) || (c =? DBUS_TYPE_UINT64)
  || (c =? DBUS_TYPE_DOUBLE) || (c =? DBUS_TYPE_STRING)
  || (c =? DBUS_TYPE_OBJECT_PATH) || (c =? DBUS_TYPE_SIGNATURE)
  || (c =? DBUS_TYPE_VARIANT).

(** The [switch] statement of the scan, on the value [c] read at [p]. *)
Definition sig_switch (c : Z) (st : sig_state) : M DBusValidity sig_state :=
  if is_basic_or_variant c then ret st
  else if c =? DBUS_TYPE_ARRAY then
    let ad := array_depth st + 1 in
    if ad >? DBUS_MAXIMUM_TYPE_RECURSION_DEPTH
    then return_ DBUS_INVALID_EXCEEDED_MAXIMUM_ARRAY_RECURSION
    else ret (mkSig (last st) (struct_depth st) ad)
  else if c =? DBUS_STRUCT_BEGIN_CHAR then
    let sd := struct_depth st + 1 in
    if sd >? DBUS_MAXIMUM_TYPE_RECURSION_DEPTH
    then return_ DBUS_INVALID_EXCEEDED_MAXIMUM_STRUCT_RECURSION
    else ret (mkSig (last st) sd (array_depth st))
  else if c =? DBUS_STRUCT_END_CHAR then
    if struct_depth st =? 0
    then return_ DBUS_INVALID_STRUCT_ENDED_BUT_NOT_STARTED
    else if last st =? DBUS_STRUCT_BEGIN_CHAR
    then return_ DBUS_INVALID_STRUCT_HAS_NO_FIELDS
    else ret (mkSig (last st) (struct_depth st - 1) (array_depth st))
  else return_ DBUS_INVALID_UNKNOWN_TYPECODE.

(** One iteration of the scan at [p]: the switch, the reset of
    [array_depth] and the update of [last]. *)
Definition sig_body (p : Z) (st : sig_state) : M DBusValidity sig_state :=
  c <- load p ;;
  st1 <- sig_switch c st ;;
  c' <- load p ;;
  let st2 := if negb (c' =? DBUS_TYPE_ARRAY)
             then mkSig (last st1) (struct_depth st1) 0
             else st1 in
  c'' <- load p ;;
  ret (mkSig c'' (struct_depth st2) (array_depth st2)).

(** [while (p != end) { ...; ++p; }] *)
Fixpoint sig_loop (fuel : nat) (p end_ : Z) (st : sig_state)
  : M DBusValidity sig_state :=
  match fuel with
  | O => out_of_fuel
  | S fuel' =>
      if negb (p =? end_) then
        st' <- sig_body p st ;;
        sig_loop fuel' (p + 1) end_ st'
      else ret st
  end.

(** The tests after the scan. *)
Definition sig_finish (st : sig_state) : M DBusValidity DBusValidity :=
  if array_depth st >? 0 then return_ DBUS_INVALID_MISSING_ARRAY_ELEMENT_TYPE
  else if struct_depth st >? 0 then return_ DBUS_INVALID_STRUCT_STARTED_BUT_NOT_ENDED
  else return_ DBUS_VALID.

Definition sig_init : sig_state := mkSig DBUS_TYPE_INVALID 0 0.

Definition _dbus_validate_signature_with_reason (fuel : nat)
    (type_str : DBusString) (type_pos len : Z) : M DBusValidity DBusValidity :=
  dbus_assert (type_pos <? _DBUS_INT_MAX - len) ;;;
  dbus_assert (len >=? 0) ;;;
  dbus_assert (type_pos >=? 0) ;;;
  if len >? DBUS_MAXIMUM_SIGNATURE_LENGTH
  then return_ DBUS_INVALID_SIGNATURE_TOO_LONG
  else
    let p := _dbus_string_get_const_data_len type_str type_pos 0 in
    let end_ := _dbus_string_get_const_data_len type_str (type_pos + len) 0 in
    st <- sig_loop fuel p end_ sig_init ;;
    sig_finish st.

(** [_dbus_validate_signature] *)
Definition _dbus_validate_signature (fuel : nat)
    (str : DBusString) (start len : Z) : M bool bool :=
  dbus_assert (start >=? 0) ;;;
  dbus_assert (start <=? _dbus_string_get_length str) ;;;
  dbus_assert (len >=? 0) ;;;
  if len >? _dbus_string_get_length str - start then return_ false
  else
    v <- call (_dbus_validate_signature_with_reason fuel str start len) ;;
    return_ (is_valid v).

(** ** The validators of names *)

Definition VALID_INITIAL_NAME_CHARACTER (c : Z) : bool :=
  ((c >=? chr "A") && (c <=? chr "Z"))
  || ((c >=? chr "a") && (c <=? chr "z"))
  || (c =? chr "_").

Definition VALID_NAME_CHARACTER (c : Z) : bool :=
  ((c >=? chr "0") && (c <=? chr "9"))
  || ((c >=? chr "A") && (c <=? chr "Z"))
  || ((c >=? chr "a") && (c <=? chr "z"))
  || (c =? chr "_").

(** The scan of [_dbus_validate_path] after the first byte; its value is
    the final [last_slash]. *)
Fixpoint path_loop (fuel : nat) (s end_ last_slash : Z) : M bool Z :=
  match fuel with
  | O => out_of_fuel
  | S fuel' =>
      if negb (s =? end_) then
        c <- load s ;;
        last_slash' <-
          (if c =? chr "/" then
             if s - last_slash <? 2
             then return_ false (* no empty path components allowed *)
             else ret s
           else
             c' <- load s ;;
             if negb (VALID_NAME_CHARACTER c') then return_ false
             else ret last_slash) ;;
        path_loop fuel' (s + 1) end_ last_slash'
      else ret last_slash
  end.

Definition _dbus_validate_path (fuel : nat)
    (str : DBusString) (start len : Z) : M bool bool :=
  dbus_assert (start >=? 0) ;;;
  dbus_assert (len >=? 0) ;;;
  dbus_assert (start <=? _dbus_string_get_length str) ;;;
  if len >? _dbus_string_get_length str - start then return_ false
  else if len =? 0 then return_ false
  else
    let s := _dbus_string_get_const_data str + start in
    let end_ := s + len in
    c <- load s ;;
    if negb (c =? chr "/") then return_ false
    else
      last_slash <- path_loop fuel (s + 1) end_ s ;;
      if (end_ - last_slash <? 2) && (len >? 1)
      then return_ false (* trailing slash not allowed unless the string is "/" *)
      else return_ true.

(** The scan of [_dbus_validate_interface] after the first byte; its value
    is the final [last_dot], [None] for [NULL]. *)
Fixpoint interface_loop (fuel : nat) (s end_ : Z) (last_dot : option Z)
  : M bool (option Z) :=
  match fuel with
  | O => out_of_fuel
  | S fuel' =>
      if negb (s =? end_) then
        c <- load s ;;
        if c =? chr "." then
          if s + 1 =? end_ then return_ false
          else
            c1 <- load (s + 1) ;;
            if negb (VALID_INITIAL_NAME_CHARACTER c1) then return_ false
            else (* we just validated the next char, so skip two *)
              interface_loop fuel' (s + 1 + 1) end_ (Some s)
        else
          c' <- load s ;;
          if negb (VALID_NAME_CHARACTER c') then return_ false
          else interface_loop fuel' (s + 1) end_ last_dot
      else ret last_dot
  end.

Definition _dbus_validate_interface (fuel : nat)
    (str : DBusString) (start len : Z) : M bool bool :=
  dbus_assert (start >=? 0) ;;;
  dbus_assert (len >=? 0) ;;;
  dbus_assert (start <=? _dbus_string_get_length str) ;;;
  if len >? _dbus_string_get_length str - start then return_ false
  else if len >? DBUS_MAXIMUM_NAME_LENGTH then return_ false
  else if len =? 0 then return_ false
  else
    let iface := _dbus_string_get_const_data str + start in
    let end_ := iface + len in
    let s := iface in
    c <- load s ;;
    if c =? chr "." then return_ false (* disallow starting with a . *)
    else
      c' <- load s ;;
      if negb (VALID_INITIAL_NAME_CHARACTER c') then return_ false
      else
        last_dot <- interface_loop fuel (s + 1) end_ None ;;
        match last_dot with
        | None => return_ false
        | Some _ => return_ true
        end.

(** The scan of [_dbus_validate_member] after the first byte. *)
Fixpoint member_loop (fuel : nat) (s end_ : Z) : M bool unit :=
  match fuel with
  | O => out_of_fuel
  | S fuel' =>
      if negb (s =? end_) then
        c <- load s ;;
        if negb (VALID_NAME_CHARACTER c) then return_ false
        else member_loop fuel' (s + 1) end_
      else ret tt
  end.

Definition _dbus_validate_member (fuel : nat)
    (str : DBusString) (start len : Z) : M bool bool :=
  dbus_assert (start >=? 0) ;;;
  dbus_assert (len >=? 0) ;;;
  dbus_assert (start <=? _dbus_string_get_length str) ;;;
  if len >? _dbus_string_get_length str - start then return_ false
  else if len >? DBUS_MAXIMUM_NAME_LENGTH then return_ false
  else if len =? 0 then return_ false
  else
    let member := _dbus_string_get_const_data str + start in
    let end_ := member + len in
    let s := member in
    c <- load s ;;
    if negb (VALID_INITIAL_NAME_CHARACTER c) then return_ false
    else
      member_loop fuel (s + 1) end_ ;;;
      return_ true.

Definition _dbus_validate_error_name (fuel : nat)
    (str : DBusString) (start len : Z) : M bool bool :=
  (* Same restrictions as interface name at the moment *)
  r <- call (_dbus_validate_interface fuel str start len) ;;
  return_ r.

(** The scan of [_dbus_validate_unique_name] after the colon. *)
Fixpoint unique_name_loop (fuel : nat) (s end_ : Z) : M bool unit :=
  match fuel with
  | O => out_of_fuel
  | S fuel' =>
      if negb (s =? end_) then
        c <- load s ;;
        if c =? chr "." then
          if s + 1 =? end_ then return_ false
          else
            c1 <- load (s + 1) ;;
            if negb (VALID_NAME_CHARACTER c1) then return_ false
            else (* we just validated the next char, so skip two *)
              unique_name_loop fuel' (s + 1 + 1) end_
        else
          c' <- load s ;;
          if negb (VALID_NAME_CHARACTER c') then return_ false
          else unique_name_loop fuel' (s + 1) end_
      else ret tt
  end.

(** This assumes the first char exists and is ':' *)
Definition _dbus_validate_unique_name (fuel : nat)
    (str : DBusString) (start len : Z) : M bool bool :=
  dbus_assert (start >=? 0) ;;;
  dbus_assert (len >=? 0) ;;;
  dbus_assert (start <=? _dbus_string_get_length str) ;;;
  if len >? _dbus_string_get_length str - start then return_ false
  else if len >? DBUS_MAXIMUM_NAME_LENGTH then return_ false
  else
    dbus_assert (len >? 0) ;;;
    let name := _dbus_string_get_const_data str + start in
    let end_ := name + len in
    c <- load name ;;
    dbus_assert (c =? chr ":") ;;;
    unique_name_loop fuel (name + 1) end_ ;;;
    return_ true.

(** Modelled from the spec: byte-at-index of the byte-range abstraction
    ([_dbus_string_get_byte] of dbus-string.c, not among the sources). *)
Definition _dbus_string_get_byte {R} (str : DBusString) (start : Z) : M R Z :=
  load (string_data str + start).

Definition _dbus_validate_bus_name (fuel : nat)
    (str : DBusString) (start len : Z) : M bool bool :=
  if len =? 0 then return_ false
  else
    c <- _dbus_string_get_byte str start ;;
    if c =? chr ":" then
      r <- call (_dbus_validate_unique_name fuel str start len) ;;
      return_ r
    else
      r <- call (_dbus_validate_interface fuel str start len) ;;
      return_ r.

(** ** Collaborators of the body validator *)

(** Modelled from the spec: the byte order of a message is one of two
    codes supplied by the caller (dbus-protocol.h is not among the
    sources). *)
Definition DBUS_LITTLE_ENDIAN : Z := chr "l".
Definition DBUS_BIG_ENDIAN : Z := chr "B".

(** Modelled from the spec: [_dbus_unpack_uint32] of dbus-marshal-basic.c
    (not among the sources) interprets the 4-byte word at [p] per the byte
    order; its four byte reads are logged. *)
Definition _dbus_unpack_uint32 {R} (byte_order : Z) (p : Z) : M R Z :=
  b0 <- load p ;;
  b1 <- load (p + 1) ;;
  b2 <- load (p + 2) ;;
  b3 <- load (p + 3) ;;
  ret (if byte_order =? DBUS_LITTLE_ENDIAN
       then b0 + Z.shiftl b1 8 + Z.shiftl b2 16 + Z.shiftl b3 24
       else b3 + Z.shiftl b2 8 + Z.shiftl b1 16 + Z.shiftl b0 24).

(** Modelled from the spec: alignments are 1, 4 and 8
    ([_dbus_type_get_alignment] of dbus-marshal-basic.c, not among the
    sources): 1 for byte, signature and variant; 4 for boolean, int32,
    uint32 and whatever starts with a 4-byte length; 8 for int64, uint64,
    double and struct. A code outside the alphabet is a failed
    assertion. *)
Definition _dbus_type_get_alignment {R} (typecode : Z) : M R Z :=
  if (typecode =? DBUS_TYPE_BYTE) || (typecode =? DBUS_TYPE_VARIANT)
     || (typecode =? DBUS_TYPE_SIGNATURE) then ret 1
  else if (typecode =? DBUS_TYPE_BOOLEAN) || (typecode =? DBUS_TYPE_INT32)
     || (typecode =? DBUS_TYPE_UINT32) || (typecode =? DBUS_TYPE_STRING)
     || (typecode =? DBUS_TYPE_OBJECT_PATH) || (typecode =? DBUS_TYPE_ARRAY)
  then ret 4
  else if (typecode =? DBUS_TYPE_INT64) || (typecode =? DBUS_TYPE_UINT64)
     || (typecode =? DBUS_TYPE_DOUBLE) || (typecode =? DBUS_TYPE_STRUCT)
  then ret 8
  else abort.

(** Width of [unsigned long] and of pointers (LP64). *)
Definition ULONG_BITS : Z := 64.

Definition to_ulong (z : Z) : Z := z mod 2 ^ ULONG_BITS.

Definition to_uint32 (z : Z) : Z := z mod 2 ^ 32.

(** Modelled from the spec: [_DBUS_ALIGN_ADDRESS] of dbus-internals.h (not
    among the sources) rounds an address up to the next multiple of the
    boundary, a power of two. *)
Definition _DBUS_ALIGN_ADDRESS (this boundary : Z) : Z :=
  Z.land (to_ulong (this + (boundary - 1))) (to_ulong (Z.lnot (boundary - 1))).

(** Modelled from the spec: the type-reader cursor over a pre-validated
    signature (dbus-marshal-recursive.c is not among the sources): current
    type code or none, element type of a currently-pointed array, descent
    into a container with a fresh cursor, advance to the next type of the
    current level. The cursor reads the signature bytes, which end with a
    nul, through the byte-range abstraction; these reads are not logged. *)
Inductive reader_class : Type :=
| body_types_only_reader_class
| struct_types_only_reader_class
| array_types_only_reader_class.

Record DBusTypeReader : Type := mkReader {
  klass : reader_class;
  type_str : DBusString;
  type_pos : Z;
  finished : bool
}.

Definition sig_byte (s : DBusString) (pos : Z) : Z :=
  byte_val (mem (string_data s + pos)).

Definition _dbus_first_type_in_signature (s : DBusString) (pos : Z) : Z :=
  let t := sig_byte s pos in
  if t =? DBUS_STRUCT_BEGIN_CHAR then DBUS_TYPE_STRUCT else t.

Definition _dbus_type_reader_init_types_only (s : DBusString) (pos : Z)
  : DBusTypeReader :=
  mkReader body_types_only_reader_class s pos false.

Definition _dbus_type_reader_get_current_type (reader : DBusTypeReader) : Z :=
  if finished reader then DBUS_TYPE_INVALID
  else _dbus_first_type_in_signature (type_str reader) (type_pos reader).

Definition _dbus_type_reader_get_element_type (reader : DBusTypeReader) : Z :=
  _dbus_first_type_in_signature (type_str reader) (type_pos reader + 1).

(** Descent into the struct or array the cursor points at; a types-only
    cursor cannot enter anything else. *)
Definition _dbus_type_reader_recurse {R} (reader : DBusTypeReader)
  : M R DBusTypeReader :=
  let t := _dbus_first_type_in_signature (type_str reader) (type_pos reader) in
  if t =? DBUS_TYPE_STRUCT then
    ret (mkReader struct_types_only_reader_class (type_str reader)
                  (type_pos reader + 1) false)
  else if t =? DBUS_TYPE_ARRAY then
    ret (mkReader array_types_only_reader_class (type_str reader)
                  (type_pos reader + 1) false)
  else abort.

Fixpoint skip_array_markers (n : nat) (s : DBusString) (pos : Z) : option Z :=
  match n with
  | O => None
  | S n' =>
      if sig_byte s pos =? DBUS_TYPE_ARRAY
      then skip_array_markers n' s (pos + 1)
      else Some pos
  end.

Fixpoint skip_struct_body (n : nat) (s : DBusString) (pos depth : Z) : option Z :=
  match n with
  | O => None
  | S n' =>
      if depth >? 0 then
        let c := sig_byte s pos in
        if c =? DBUS_STRUCT_BEGIN_CHAR then skip_struct_body n' s (pos + 1) (depth + 1)
        else if c =? DBUS_STRUCT_END_CHAR then skip_struct_body n' s (pos + 1) (depth - 1)
        else if c =? DBUS_TYPE_INVALID then None (* unbalanced parens *)
        else skip_struct_body n' s (pos + 1) depth
      else Some pos
  end.

(** The position after the one complete type that starts at [pos]. *)
Definition skip_one_complete_type (s : DBusString) (pos : Z) : option Z :=
  let n := S (S (Z.to_nat (string_len s - pos))) in
  match skip_array_markers n s pos with
  | None => None
  | Some pos1 =>
      if sig_byte s pos1 =? DBUS_STRUCT_BEGIN_CHAR
      then skip_struct_body n s (pos1 + 1) 1
      else Some (pos1 + 1)
  end.

(** Advance to the next type of the level; the boolean tells whether
    there is one. A cursor over an array has the element type as its only
    type; a cursor inside a struct is finished at the closing paren. *)
Definition _dbus_type_reader_next {R} (reader : DBusTypeReader)
  : M R (DBusTypeReader * bool) :=
  let t := _dbus_type_reader_get_current_type reader in
  if t =? DBUS_TYPE_INVALID then ret (reader, false)
  else
    reader' <-
      match klass reader with
      | array_types_only_reader_class =>
          ret (mkReader (klass reader) (type_str reader) (type_pos reader) true)
      | body_types_only_reader_class =>
          match skip_one_complete_type (type_str reader) (type_pos reader) with
          | None => abort
          | Some pos => ret (mkReader (klass reader) (type_str reader) pos false)
          end
      | struct_types_only_reader_class =>
          match skip_one_complete_type (type_str reader) (type_pos reader) with
          | None => abort
          | Some pos =>
              if sig_byte (type_str reader) pos =? DBUS_STRUCT_END_CHAR
              then ret (mkReader (klass reader) (type_str reader) (pos + 1) true)
              else ret (mkReader (klass reader) (type_str reader) pos false)
          end
      end ;;
    ret (reader',
         negb (_dbus_type_reader_get_current_type reader' =? DBUS_TYPE_INVALID)).

(** UTF-8 validation over a range of a string is a collaborator outside
    the sources; the validator is parametric in it. *)
Variable _dbus_string_validate_utf8 : memory -> DBusString -> Z -> Z -> bool.

(** ** The body validator *)

(** The loop that [validate_body_helper] runs after each alignment:
    [while (p != a)], every skipped byte must be nul. Its value is the
    final [p]. *)
Fixpoint check_padding (fuel : nat) (p a : Z) : M DBusValidity Z :=
  match fuel with
  | O => out_of_fuel
  | S fuel' =>
      if negb (p =? a) then
        c <- load p ;;
        if negb (c =? 0) then return_ DBUS_INVALID_ALIGNMENT_PADDING_NOT_NUL
        else check_padding fuel' (p + 1) a
      else ret p
  end.

(** A call [validity = validate_body_helper (&r, ..., p, end, &p)] seen
    from the caller: the validity, the reader and [p] after the call. The
    callee writes [*new_p] only on its way to [DBUS_VALID]; after a
    failure every caller returns at once and uses neither. *)
Definition helper_call {R} (reader : DBusTypeReader) (p : Z)
    (m : M DBusValidity (DBusTypeReader * Z))
  : M R (DBusValidity * DBusTypeReader * Z) :=
  match m with
  | (Val (reader', p'), d) => (Val (DBUS_VALID, reader', p'), d)
  | (Ret v, d) => (Val (v, reader, p), d)
  | (Abort, d) => (Abort, d)
  | (OutOfFuel, d) => (OutOfFuel, d)
  end.

Section Cases.

(** The recursive calls of the helper, at the caller's [byte_order] and
    [end]: reader, [walk_reader_to_end], [p]. *)
Variable rec : DBusTypeReader -> bool -> Z -> M DBusValidity (DBusTypeReader * Z).

(** [case DBUS_TYPE_BOOLEAN] ... [case DBUS_TYPE_DOUBLE]; the value is the
    [p] after the case. *)
Definition body_fixed (fuel : nat) (current_type byte_order p end_ : Z)
  : M DBusValidity Z :=
  alignment <- _dbus_type_get_alignment current_type ;;
  let a := _DBUS_ALIGN_ADDRESS p alignment in
  if a >=? end_ then return_ DBUS_INVALID_NOT_ENOUGH_DATA
  else
    p <- check_padding fuel p a ;;
    (if current_type =? DBUS_TYPE_BOOLEAN then
       v <- _dbus_unpack_uint32 byte_order p ;;
       if negb ((v =? 0) || (v =? 1))
       then return_ DBUS_INVALID_BOOLEAN_NOT_ZERO_OR_ONE
       else ret tt
     else ret tt) ;;;
    ret (p + alignment).

(** [while (p < array_end)] over the elements of an array. *)
Fixpoint array_loop (fuel : nat) (sub : DBusTypeReader) (p array_end : Z)
  : M DBusValidity (DBusTypeReader * Z) :=
  match fuel with
  | O => out_of_fuel
  | S fuel' =>
      if p <? array_end then
        '(validity, sub', p') <- helper_call sub p (rec sub false p) ;;
        if negb (is_valid validity) then return_ validity
        else array_loop fuel' sub' p' array_end
      else ret (sub, p)
  end.

(** [case DBUS_TYPE_ARRAY], [DBUS_TYPE_STRING], [DBUS_TYPE_OBJECT_PATH] *)
Definition body_string_like (fuel : nat) (reader : DBusTypeReader)
    (current_type byte_order p end_ : Z) : M DBusValidity Z :=
  let a := _DBUS_ALIGN_ADDRESS p 4 in
  if a + 4 >? end_ then return_ DBUS_INVALID_NOT_ENOUGH_DATA
  else
    p <- check_padding fuel p a ;;
    claimed_len <- _dbus_unpack_uint32 byte_order p ;;
    let p := p + 4 in
    (* p may now be == end *)
    dbus_assert (p <=? end_) ;;;
    p <- (if current_type =? DBUS_TYPE_ARRAY then
            let array_elem_type := _dbus_type_reader_get_element_type reader in
            alignment <- _dbus_type_get_alignment array_elem_type ;;
            ret (_DBUS_ALIGN_ADDRESS p alignment)
          else ret p) ;;
    if claimed_len >? to_ulong (end_ - p)
    then return_ DBUS_INVALID_STRING_LENGTH_OUT_OF_BOUNDS
    else
      p <- (if current_type =? DBUS_TYPE_OBJECT_PATH then
              let str := _dbus_string_init_const_len p claimed_len in
              ok <- call (_dbus_validate_path fuel str 0
                            (_dbus_string_get_length str)) ;;
              if negb ok then return_ DBUS_INVALID_BAD_PATH
              else ret (p + claimed_len)
            else if current_type =? DBUS_TYPE_STRING then
              let str := _dbus_string_init_const_len p claimed_len in
              if negb (_dbus_string_validate_utf8 mem str 0
                         (_dbus_string_get_length str))
              then return_ DBUS_INVALID_BAD_UTF8_IN_STRING
              else ret (p + claimed_len)
            else if (current_type =? DBUS_TYPE_ARRAY) && (claimed_len >? 0) then
              sub <- _dbus_type_reader_recurse reader ;;
              let array_end := p + claimed_len in
              '(_, p) <- array_loop fuel sub p array_end ;;
              if negb (p =? array_end)
              then return_ DBUS_INVALID_ARRAY_LENGTH_INCORRECT
              else ret p
            else ret p) ;;
      (* check nul termination *)
      if negb (current_type =? DBUS_TYPE_ARRAY) then
        if p =? end_ then return_ DBUS_INVALID_NOT_ENOUGH_DATA
        else
          c <- load p ;;
          if negb (c =? 0) then return_ DBUS_INVALID_STRING_MISSING_NUL
          else ret (p + 1)
      else ret p.

(** [case DBUS_TYPE_SIGNATURE] *)
Definition body_signature (fuel : nat) (p end_ : Z) : M DBusValidity Z :=
  claimed_len <- load p ;;
  let p := p + 1 in
  (* 1 is for nul termination *)
  if to_uint32 (claimed_len + 1) >? to_ulong (end_ - p)
  then return_ DBUS_INVALID_SIGNATURE_LENGTH_OUT_OF_BOUNDS
  else
    let str := _dbus_string_init_const_len p claimed_len in
    ok <- call (_dbus_validate_signature fuel str 0
                  (_dbus_string_get_length str)) ;;
    if negb ok then return_ DBUS_INVALID_BAD_SIGNATURE
    else
      let p := p + claimed_len in
      dbus_assert (p <? end_) ;;;
      c <- load p ;;
      if negb (c =? DBUS_TYPE_INVALID)
      then return_ DBUS_INVALID_SIGNATURE_MISSING_NUL
      else ret (p + 1).

(** [case DBUS_TYPE_VARIANT]: 1 byte sig len, sig typecodes, align to
    contained-type-boundary, values. *)
Definition body_variant (fuel : nat) (byte_order p end_ : Z)
  : M DBusValidity Z :=
  claimed_len <- load p ;;
  let p := p + 1 in
  (* + 1 for nul *)
  if to_uint32 (claimed_len + 1) >? to_ulong (end_ - p)
  then return_ DBUS_INVALID_VARIANT_SIGNATURE_LENGTH_OUT_OF_BOUNDS
  else
    let sig := _dbus_string_init_const_len p claimed_len in
    ok <- call (_dbus_validate_signature fuel sig 0
                  (_dbus_string_get_length sig)) ;;
    if negb ok then return_ DBUS_INVALID_VARIANT_SIGNATURE_BAD
    else
      let p := p + claimed_len in
      c <- load p ;;
      if negb (c =? DBUS_TYPE_INVALID)
      then return_ DBUS_INVALID_VARIANT_SIGNATURE_MISSING_NUL
      else
        let p := p + 1 in
        contained_alignment <-
          _dbus_type_get_alignment (_dbus_first_type_in_signature sig 0) ;;
        let a := _DBUS_ALIGN_ADDRESS p contained_alignment in
        if a >? end_ then return_ DBUS_INVALID_NOT_ENOUGH_DATA
        else
          p <- check_padding fuel p a ;;
          let sub := _dbus_type_reader_init_types_only sig 0 in
          if _dbus_type_reader_get_current_type sub =? DBUS_TYPE_INVALID
          then return_ DBUS_INVALID_VARIANT_SIGNATURE_EMPTY
          else
            '(validity, sub, p) <- helper_call sub p (rec sub false p) ;;
            if negb (is_valid validity) then return_ validity
            else
              '(sub, more) <- _dbus_type_reader_next sub ;;
              if (more : bool)
              then return_ DBUS_INVALID_VARIANT_SIGNATURE_SPECIFIES_MULTIPLE_VALUES
              else
                dbus_assert (_dbus_type_reader_get_current_type sub
                             =? DBUS_TYPE_INVALID) ;;;
                ret p.

(** [case DBUS_TYPE_STRUCT] *)
Definition body_struct (fuel : nat) (reader : DBusTypeReader) (p end_ : Z)
  : M DBusValidity Z :=
  let a := _DBUS_ALIGN_ADDRESS p 8 in
  if a >? end_ then return_ DBUS_INVALID_NOT_ENOUGH_DATA
  else
    p <- check_padding fuel p a ;;
    sub <- _dbus_type_reader_recurse reader ;;
    '(validity, _, p) <- helper_call sub p (rec sub true p) ;;
    if negb (is_valid validity) then return_ validity
    else ret p.

(** The [switch (current_type)] of the helper. *)
Definition body_value (fuel : nat) (reader : DBusTypeReader)
    (current_type byte_order p end_ : Z) : M DBusValidity Z :=
  if current_type =? DBUS_TYPE_BYTE then ret (p + 1)
  else if (current_type =? DBUS_TYPE_BOOLEAN) || (current_type =? DBUS_TYPE_INT32)
       || (current_type =? DBUS_TYPE_UINT32) || (current_type =? DBUS_TYPE_INT64)
       || (current_type =? DBUS_TYPE_UINT64) || (current_type =? DBUS_TYPE_DOUBLE)
  then body_fixed fuel current_type byte_order p end_
  else if (current_type =? DBUS_TYPE_ARRAY) || (current_type =? DBUS_TYPE_STRING)
       || (current_type =? DBUS_TYPE_OBJECT_PATH)
  then body_string_like fuel reader current_type byte_order p end_
  else if current_type =? DBUS_TYPE_SIGNATURE then body_signature fuel p end_
  else if current_type =? DBUS_TYPE_VARIANT then body_variant fuel byte_order p end_
  else if current_type =? DBUS_TYPE_STRUCT then body_struct fuel reader p end_
  else (* invalid typecode in supposedly-validated signature *) abort.

End Cases.

(** [validate_body_helper]: the function body is its [while] loop, one
    iteration per application; [Val (reader, p)] stands for
    [*new_p = p; return DBUS_VALID;]. *)
Fixpoint validate_body_helper (fuel : nat) (reader : DBusTypeReader)
    (byte_order : Z) (walk_reader_to_end : bool) (p end_ : Z)
  : M DBusValidity (DBusTypeReader * Z) :=
  match fuel with
  | O => out_of_fuel
  | S fuel' =>
      let current_type := _dbus_type_reader_get_current_type reader in
      if negb (current_type =? DBUS_TYPE_INVALID) then
        (* Guarantee that p has one byte to look at *)
        if p =? end_ then return_ DBUS_INVALID_NOT_ENOUGH_DATA
        else
          p <- body_value
                 (fun r w q => validate_body_helper fuel' r byte_order w q end_)
                 fuel' reader current_type byte_order p end_ ;;
          if p >? end_ then return_ DBUS_INVALID_NOT_ENOUGH_DATA
          else if walk_reader_to_end then
            '(reader, _) <- _dbus_type_reader_next reader ;;
            validate_body_helper fuel' reader byte_order walk_reader_to_end p end_
          else (* break *) ret (reader, p)
      else ret (reader, p)
  end.

(** [_dbus_validate_body_with_reason]. The out-parameter [bytes_remaining]
    is [None] for [NULL], else the current content of the pointed [int];
    the second component of the result is its content after the call. *)
Definition _dbus_validate_body_with_reason (fuel : nat)
    (expected_signature : DBusString) (expected_signature_start : Z)
    (byte_order : Z) (bytes_remaining : option Z)
    (value_str : DBusString) (value_pos len : Z)
  : M (DBusValidity * option Z) (DBusValidity * option Z) :=
  dbus_assert (len >=? 0) ;;;
  dbus_assert (value_pos >=? 0) ;;;
  dbus_assert (value_pos <=? _dbus_string_get_length value_str - len) ;;;
  let reader := _dbus_type_reader_init_types_only
                  expected_signature expected_signature_start in
  let p := _dbus_string_get_const_data_len value_str value_pos len in
  let end_ := p + len in
  '(validity, _, p) <-
     helper_call reader p
       (validate_body_helper fuel reader byte_order true p end_) ;;
  if negb (is_valid validity) then return_ (validity, bytes_remaining)
  else
    match bytes_remaining with
    | Some _ => return_ (DBUS_VALID, Some (end_ - p))
    | None =>
        if p <? end_ then return_ (DBUS_INVALID_TOO_MUCH_DATA, None)
        else
          dbus_assert (p =? end_) ;;;
          return_ (DBUS_VALID, None)
    end.

End Validate.

(** ** Vocabulary of the statements *)

(** A computation comes to an end: it falls through or returns. *)
Definition finishes {R A} (m : M R A) : Prop :=
  match result m with
  | Val _ | Ret _ => True
  | Abort | OutOfFuel => False
  end.

(** A function body returns a value. *)
Definition returns {R A} (m : M R A) : Prop := exists r, result m = Ret r.

(** All reads of a computation fall in [lo, hi). *)
Definition reads_within {R A} (lo hi : Z) (m : M R A) : Prop :=
  Forall (fun a => lo <= a < hi) (reads m).

Section ScanVocabulary.

Variable mem : memory.

(** The number of consecutive array codes that end just before [q], among
    the [n] bytes before [q]. *)
Fixpoint array_run (n : nat) (q : Z) : Z :=
  match n with
  | O => 0
  | S n' =>
      if byte_val (mem (q - 1)) =? DBUS_TYPE_ARRAY
      then array_run n' (q - 1) + 1
      else 0
  end.

(** The number of struct-begin codes minus the number of struct-end codes
    among the [n] bytes before [q]: the structs still open there. *)
Fixpoint struct_balance (n : nat) (q : Z) : Z :=
  match n with
  | O => 0
  | S n' =>
      let c := byte_val (mem (q - 1)) in
      struct_balance n' (q - 1)
      + (if c =? DBUS_STRUCT_BEGIN_CHAR then 1
         else if c =? DBUS_STRUCT_END_CHAR then -1
         else 0)
  end.

(** [last_slash] is the last slash before [s]. *)
Definition last_slash_before (last_slash s : Z) : Prop :=
  last_slash < s
  /\ byte_val (mem last_slash) = chr "/"
  /\ forall a, last_slash < a < s -> byte_val (mem a) <> chr "/".

(** What the scan of a unique name accepts at the byte [a]. *)
Definition unique_name_byte_ok (end_ a : Z) : Prop :=
  VALID_NAME_CHARACTER (byte_val (mem a)) = true
  \/ (byte_val (mem a) = chr "." /\ a + 1 < end_
      /\ VALID_NAME_CHARACTER (byte_val (mem (a + 1))) = true).

End ScanVocabulary.

(** In the words of the specification: an ASCII letter, digit or
    underscore. *)
Definition ascii_alnum_or_underscore (c : Z) : Prop :=
  (chr "0" <= c <= chr "9") \/ (chr "A" <= c <= chr "Z")
  \/ (chr "a" <= c <= chr "z") \/ c = chr "_".

(** In the words of the specification: the [len] bytes at [s0] are a valid
    object path. They are not empty; the first byte is a slash; no two
    consecutive bytes are slashes; the last byte is a slash only if the
    path is exactly that slash; every other byte is alphanumeric or an
    underscore. *)
Definition valid_path_range (mem : memory) (s0 len : Z) : Prop :=
  0 < len
  /\ byte_val (mem s0) = chr "/"
  /\ (forall a, s0 <= a -> a + 1 < s0 + len ->
       ~ (byte_val (mem a) = chr "/" /\ byte_val (mem (a + 1)) = chr "/"))
  /\ (byte_val (mem (s0 + len - 1)) = chr "/" -> len = 1)
  /\ (forall a, s0 <= a < s0 + len -> byte_val (mem a) <> chr "/" ->
       ascii_alnum_or_underscore (byte_val (mem a))).

(** The relaxed rule of unique names on the [len] bytes at [s0], whose
    first byte is the colon: every later byte is alphanumeric or an
    underscore (a digit may start a segment), or it is a dot and the byte
    after it, inside the range, is alphanumeric or an underscore. *)
Definition relaxed_segments (mem : memory) (s0 len : Z) : Prop :=
  forall a, s0 + 1 <= a < s0 + len ->
    ascii_alnum_or_underscore (byte_val (mem a))
    \/ (byte_val (mem a) = chr "."
        /\ a + 1 < s0 + len
        /\ ascii_alnum_or_underscore (byte_val (mem (a + 1)))).

(** The memory that holds the bytes of a string literal at [base]. *)
Definition memory_of (base : Z) (s : string) : memory :=
  store_bytes base (list_byte_of_string s) zero_memory.

Definition string_at (base : Z) (s : string) : DBusString :=
  mkString base (Z.of_nat (String.length s)).

Fixpoint replicate (n : nat) (s : string) : string :=
  match n with
  | O => EmptyString
  | S n' => (s ++ replicate n' s)%string
  end.

(** The verdict of [_dbus_validate_signature_with_reason] on a whole
    string literal, held at address 1000, with budget to spare. *)
Definition signature_verdict (s : string) : outcome DBusValidity DBusValidity :=
  result (_dbus_validate_signature_with_reason (memory_of 1000 s)
            (S (String.length s)) (string_at 1000 s) 0
            (Z.of_nat (String.length s))).

(** The memory of the examples on bodies: the signature, with its nul, at
    address 1000 and the bytes of the value string at address 2000. *)
Definition message_memory (sig : string) (value : list byte) : memory :=
  store_bytes 1000 (list_byte_of_string sig) (store_bytes 2000 value zero_memory).

(** A stand-in for the UTF-8 collaborator in the examples, none of which
    has a string in it. *)
Definition any_utf8 : memory -> DBusString -> Z -> Z -> bool :=
  fun _ _ _ _ => true.

(** An ASCII letter or underscore. *)
Definition ascii_letter_or_underscore (c : Z) : Prop :=
  (chr "A" <= c <= chr "Z") \/ (chr "a" <= c <= chr "z") \/ c = chr "_".

(** What [_dbus_validate_interface] accepts on the [len] bytes at [s0]:
    the length is positive and within the maximum; the first byte is a
    letter or an underscore; every later byte is alphanumeric or an
    underscore, or it is a dot and the byte after it, inside the range, is
    a letter or an underscore; and there is a dot. *)
Definition valid_interface_range (mem : memory) (s0 len : Z) : Prop :=
  0 < len <= DBUS_MAXIMUM_NAME_LENGTH
  /\ ascii_letter_or_underscore (byte_val (mem s0))
  /\ (forall a, s0 + 1 <= a < s0 + len ->
       ascii_alnum_or_underscore (byte_val (mem a))
       \/ (byte_val (mem a) = chr "."
           /\ a + 1 < s0 + len
           /\ ascii_letter_or_underscore (byte_val (mem (a + 1)))))
  /\ (exists a, s0 + 1 <= a < s0 + len /\ byte_val (mem a) = chr ".").

(** What [_dbus_validate_member] accepts: a positive length within the
    maximum, a first byte that is a letter or an underscore, and only
    alphanumeric bytes and underscores after it. *)
Definition valid_member_range (mem : memory) (s0 len : Z) : Prop :=
  0 < len <= DBUS_MAXIMUM_NAME_LENGTH
  /\ ascii_letter_or_underscore (byte_val (mem s0))
  /\ (forall a, s0 + 1 <= a < s0 + len ->
       ascii_alnum_or_underscore (byte_val (mem a))).

(** What the scan of an interface name accepts at the byte [a]. *)
Definition interface_byte_ok (mem : memory) (end_ a : Z) : Prop :=
  VALID_NAME_CHARACTER (byte_val (mem a)) = true
  \/ (byte_val (mem a) = chr "." /\ a + 1 < end_
      /\ VALID_INITIAL_NAME_CHARACTER (byte_val (mem (a + 1))) = true).

(** A validator reads the range only, and only a range that lies in the
    string. *)
Definition reads_inside (str : DBusString) (start len : Z) {R A} (m : M R A)
  : Prop :=
  reads_within (string_data str + start) (string_data str + start + len) m
  /\ (reads m <> [] -> 0 <= start /\ 0 < len <= string_len str - start).

(** One of the type codes that the signature scan knows: a basic type, the
    variant, the array code or one of the struct parentheses. *)
Definition known_type_code (c : Z) : Prop :=
  is_basic_or_variant c = true \/ c = DBUS_TYPE_ARRAY
  \/ c = DBUS_STRUCT_BEGIN_CHAR \/ c = DBUS_STRUCT_END_CHAR.

(** What lets the signature scan come through the [n] bytes at [p]: every
    byte is a known type code; after each of the bytes the run of array
    codes just read is at most the maximum depth and the number of open
    structs is between 0 and the maximum depth; and no struct-end code
    comes right after a struct-begin code. *)
Definition prefix_accepted (mem : memory) (p : Z) (n : nat) : Prop :=
  (forall a, p <= a < p + Z.of_nat n -> known_type_code (byte_val (mem a)))
  /\ (forall m : nat, (m <= n)%nat ->
        array_run mem m (p + Z.of_nat m) <= DBUS_MAXIMUM_TYPE_RECURSION_DEPTH
        /\ 0 <= struct_balance mem m (p + Z.of_nat m)
             <= DBUS_MAXIMUM_TYPE_RECURSION_DEPTH)
  /\ (forall a, p <= a -> a + 1 < p + Z.of_nat n ->
        ~ (byte_val (mem a) = DBUS_STRUCT_BEGIN_CHAR
           /\ byte_val (mem (a + 1)) = DBUS_STRUCT_END_CHAR)).

(** The signatures that [_dbus_validate_signature_with_reason] finds
    valid: within the maximum length, scanned through, and ending with no
    array code just read and no struct open. *)
Definition signature_accepted (mem : memory) (s0 len : Z) : Prop :=
  len <= DBUS_MAXIMUM_SIGNATURE_LENGTH
  /\ prefix_accepted mem s0 (Z.to_nat len)
  /\ array_run mem (Z.to_nat len) (s0 + len) = 0
  /\ struct_balance mem (Z.to_nat len) (s0 + len) = 0.

(** An address range in which rounding up to 8 does not wrap. *)
Definition addresses_fit (p end_ : Z) : Prop :=
  0 <= p /\ 0 <= end_ /\ end_ + 16 <= 2 ^ ULONG_BITS.

(** The types that are aligned to 8. *)
Definition aligned_to_8 (t : Z) : Prop :=
  t = DBUS_TYPE_INT64 \/ t = DBUS_TYPE_UINT64 \/ t = DBUS_TYPE_DOUBLE
  \/ t = DBUS_TYPE_STRUCT.

(** A run of the helper from a cursor [p] at or before [end]: it reads
    from [p] on and less than 3 bytes past [end], and the cursor it hands
    back is between [p] and [end]. *)
Definition helper_within (p end_ : Z) (m : M DBusValidity (DBusTypeReader * Z))
  : Prop :=
  reads_within p (end_ + 3) m
  /\ forall reader' p', result m = Val (reader', p') -> p <= p' <= end_.

(** A computation that reads nothing and does not fall through. *)
Definition stops_unread {R A} (m : M R A) : Prop :=
  reads m = [] /\ forall a, result m <> Val a.

(** One case of the helper's switch at the cursor [p]: it reads from [p]
    on and less than 3 bytes past [end], and moves the cursor forward. *)
Definition case_within (p end_ : Z) (m : M DBusValidity Z) : Prop :=
  reads_within p (end_ + 3) m
  /\ forall p', result m = Val p' -> p <= p'.

(** A computation that reads inside [lo, hi) and, when it falls through,
    does so with a value that satisfies [Q]. *)
Definition within {R A} (lo hi : Z) (Q : A -> Prop) (m : M R A) : Prop :=
  reads_within lo hi m /\ forall a, result m = Val a -> Q a.

(** The unsigned 32-bit word that [_dbus_unpack_uint32] finds at [a]. *)
Definition word_at (mem : memory) (byte_order a : Z) : Z :=
  if byte_order =? DBUS_LITTLE_ENDIAN
  then byte_val (mem a) + Z.shiftl (byte_val (mem (a + 1))) 8
       + Z.shiftl (byte_val (mem (a + 2))) 16
       + Z.shiftl (byte_val (mem (a + 3))) 24
  else byte_val (mem (a + 3)) + Z.shiftl (byte_val (mem (a + 2))) 8
       + Z.shiftl (byte_val (mem (a + 1))) 16
       + Z.shiftl (byte_val (mem a)) 24.

(** * Properties *)

(** ** The monad *)

Lemma result_bind {R A B} (m : M R A) (k : A -> M R B) :
  result (bind m k) =
  match result m with
  | Val a => result (k a)
  | Ret r => Ret r
  | Abort => Abort
  | OutOfFuel => OutOfFuel
  end.
Proof. destruct m as [[a | r | | ] d]; reflexivity. Qed.

Lemma reads_bind {R A B} (m : M R A) (k : A -> M R B) :
  reads (bind m k) =
  match result m with
  | Val a => reads m ++ reads (k a)
  | _ => reads m
  end.
Proof. destruct m as [[a | r | | ] d]; reflexivity. Qed.

Lemma result_call {R R'} (m : M R R) :
  result (@call R R' m) =
  match result m with
  | Val r => Val r
  | Ret r => Val r
  | Abort => Abort
  | OutOfFuel => OutOfFuel
  end.
Proof. destruct m as [[a | r | | ] d]; reflexivity. Qed.

Lemma reads_call {R R'} (m : M R R) : reads (@call R R' m) = reads m.
Proof. destruct m as [[a | r | | ] d]; reflexivity. Qed.

Lemma reads_within_weaken {R A} (lo hi lo' hi' : Z) (m : M R A) :
  lo' <= lo -> hi <= hi' -> reads_within lo hi m -> reads_within lo' hi' m.
Proof.
  unfold reads_within. intros Hlo Hhi H.
  eapply Forall_impl; [ | exact H ]. cbn. intros a Ha. lia.
Qed.

Ltac case_if :=
  match goal with
  | |- context [if ?b then _ else _] => destruct b eqn:?
  end.

(** ** The signature scan *)

Section SignatureFacts.

Variable mem : memory.

Lemma basic_not_structural (c : Z) :
  is_basic_or_variant c = true ->
  c <> DBUS_TYPE_ARRAY /\ c <> DBUS_STRUCT_BEGIN_CHAR /\ c <> DBUS_STRUCT_END_CHAR.
Proof. intros H. repeat split; intros ->; discriminate H. Qed.

Lemma sig_switch_reads (c : Z) (st : sig_state) : reads (sig_switch c st) = [].
Proof. unfold sig_switch. repeat case_if; reflexivity. Qed.

Lemma sig_switch_finishes (c : Z) (st : sig_state) : finishes (sig_switch c st).
Proof. unfold sig_switch, finishes. repeat case_if; exact I. Qed.

Lemma sig_body_finishes (p : Z) (st : sig_state) : finishes (sig_body mem p st).
Proof.
  unfold finishes, sig_body. rewrite result_bind. cbn.
  rewrite result_bind.
  pose proof (sig_switch_finishes (byte_val (mem p)) st) as H.
  unfold finishes in H.
  destruct (result (sig_switch (byte_val (mem p)) st)); try exact I; try contradiction.
Qed.

Lemma sig_body_reads (p : Z) (st : sig_state) :
  Forall (fun a => a = p) (reads (sig_body mem p st)).
Proof.
  unfold sig_body. rewrite reads_bind. cbn.
  rewrite reads_bind, sig_switch_reads.
  destruct (result (sig_switch (byte_val (mem p)) st)); cbn; repeat constructor.
Qed.

Lemma sig_loop_finishes_within (fuel : nat) :
  forall (p end_ : Z) (st : sig_state),
    p <= end_ -> (Z.to_nat (end_ - p) < fuel)%nat ->
    finishes (sig_loop mem fuel p end_ st)
    /\ reads_within p end_ (sig_loop mem fuel p end_ st).
Proof.
  induction fuel as [ | fuel IH]; intros p end_ st Hle Hfuel; [ lia | ].
  cbn [sig_loop]. destruct (Z.eqb_spec p end_) as [-> | Hne]; cbn [negb].
  - split; [ exact I | constructor ].
  - destruct (IH (p + 1) end_) with (st := st) as [_ _]; [ lia | lia | ].
    pose proof (sig_body_finishes p st) as Hfin.
    pose proof (sig_body_reads p st) as Hrd.
    unfold finishes, reads_within in *.
    rewrite result_bind, reads_bind.
    destruct (result (sig_body mem p st)) as [st' | v | | ] eqn:Hres;
      try contradiction.
    + destruct (IH (p + 1) end_ st') as [Hf Hr]; [ lia | lia | ].
      split; [ exact Hf | ].
      apply Forall_app; split.
      * eapply Forall_impl; [ | exact Hrd ]. cbn. intros a ->. lia.
      * eapply Forall_impl; [ | exact Hr ]. cbn. intros a Ha. lia.
    + split; [ exact I | ].
      eapply Forall_impl; [ | exact Hrd ]. cbn. intros a ->. lia.
Qed.

Lemma sorted_after_repeats (p : Z) (d1 d2 : list Z) :
  Forall (fun a => a = p) d1 -> Forall (fun a => p < a) d2 ->
  StronglySorted Z.le d2 -> StronglySorted Z.le (d1 ++ d2).
Proof.
  intros H1 H2 Hs. induction d1 as [ | a d1 IH]; cbn; [ exact Hs | ].
  inversion H1 as [ | a' d1' Ha Hd1]; subst.
  constructor; [ apply IH; exact Hd1 | ].
  apply Forall_app; split.
  - eapply Forall_impl; [ | exact Hd1 ]. cbn. intros b ->. lia.
  - eapply Forall_impl; [ | exact H2 ]. cbn. intros b Hb. lia.
Qed.

(** The scan reads from left to right. *)
Lemma sig_loop_sorted (fuel : nat) :
  forall (p end_ : Z) (st : sig_state),
    p <= end_ -> (Z.to_nat (end_ - p) < fuel)%nat ->
    StronglySorted Z.le (reads (sig_loop mem fuel p end_ st)).
Proof.
  induction fuel as [ | fuel IH]; intros p end_ st Hle Hfuel; [ lia | ].
  cbn [sig_loop]. destruct (Z.eqb_spec p end_) as [-> | Hne]; cbn [negb].
  - constructor.
  - rewrite reads_bind. pose proof (sig_body_reads p st) as Hrd.
    destruct (result (sig_body mem p st)) as [st' | v | | ].
    + apply sorted_after_repeats with (p := p); [ exact Hrd | | ].
      * destruct (sig_loop_finishes_within fuel (p + 1) end_ st') as [_ Hr];
          [ lia | lia | ].
        eapply Forall_impl; [ | exact Hr ]. cbn. intros a Ha. lia.
      * apply IH; lia.
    + rewrite <- (app_nil_r (reads _)).
      apply sorted_after_repeats with (p := p); [ exact Hrd | constructor | constructor ].
    + rewrite <- (app_nil_r (reads _)).
      apply sorted_after_repeats with (p := p); [ exact Hrd | constructor | constructor ].
    + rewrite <- (app_nil_r (reads _)).
      apply sorted_after_repeats with (p := p); [ exact Hrd | constructor | constructor ].
Qed.

(** With enough of it, the budget does not matter. *)
Lemma sig_loop_fuel (f1 : nat) :
  forall (f2 : nat) (p end_ : Z) (st : sig_state),
    p <= end_ -> (Z.to_nat (end_ - p) < f1)%nat -> (Z.to_nat (end_ - p) < f2)%nat ->
    sig_loop mem f1 p end_ st = sig_loop mem f2 p end_ st.
Proof.
  induction f1 as [ | f1 IH]; intros f2 p end_ st Hle H1 H2; [ lia | ].
  destruct f2 as [ | f2]; [ lia | ].
  cbn [sig_loop]. destruct (Z.eqb_spec p end_) as [-> | Hne]; cbn [negb];
    [ reflexivity | ].
  unfold bind.
  destruct (sig_body mem p st) as [[st' | v | | ] d]; try reflexivity.
  rewrite (IH f2); [ reflexivity | lia | lia | lia ].
Qed.

(** The scan of [p, end) is the scan of [p, q) followed by that of
    [q, end). *)
Lemma sig_loop_split (fuel : nat) :
  forall (p q end_ : Z) (st : sig_state),
    p <= q <= end_ -> (Z.to_nat (end_ - p) < fuel)%nat ->
    result (sig_loop mem fuel p end_ st) =
    match result (sig_loop mem fuel p q st) with
    | Val st' => result (sig_loop mem fuel q end_ st')
    | Ret v => Ret v
    | Abort => Abort
    | OutOfFuel => OutOfFuel
    end.
Proof.
  induction fuel as [ | fuel IH]; intros p q end_ st Hpq Hfuel; [ lia | ].
  destruct (Z.eqb_spec p q) as [<- | Hne].
  - replace (result (sig_loop mem (S fuel) p p st)) with (@Val DBusValidity _ st);
      [ reflexivity | ].
    cbn [sig_loop]. rewrite Z.eqb_refl. reflexivity.
  - cbn [sig_loop].
    destruct (Z.eqb_spec p q) as [ | _]; [ contradiction | ].
    destruct (Z.eqb_spec p end_) as [ | _]; [ lia | ]. cbn [negb].
    rewrite !result_bind.
    destruct (result (sig_body mem p st)) as [st' | v | | ]; try reflexivity.
    rewrite (IH (p + 1) q end_ st'); [ | lia | lia ].
    destruct (result (sig_loop mem fuel (p + 1) q st')) as [st'' | v | | ];
      try reflexivity.
    rewrite (sig_loop_fuel fuel (S fuel)); [ reflexivity | lia | lia | lia ].
Qed.

(** One iteration, from the byte it reads. *)
Lemma sig_body_result (p : Z) (st : sig_state) :
  result (sig_body mem p st) =
  let c := byte_val (mem p) in
  match result (sig_switch c st) with
  | Val st1 =>
      Val (mkSig c (struct_depth st1)
                 (if negb (c =? DBUS_TYPE_ARRAY) then 0 else array_depth st1))
  | Ret v => Ret v
  | Abort => Abort
  | OutOfFuel => OutOfFuel
  end.
Proof.
  unfold sig_body. rewrite result_bind. cbn. rewrite result_bind.
  destruct (result (sig_switch (byte_val (mem p)) st)) as [st1 | v | | ];
    try reflexivity.
  cbn. destruct (byte_val (mem p) =? DBUS_TYPE_ARRAY); reflexivity.
Qed.

(** The scan of the single byte at [q]. *)
Lemma sig_loop_one (fuel : nat) (q : Z) (st : sig_state) :
  (1 < fuel)%nat ->
  result (sig_loop mem fuel q (q + 1) st) = result (sig_body mem q st).
Proof.
  intros Hfuel. destruct fuel as [ | [ | fuel]]; try lia.
  cbn [sig_loop]. destruct (Z.eqb_spec q (q + 1)) as [ | _]; [ lia | ].
  cbn [negb]. rewrite result_bind.
  destruct (result (sig_body mem q st)); try reflexivity.
  rewrite Z.eqb_refl. reflexivity.
Qed.

Lemma array_run_nonneg (n : nat) : forall q, 0 <= array_run mem n q.
Proof.
  induction n as [ | n IH]; intros q; cbn; [ lia | ].
  case_if; [ specialize (IH (q - 1)); lia | lia ].
Qed.

(** What the scan of the [n] bytes from [p] knows when it falls through:
    [array_depth] is the length of the run of array codes it has just
    read, [last] is the last byte read, and a struct is open when that
    byte is a struct-begin. *)
Lemma sig_scan_invariant (n : nat) :
  forall (fuel : nat) (p : Z) (st : sig_state),
    (n < fuel)%nat ->
    result (sig_loop mem fuel p (p + Z.of_nat n) sig_init) = Val st ->
    array_depth st = array_run mem n (p + Z.of_nat n)
    /\ struct_depth st = struct_balance mem n (p + Z.of_nat n)
    /\ 0 <= struct_depth st
    /\ last st = match n with
                 | O => DBUS_TYPE_INVALID
                 | S _ => byte_val (mem (p + Z.of_nat n - 1))
                 end
    /\ (last st = DBUS_STRUCT_BEGIN_CHAR -> 0 < struct_depth st).
Proof.
  induction n as [ | n IH]; intros fuel p st Hfuel Hres.
  - destruct fuel as [ | fuel]; [ lia | ].
    cbn [sig_loop] in Hres. replace (p + Z.of_nat 0) with p in Hres by lia.
    rewrite Z.eqb_refl in Hres. cbn in Hres. injection Hres as <-.
    cbn. repeat split; try lia. discriminate.
  - rewrite (sig_loop_split fuel p (p + Z.of_nat n)) in Hres; [ | lia | lia ].
    destruct (result (sig_loop mem fuel p (p + Z.of_nat n) sig_init))
      as [st0 | v | | ] eqn:H0; try discriminate.
    destruct (IH fuel p st0) as (Had & Hbal & Hsd & _ & _); [ lia | exact H0 | ].
    replace (p + Z.of_nat (S n)) with (p + Z.of_nat n + 1) in * by lia.
    rewrite sig_loop_one in Hres by lia.
    rewrite sig_body_result in Hres. cbv zeta in Hres.
    replace (p + Z.of_nat n + 1 - 1) with (p + Z.of_nat n) by lia.
    cbn [array_run struct_balance].
    replace (p + Z.of_nat n + 1 - 1) with (p + Z.of_nat n) by lia.
    set (c := byte_val (mem (p + Z.of_nat n))) in *. clearbody c. cbv zeta.
    unfold sig_switch in Hres.
    destruct (is_basic_or_variant c) eqn:Hb.
    { destruct (basic_not_structural c Hb) as (Ha & Hb1 & Hb2).
      cbn in Hres. injection Hres as <-. cbn [array_depth struct_depth last].
      apply Z.eqb_neq in Ha, Hb1, Hb2. rewrite Ha, Hb1, Hb2. cbn [negb].
      apply Z.eqb_neq in Hb1. repeat split; lia. }
    destruct (Z.eqb_spec c DBUS_TYPE_ARRAY) as [Hc | Hc].
    { destruct (array_depth st0 + 1 >? DBUS_MAXIMUM_TYPE_RECURSION_DEPTH);
        cbn in Hres; [ discriminate | ].
      injection Hres as <-. cbn [array_depth struct_depth last negb].
      subst c.
      change (DBUS_TYPE_ARRAY =? DBUS_STRUCT_BEGIN_CHAR) with false.
      change (DBUS_TYPE_ARRAY =? DBUS_STRUCT_END_CHAR) with false.
      cbn [negb]. repeat split; try lia. intros H. discriminate H. }
    destruct (Z.eqb_spec c DBUS_STRUCT_BEGIN_CHAR) as [Hc1 | Hc1].
    { destruct (struct_depth st0 + 1 >? DBUS_MAXIMUM_TYPE_RECURSION_DEPTH);
        cbn in Hres; [ discriminate | ].
      injection Hres as <-. cbn [array_depth struct_depth last negb].
      repeat split; lia. }
    destruct (Z.eqb_spec c DBUS_STRUCT_END_CHAR) as [Hc2 | Hc2];
      [ | discriminate ].
    destruct (Z.eqb_spec (struct_depth st0) 0) as [ | Hsd0]; [ discriminate | ].
    destruct (last st0 =? DBUS_STRUCT_BEGIN_CHAR); cbn in Hres; [ discriminate | ].
    injection Hres as <-. cbn [array_depth struct_depth last negb].
    repeat split; lia.
Qed.

Lemma geb_true (x y : Z) : y <= x -> (x >=? y) = true.
Proof. intros H. rewrite Z.geb_leb. apply Z.leb_le. exact H. Qed.

Lemma gtb_false (x y : Z) : x <= y -> (x >? y) = false.
Proof. intros H. rewrite Z.gtb_ltb. apply Z.ltb_ge. exact H. Qed.

Lemma gtb_true (x y : Z) : y < x -> (x >? y) = true.
Proof. intros H. rewrite Z.gtb_ltb. apply Z.ltb_lt. exact H. Qed.

(** Under its assertions and within the maximum length, the function is
    its scan followed by the final tests. *)
Lemma sig_with_reason_unfold (fuel : nat) (type_str : DBusString)
    (type_pos len : Z) :
  0 <= type_pos -> 0 <= len -> type_pos < _DBUS_INT_MAX - len ->
  len <= DBUS_MAXIMUM_SIGNATURE_LENGTH ->
  _dbus_validate_signature_with_reason mem fuel type_str type_pos len =
  (st <- sig_loop mem fuel (string_data type_str + type_pos)
           (string_data type_str + type_pos + len) sig_init ;;
   sig_finish st).
Proof.
  intros Hpos Hlen Hmax Hlong. unfold _dbus_validate_signature_with_reason.
  rewrite (proj2 (Z.ltb_lt _ _) Hmax), (geb_true len 0 Hlen),
    (geb_true type_pos 0 Hpos), (gtb_false _ _ Hlong).
  unfold _dbus_string_get_const_data_len. rewrite Z.add_assoc.
  cbn [dbus_assert].
  destruct (sig_loop mem fuel (string_data type_str + type_pos)
              (string_data type_str + type_pos + len) sig_init)
    as [[st | v | | ] d]; reflexivity.
Qed.

Lemma sig_finish_reads (st : sig_state) : reads (sig_finish st) = [].
Proof. unfold sig_finish. repeat case_if; reflexivity. Qed.

Lemma sig_finish_returns (st : sig_state) : returns (sig_finish st).
Proof. unfold sig_finish, returns. repeat case_if; eexists; reflexivity. Qed.

(** When the scan is not at the end, its result starts with that of one
    iteration. *)
Lemma sig_loop_step (fuel : nat) (q end_ : Z) (st : sig_state) :
  q < end_ -> (0 < fuel)%nat ->
  forall v, result (sig_body mem q st) = Ret v ->
            result (sig_loop mem fuel q end_ st) = Ret v.
Proof.
  intros Hq Hfuel v Hv. destruct fuel as [ | fuel]; [ lia | ].
  cbn [sig_loop]. destruct (Z.eqb_spec q end_) as [ | _]; [ lia | ].
  cbn [negb]. rewrite result_bind, Hv. reflexivity.
Qed.

(** If the scan reaches [p + n] and the iteration there returns, so does
    the function. *)
Lemma sig_returns_at (fuel : nat) (type_str : DBusString) (type_pos len : Z)
    (n : Z) (st : sig_state) (v : DBusValidity) :
  0 <= type_pos -> 0 <= len -> type_pos < _DBUS_INT_MAX - len ->
  len <= DBUS_MAXIMUM_SIGNATURE_LENGTH -> (Z.to_nat len < fuel)%nat ->
  0 <= n < len ->
  result (sig_loop mem fuel (string_data type_str + type_pos)
            (string_data type_str + type_pos + n) sig_init) = Val st ->
  result (sig_body mem (string_data type_str + type_pos + n) st) = Ret v ->
  result (_dbus_validate_signature_with_reason mem fuel type_str type_pos len)
  = Ret v.
Proof.
  intros Hpos Hlen Hmax Hlong Hfuel Hn Hscan Hbody.
  rewrite sig_with_reason_unfold by assumption.
  rewrite result_bind.
  rewrite (sig_loop_split fuel _ (string_data type_str + type_pos + n));
    [ | lia | lia ].
  rewrite Hscan.
  rewrite (sig_loop_step fuel _ _ st) with (v := v); [ reflexivity | lia | lia | exact Hbody ].
Qed.

End SignatureFacts.

(** C8: for every range of at most the maximum signature length (and for
    longer ones as well), under the assertions of the function and with a
    budget of more than [len] iterations,
    [_dbus_validate_signature_with_reason] returns a validity code: it
    neither runs out of budget nor fails an assertion. Every byte it
    reads lies in [start, start + len) of the string, and the reads go
    from left to right. *)
Theorem validate_signature_terminates_within_range :
  forall (mem : memory) (fuel : nat) (type_str : DBusString) (type_pos len : Z),
    0 <= type_pos -> 0 <= len -> type_pos < _DBUS_INT_MAX - len ->
    (Z.to_nat len < fuel)%nat ->
    let start := string_data type_str + type_pos in
    let run := _dbus_validate_signature_with_reason mem fuel type_str type_pos len in
    returns run
    /\ reads_within start (start + len) run
    /\ StronglySorted Z.le (reads run).
Proof.
  intros mem fuel type_str type_pos len Hpos Hlen Hmax Hfuel start run.
  destruct (Z.leb_spec len DBUS_MAXIMUM_SIGNATURE_LENGTH) as [Hlong | Hlong].
  - subst run. rewrite sig_with_reason_unfold by assumption. fold start.
    destruct (sig_loop_finishes_within mem fuel start (start + len) sig_init)
      as [Hfin Hrd]; [ lia | replace (start + len - start) with len by lia; lia | ].
    pose proof (sig_loop_sorted mem fuel start (start + len) sig_init) as Hsort.
    unfold returns, reads_within, finishes in *.
    rewrite result_bind, reads_bind.
    destruct (result (sig_loop mem fuel start (start + len) sig_init))
      as [st | v | | ]; try contradiction.
    + rewrite sig_finish_reads, app_nil_r.
      split; [ apply sig_finish_returns | ].
      split; [ exact Hrd | ].
      apply Hsort; [ lia | replace (start + len - start) with len by lia; lia ].
    + split; [ eexists; reflexivity | ].
      split; [ exact Hrd | ].
      apply Hsort; [ lia | replace (start + len - start) with len by lia; lia ].
  - subst run. unfold _dbus_validate_signature_with_reason.
    rewrite (proj2 (Z.ltb_lt _ _) Hmax), (geb_true len 0 Hlen),
      (geb_true type_pos 0 Hpos), (gtb_true _ _ Hlong).
    cbn. split; [ eexists; reflexivity | ]. split; constructor.
Qed.

Lemma validate_signature_terminates_within_range_witness :
  let m := memory_of 1000 "a(ii)ayv" in
  let run := _dbus_validate_signature_with_reason m 9 (string_at 1000 "a(ii)ayv") 0 8 in
  returns run /\ reads_within 1000 1008 run /\ StronglySorted Z.le (reads run).
Proof.
  apply (validate_signature_terminates_within_range
           (memory_of 1000 "a(ii)ayv") 9 (string_at 1000 "a(ii)ayv") 0 8).
  - lia.
  - lia.
  - reflexivity.
  - cbn. lia.
Defined.

(** The array-depth counter along the scan, at any byte [n] the scan
    comes to. *)
Lemma array_depth_along_the_scan :
  forall (mem : memory) (fuel : nat) (type_str : DBusString) (type_pos len : Z),
    0 <= type_pos -> 0 <= len -> type_pos < _DBUS_INT_MAX - len ->
    len <= DBUS_MAXIMUM_SIGNATURE_LENGTH -> (Z.to_nat len < fuel)%nat ->
    let start := string_data type_str + type_pos in
    let whole :=
      result (_dbus_validate_signature_with_reason mem fuel type_str type_pos len) in
    forall (n : Z) (st : sig_state),
      0 <= n <= len ->
      result (sig_loop mem fuel start (start + n) sig_init) = Val st ->
      let c := byte_val (mem (start + n)) in
      array_depth st = array_run mem (Z.to_nat n) (start + n)
      /\ (c = DBUS_TYPE_ARRAY ->
          result (sig_body mem (start + n) st) =
          if array_depth st + 1 >? DBUS_MAXIMUM_TYPE_RECURSION_DEPTH
          then Ret DBUS_INVALID_EXCEEDED_MAXIMUM_ARRAY_RECURSION
          else Val (mkSig DBUS_TYPE_ARRAY (struct_depth st) (array_depth st + 1)))
      /\ (c <> DBUS_TYPE_ARRAY ->
          forall st', result (sig_body mem (start + n) st) = Val st' ->
                      array_depth st' = 0)
      /\ (n < len -> c = DBUS_TYPE_ARRAY ->
          DBUS_MAXIMUM_TYPE_RECURSION_DEPTH < array_depth st + 1 ->
          whole = Ret DBUS_INVALID_EXCEEDED_MAXIMUM_ARRAY_RECURSION)
      /\ (n = len -> 0 < array_depth st ->
          whole = Ret DBUS_INVALID_MISSING_ARRAY_ELEMENT_TYPE).
Proof.
  intros mem fuel type_str type_pos len Hpos Hlen Hmax Hlong Hfuel start whole
    n st Hn Hscan c.
  assert (Hbody : c = DBUS_TYPE_ARRAY ->
          result (sig_body mem (start + n) st) =
          if array_depth st + 1 >? DBUS_MAXIMUM_TYPE_RECURSION_DEPTH
          then Ret DBUS_INVALID_EXCEEDED_MAXIMUM_ARRAY_RECURSION
          else Val (mkSig DBUS_TYPE_ARRAY (struct_depth st) (array_depth st + 1))).
  { intros Hc. rewrite sig_body_result. cbv zeta. fold c. rewrite Hc.
    unfold sig_switch.
    change (is_basic_or_variant DBUS_TYPE_ARRAY) with false.
    rewrite Z.eqb_refl. cbv zeta.
    destruct (array_depth st + 1 >? DBUS_MAXIMUM_TYPE_RECURSION_DEPTH);
      reflexivity. }
  repeat split.
  - pose proof (sig_scan_invariant mem (Z.to_nat n) fuel start st) as Hinv.
    rewrite Z2Nat.id in Hinv by lia.
    apply Hinv; [ lia | exact Hscan ].
  - exact Hbody.
  - intros Hc st' Hst'. rewrite sig_body_result in Hst'. cbv zeta in Hst'.
    fold c in Hst'.
    destruct (result (sig_switch c st)) as [st1 | v | | ]; try discriminate.
    injection Hst' as <-. cbn [array_depth].
    apply Z.eqb_neq in Hc. rewrite Hc. reflexivity.
  - intros Hlt Hc Hex. subst whole.
    apply (sig_returns_at mem fuel type_str type_pos len n st); try assumption.
    + lia.
    + fold start. rewrite (Hbody Hc), (gtb_true _ _ Hex). reflexivity.
  - intros -> Hpos'. subst whole.
    rewrite sig_with_reason_unfold by assumption. fold start.
    rewrite result_bind, Hscan. unfold sig_finish.
    rewrite (gtb_true _ _ Hpos'). reflexivity.
Qed.

(** C5: in [_dbus_validate_signature_with_reason], whenever the scan has
    come to byte [n] without returning, [array_depth] is the number of
    consecutive array codes it has just read; an array code at byte [n]
    increments it unless that exceeds the maximum, which returns
    [DBUS_INVALID_EXCEEDED_MAXIMUM_ARRAY_RECURSION], also as the result
    of the function; any other code that lets the scan go on resets it to
    0; and a scan that ends with a positive [array_depth] returns
    [DBUS_INVALID_MISSING_ARRAY_ELEMENT_TYPE], as the signature "a"
    does. A chain of 33 array codes exceeds the maximum, one of 32 before
    a byte does not, and 40 arrays of bytes in a row are valid: only
    consecutive array codes count. *)
Theorem array_depth_counts_consecutive_array_codes :
  (forall (mem : memory) (fuel : nat) (type_str : DBusString) (type_pos len : Z),
      0 <= type_pos -> 0 <= len -> type_pos < _DBUS_INT_MAX - len ->
      len <= DBUS_MAXIMUM_SIGNATURE_LENGTH -> (Z.to_nat len < fuel)%nat ->
      let start := string_data type_str + type_pos in
      let whole :=
        result (_dbus_validate_signature_with_reason mem fuel type_str type_pos len) in
      forall (n : Z) (st : sig_state),
        0 <= n <= len ->
        result (sig_loop mem fuel start (start + n) sig_init) = Val st ->
        let c := byte_val (mem (start + n)) in
        array_depth st = array_run mem (Z.to_nat n) (start + n)
        /\ (c = DBUS_TYPE_ARRAY ->
            result (sig_body mem (start + n) st) =
            if array_depth st + 1 >? DBUS_MAXIMUM_TYPE_RECURSION_DEPTH
            then Ret DBUS_INVALID_EXCEEDED_MAXIMUM_ARRAY_RECURSION
            else Val (mkSig DBUS_TYPE_ARRAY (struct_depth st) (array_depth st + 1)))
        /\ (c <> DBUS_TYPE_ARRAY ->
            forall st', result (sig_body mem (start + n) st) = Val st' ->
                        array_depth st' = 0)
        /\ (n < len -> c = DBUS_TYPE_ARRAY ->
            DBUS_MAXIMUM_TYPE_RECURSION_DEPTH < array_depth st + 1 ->
            whole = Ret DBUS_INVALID_EXCEEDED_MAXIMUM_ARRAY_RECURSION)
        /\ (n = len -> 0 < array_depth st ->
            whole = Ret DBUS_INVALID_MISSING_ARRAY_ELEMENT_TYPE))
  /\ signature_verdict "a" = Ret DBUS_INVALID_MISSING_ARRAY_ELEMENT_TYPE
  /\ signature_verdict (replicate 33 "a")
     = Ret DBUS_INVALID_EXCEEDED_MAXIMUM_ARRAY_RECURSION
  /\ signature_verdict (replicate 32 "a" ++ "y") = Ret DBUS_VALID
  /\ signature_verdict (replicate 40 "ay") = Ret DBUS_VALID.
Proof.
  split; [ exact array_depth_along_the_scan | ].
  repeat split; vm_compute; reflexivity.
Qed.

Lemma array_depth_counts_consecutive_array_codes_witness :
  result (_dbus_validate_signature_with_reason
            (memory_of 1000 "a") 2 (string_at 1000 "a") 0 1)
  = Ret DBUS_INVALID_MISSING_ARRAY_ELEMENT_TYPE.
Proof.
  refine (proj2 (proj2 (proj2 (proj2
    (proj1 array_depth_counts_consecutive_array_codes
       (memory_of 1000 "a") 2%nat (string_at 1000 "a") 0 1 _ _ _ _ _
       1 (mkSig DBUS_TYPE_ARRAY 0 1) _ _)))) _ _).
  - lia.
  - lia.
  - reflexivity.
  - vm_compute. discriminate.
  - cbn. lia.
  - lia.
  - reflexivity.
  - reflexivity.
  - cbn. lia.
Defined.

(** The struct-depth counter along the scan, at any byte [n] the scan
    comes to. *)
Lemma struct_depth_along_the_scan :
  forall (mem : memory) (fuel : nat) (type_str : DBusString) (type_pos len : Z),
    0 <= type_pos -> 0 <= len -> type_pos < _DBUS_INT_MAX - len ->
    len <= DBUS_MAXIMUM_SIGNATURE_LENGTH -> (Z.to_nat len < fuel)%nat ->
    let start := string_data type_str + type_pos in
    let whole :=
      result (_dbus_validate_signature_with_reason mem fuel type_str type_pos len) in
    forall (n : Z) (st : sig_state),
      0 <= n <= len ->
      result (sig_loop mem fuel start (start + n) sig_init) = Val st ->
      let c := byte_val (mem (start + n)) in
      struct_depth st = struct_balance mem (Z.to_nat n) (start + n)
      /\ (n < len -> c = DBUS_STRUCT_END_CHAR -> struct_depth st = 0 ->
          whole = Ret DBUS_INVALID_STRUCT_ENDED_BUT_NOT_STARTED)
      /\ (0 < n < len -> c = DBUS_STRUCT_END_CHAR ->
          byte_val (mem (start + n - 1)) = DBUS_STRUCT_BEGIN_CHAR ->
          whole = Ret DBUS_INVALID_STRUCT_HAS_NO_FIELDS)
      /\ (n = len -> array_depth st = 0 -> 0 < struct_depth st ->
          whole = Ret DBUS_INVALID_STRUCT_STARTED_BUT_NOT_ENDED).
Proof.
  intros mem fuel type_str type_pos len Hpos Hlen Hmax Hlong Hfuel start whole
    n st Hn Hscan c.
  pose proof (sig_scan_invariant mem (Z.to_nat n) fuel start st) as Hinv.
  rewrite Z2Nat.id in Hinv by lia.
  destruct Hinv as (_ & Hbal & Hsd & Hlast & Hopen); [ lia | exact Hscan | ].
  repeat split.
  - exact Hbal.
  - intros Hlt Hc H0. subst whole.
    apply (sig_returns_at mem fuel type_str type_pos len n st); try assumption.
    + lia.
    + fold start. rewrite sig_body_result. cbv zeta. fold c. rewrite Hc.
      unfold sig_switch.
      change (is_basic_or_variant DBUS_STRUCT_END_CHAR) with false.
      change (DBUS_STRUCT_END_CHAR =? DBUS_TYPE_ARRAY) with false.
      change (DBUS_STRUCT_END_CHAR =? DBUS_STRUCT_BEGIN_CHAR) with false.
      rewrite Z.eqb_refl, H0. reflexivity.
  - intros Hlt Hc Hprev. subst whole.
    apply (sig_returns_at mem fuel type_str type_pos len n st); try assumption.
    + lia.
    + fold start. rewrite sig_body_result. cbv zeta. fold c. rewrite Hc.
      assert (Hl : last st = DBUS_STRUCT_BEGIN_CHAR).
      { rewrite Hlast. destruct (Z.to_nat n) eqn:En; [ lia | exact Hprev ]. }
      specialize (Hopen Hl).
      unfold sig_switch.
      change (is_basic_or_variant DBUS_STRUCT_END_CHAR) with false.
      change (DBUS_STRUCT_END_CHAR =? DBUS_TYPE_ARRAY) with false.
      change (DBUS_STRUCT_END_CHAR =? DBUS_STRUCT_BEGIN_CHAR) with false.
      rewrite Z.eqb_refl, Hl, Z.eqb_refl.
      destruct (Z.eqb_spec (struct_depth st) 0) as [ | _]; [ lia | ].
      reflexivity.
  - intros -> Had Hsd'. subst whole.
    rewrite sig_with_reason_unfold by assumption. fold start.
    rewrite result_bind, Hscan. unfold sig_finish.
    rewrite Had, (gtb_true _ _ Hsd'). reflexivity.
Qed.

(** C6, as the code has it: in [_dbus_validate_signature_with_reason],
    whenever the scan has come to byte [n] without returning,
    [struct_depth] is the number of structs still open; a struct-end code
    at byte [n] with no open struct returns
    [DBUS_INVALID_STRUCT_ENDED_BUT_NOT_STARTED]; a struct-end code right
    after a struct-begin code returns [DBUS_INVALID_STRUCT_HAS_NO_FIELDS];
    and a scan that ends with [array_depth] zero and a positive
    [struct_depth] returns [DBUS_INVALID_STRUCT_STARTED_BUT_NOT_ENDED]
    (the test of [array_depth] comes first). The signature ")" ends a
    struct that was not started, "()" has no fields and "(y" is not
    ended. *)
Theorem struct_end_and_open_struct_checks :
  (forall (mem : memory) (fuel : nat) (type_str : DBusString) (type_pos len : Z),
      0 <= type_pos -> 0 <= len -> type_pos < _DBUS_INT_MAX - len ->
      len <= DBUS_MAXIMUM_SIGNATURE_LENGTH -> (Z.to_nat len < fuel)%nat ->
      let start := string_data type_str + type_pos in
      let whole :=
        result (_dbus_validate_signature_with_reason mem fuel type_str type_pos len) in
      forall (n : Z) (st : sig_state),
        0 <= n <= len ->
        result (sig_loop mem fuel start (start + n) sig_init) = Val st ->
        let c := byte_val (mem (start + n)) in
        struct_depth st = struct_balance mem (Z.to_nat n) (start + n)
        /\ (n < len -> c = DBUS_STRUCT_END_CHAR -> struct_depth st = 0 ->
            whole = Ret DBUS_INVALID_STRUCT_ENDED_BUT_NOT_STARTED)
        /\ (0 < n < len -> c = DBUS_STRUCT_END_CHAR ->
            byte_val (mem (start + n - 1)) = DBUS_STRUCT_BEGIN_CHAR ->
            whole = Ret DBUS_INVALID_STRUCT_HAS_NO_FIELDS)
        /\ (n = len -> array_depth st = 0 -> 0 < struct_depth st ->
            whole = Ret DBUS_INVALID_STRUCT_STARTED_BUT_NOT_ENDED))
  /\ signature_verdict ")" = Ret DBUS_INVALID_STRUCT_ENDED_BUT_NOT_STARTED
  /\ signature_verdict "()" = Ret DBUS_INVALID_STRUCT_HAS_NO_FIELDS
  /\ signature_verdict "(y" = Ret DBUS_INVALID_STRUCT_STARTED_BUT_NOT_ENDED.
Proof.
  split; [ exact struct_depth_along_the_scan | ].
  repeat split; vm_compute; reflexivity.
Qed.

Lemma struct_end_and_open_struct_checks_witness :
  result (_dbus_validate_signature_with_reason
            (memory_of 1000 "()") 3 (string_at 1000 "()") 0 2)
  = Ret DBUS_INVALID_STRUCT_HAS_NO_FIELDS.
Proof.
  refine (proj1 (proj2 (proj2
    (proj1 struct_end_and_open_struct_checks
       (memory_of 1000 "()") 3%nat (string_at 1000 "()") 0 2 _ _ _ _ _
       1 (mkSig DBUS_STRUCT_BEGIN_CHAR 1 0) _ _))) _ _ _).
  - lia.
  - lia.
  - reflexivity.
  - vm_compute. discriminate.
  - cbn. lia.
  - lia.
  - reflexivity.
  - lia.
  - reflexivity.
  - reflexivity.
Defined.

(** C6 as stated fails on the signature "(a": the scan ends with a struct
    open, and the function returns
    [DBUS_INVALID_MISSING_ARRAY_ELEMENT_TYPE]. *)
Lemma open_struct_after_array_code_reports_array :
  let m := memory_of 1000 "(a" in
  result (sig_loop m 3 1000 1002 sig_init) = Val (mkSig DBUS_TYPE_ARRAY 1 1)
  /\ 0 < struct_depth (mkSig DBUS_TYPE_ARRAY 1 1)
  /\ result (_dbus_validate_signature_with_reason m 3 (string_at 1000 "(a") 0 2)
     = Ret DBUS_INVALID_MISSING_ARRAY_ELEMENT_TYPE
  /\ result (_dbus_validate_signature_with_reason m 3 (string_at 1000 "(a") 0 2)
     <> Ret DBUS_INVALID_STRUCT_STARTED_BUT_NOT_ENDED.
Proof.
  cbv zeta. split; [ reflexivity | ]. split; [ reflexivity | ].
  split; [ reflexivity | ]. vm_compute. discriminate.
Qed.

(** ** The validators of names *)

Lemma VALID_NAME_CHARACTER_spec (c : Z) :
  VALID_NAME_CHARACTER c = true <-> ascii_alnum_or_underscore c.
Proof.
  unfold VALID_NAME_CHARACTER, ascii_alnum_or_underscore.
  rewrite !orb_true_iff, !andb_true_iff, !Z.geb_le, !Z.leb_le, Z.eqb_eq.
  tauto.
Qed.

Section PathFacts.

Variable mem : memory.

Local Abbreviation byte_at a := (byte_val (mem a)).

Lemma path_loop_spec (fuel : nat) :
  forall (s end_ last_slash : Z),
    s <= end_ -> (Z.to_nat (end_ - s) < fuel)%nat ->
    last_slash_before mem last_slash s ->
    match result (path_loop mem fuel s end_ last_slash) with
    | Val last_slash' =>
        last_slash_before mem last_slash' end_
        /\ forall a, s <= a < end_ ->
             (byte_at a = chr "/" -> byte_at (a - 1) <> chr "/")
             /\ (byte_at a <> chr "/" -> VALID_NAME_CHARACTER (byte_at a) = true)
    | Ret r =>
        r = false
        /\ exists a, s <= a < end_
             /\ ((byte_at a = chr "/" /\ byte_at (a - 1) = chr "/")
                 \/ (byte_at a <> chr "/"
                     /\ VALID_NAME_CHARACTER (byte_at a) = false))
    | Abort | OutOfFuel => False
    end.
Proof.
  induction fuel as [ | fuel IH]; intros s end_ last_slash Hle Hfuel Hinv;
    [ lia | ].
  cbn [path_loop]. destruct (Z.eqb_spec s end_) as [-> | Hne]; cbn [negb].
  - cbn. split; [ exact Hinv | ]. intros a Ha. lia.
  - destruct Hinv as (Hlt & Hslash & Hnone).
    rewrite result_bind. cbn [result load fst].
    rewrite result_bind.
    destruct (Z.eqb_spec (byte_at s) (chr "/")) as [Hc | Hc].
    + destruct (Z.ltb_spec (s - last_slash) 2) as [Hnear | Hfar].
      * cbn. split; [ reflexivity | ].
        exists s. split; [ lia | ]. left. split; [ exact Hc | ].
        replace (s - 1) with last_slash by lia. exact Hslash.
      * cbn [result ret fst].
        specialize (IH (s + 1) end_ s).
        destruct (result (path_loop mem fuel (s + 1) end_ s))
          as [ls' | r | | ].
        -- destruct IH as [Hinv' Hall]; [ lia | lia | | ].
           { split; [ lia | ]. split; [ exact Hc | ]. intros a Ha. lia. }
           split; [ exact Hinv' | ].
           intros a Ha. destruct (Z.eq_dec a s) as [-> | Hne'].
           ++ split; [ | intros Hc'; contradiction ].
              intros _. apply Hnone. lia.
           ++ apply Hall. lia.
        -- destruct IH as [Hr (a & Ha & Hbad)]; [ lia | lia | | ].
           { split; [ lia | ]. split; [ exact Hc | ]. intros a Ha. lia. }
           split; [ exact Hr | ]. exists a. split; [ lia | exact Hbad ].
        -- apply IH; [ lia | lia | ].
           split; [ lia | ]. split; [ exact Hc | ]. intros a Ha. lia.
        -- apply IH; [ lia | lia | ].
           split; [ lia | ]. split; [ exact Hc | ]. intros a Ha. lia.
    + rewrite result_bind. cbn [result load fst].
      destruct (VALID_NAME_CHARACTER (byte_at s)) eqn:Hv; cbn [negb].
      * cbn [result ret fst].
        assert (Hinv' : last_slash_before mem last_slash (s + 1)).
        { split; [ lia | ]. split; [ exact Hslash | ].
          intros a Ha. destruct (Z.eq_dec a s) as [-> | Hne'];
            [ exact Hc | apply Hnone; lia ]. }
        specialize (IH (s + 1) end_ last_slash).
        destruct (result (path_loop mem fuel (s + 1) end_ last_slash))
          as [ls' | r | | ].
        -- destruct IH as [Hinv'' Hall]; [ lia | lia | exact Hinv' | ].
           split; [ exact Hinv'' | ].
           intros a Ha. destruct (Z.eq_dec a s) as [-> | Hne'].
           ++ split; [ intros Hc'; contradiction | intros _; exact Hv ].
           ++ apply Hall. lia.
        -- destruct IH as [Hr (a & Ha & Hbad)]; [ lia | lia | exact Hinv' | ].
           split; [ exact Hr | ]. exists a. split; [ lia | exact Hbad ].
        -- apply IH; [ lia | lia | exact Hinv' ].
        -- apply IH; [ lia | lia | exact Hinv' ].
      * cbn. split; [ reflexivity | ].
        exists s. split; [ lia | ]. right. split; [ exact Hc | exact Hv ].
Qed.

End PathFacts.

(** C7: under its assertions and with a budget of more than [len]
    iterations, [_dbus_validate_path] returns a boolean, and it returns
    [TRUE] exactly when the range lies in the string, is not empty,
    starts with a slash, has no two consecutive slashes, does not end
    with a slash unless it is exactly that slash, and has only ASCII
    letters, digits and underscores besides slashes. The path "/" is
    valid; "//" and "/a/" are not. *)
Theorem validate_path_characterisation :
  (forall (mem : memory) (fuel : nat) (str : DBusString) (start len : Z),
      0 <= start -> 0 <= len -> start <= string_len str ->
      (Z.to_nat len < fuel)%nat ->
      exists r : bool,
        result (_dbus_validate_path mem fuel str start len) = Ret r
        /\ (r = true <->
            len <= string_len str - start
            /\ valid_path_range mem (string_data str + start) len))
  /\ result (_dbus_validate_path (memory_of 1000 "/") 2 (string_at 1000 "/") 0 1)
     = Ret true
  /\ result (_dbus_validate_path (memory_of 1000 "//") 3 (string_at 1000 "//") 0 2)
     = Ret false
  /\ result (_dbus_validate_path (memory_of 1000 "/a/") 4 (string_at 1000 "/a/") 0 3)
     = Ret false.
Proof.
  split; [ | repeat split; reflexivity ].
  intros mem fuel str start len Hstart Hlen Hin Hfuel.
  unfold _dbus_validate_path, _dbus_string_get_length, _dbus_string_get_const_data.
  rewrite (geb_true start 0 Hstart), (geb_true len 0 Hlen),
    (proj2 (Z.leb_le _ _) Hin).
  cbn [dbus_assert]. rewrite !result_bind. cbn [result ret fst].
  set (s0 := string_data str + start).
  destruct (Z.gtb_spec len (string_len str - start)) as [Hout | Hfit].
  { exists false. split; [ reflexivity | ].
    split; [ discriminate | intros [H _]; lia ]. }
  destruct (Z.eqb_spec len 0) as [-> | Hne].
  { exists false. split; [ reflexivity | ].
    split; [ discriminate | intros [_ [H _]]; lia ]. }
  rewrite result_bind. cbn [result load fst].
  destruct (Z.eqb_spec (byte_val (mem s0)) (chr "/")) as [Hc | Hc]; cbn [negb].
  2:{ exists false. split; [ reflexivity | ].
      split; [ discriminate | intros [_ [_ [H _]]]; contradiction ]. }
  rewrite result_bind.
  pose proof (path_loop_spec mem fuel (s0 + 1) (s0 + len) s0) as Hloop.
  destruct (result (path_loop mem fuel (s0 + 1) (s0 + len) s0))
    as [ls | r | | ].
  - destruct Hloop as [(Hlt & Hls & Hnone) Hall]; [ lia | lia | | ].
    { split; [ lia | ]. split; [ exact Hc | ]. intros a Ha. lia. }
    destruct (Z.ltb_spec (s0 + len - ls) 2) as [Hnear | Hfar];
      [ destruct (Z.gtb_spec len 1) as [Hlong | Hone] | ]; cbn [andb].
    + exists false. split; [ reflexivity | ].
      split; [ discriminate | ].
      intros [_ (_ & _ & _ & Htrail & _)].
      replace (s0 + len - 1) with ls in Htrail by lia.
      specialize (Htrail Hls). lia.
    + exists true. split; [ reflexivity | ].
      split; [ intros _ | reflexivity ].
      split; [ lia | ]. unfold valid_path_range.
      assert (len = 1) as -> by lia.
      repeat split; try lia; try exact Hc.
      intros a Ha Hna. replace a with s0 in Hna by lia. contradiction.
    + exists true. split; [ reflexivity | ].
      split; [ intros _ | reflexivity ].
      split; [ lia | ]. unfold valid_path_range.
      split; [ lia | ]. split; [ exact Hc | ].
      split; [ | split ].
      * intros a Ha1 Ha2 [Hs1 Hs2].
        destruct (Hall (a + 1)) as [Hadj _]; [ lia | ].
        apply (Hadj Hs2). replace (a + 1 - 1) with a by lia. exact Hs1.
      * intros Htrail. exfalso. apply (Hnone (s0 + len - 1)); [ lia | exact Htrail ].
      * intros a Ha Hna. apply VALID_NAME_CHARACTER_spec.
        destruct (Z.eq_dec a s0) as [-> | Hne']; [ contradiction | ].
        apply (Hall a); [ lia | exact Hna ].
  - destruct Hloop as [-> (a & Ha & Hbad)]; [ lia | lia | | ].
    { split; [ lia | ]. split; [ exact Hc | ]. intros a Ha. lia. }
    exists false. split; [ reflexivity | ].
    split; [ discriminate | ].
    intros [_ (_ & _ & Hadj & _ & Hvalid)]. exfalso.
    destruct Hbad as [[Hs1 Hs2] | [Hna Hv]].
    + apply (Hadj (a - 1)); [ lia | lia | ].
      replace (a - 1 + 1) with a by lia. split; assumption.
    + specialize (Hvalid a). apply VALID_NAME_CHARACTER_spec in Hvalid;
        [ congruence | lia | exact Hna ].
  - exfalso. apply Hloop; [ lia | lia | ].
    split; [ lia | ]. split; [ exact Hc | ]. intros a Ha. lia.
  - exfalso. apply Hloop; [ lia | lia | ].
    split; [ lia | ]. split; [ exact Hc | ]. intros a Ha. lia.
Qed.

Lemma validate_path_characterisation_witness :
  exists r : bool,
    result (_dbus_validate_path (memory_of 1000 "/a/bc") 6
              (string_at 1000 "/a/bc") 0 5) = Ret r
    /\ (r = true <->
        5 <= 5 - 0 /\ valid_path_range (memory_of 1000 "/a/bc") (1000 + 0) 5).
Proof.
  apply (proj1 validate_path_characterisation
           (memory_of 1000 "/a/bc") 6%nat (string_at 1000 "/a/bc") 0 5).
  - lia.
  - lia.
  - cbn. lia.
  - cbn. lia.
Defined.

(** C10: under their assertions, [_dbus_validate_path],
    [_dbus_validate_interface] and [_dbus_validate_member] return [FALSE]
    and read no byte when [len] is 0 or the range extends past the end
    of the string. *)
Theorem name_validators_reject_without_reading :
  forall (mem : memory) (fuel : nat) (str : DBusString) (start len : Z),
    0 <= start -> 0 <= len -> start <= string_len str ->
    len = 0 \/ len > string_len str - start ->
    _dbus_validate_path mem fuel str start len = (Ret false, [])
    /\ _dbus_validate_interface mem fuel str start len = (Ret false, [])
    /\ _dbus_validate_member mem fuel str start len = (Ret false, []).
Proof.
  intros mem fuel str start len Hstart Hlen Hin Hcase.
  unfold _dbus_validate_path, _dbus_validate_interface, _dbus_validate_member,
    _dbus_string_get_length.
  rewrite (geb_true start 0 Hstart), (geb_true len 0 Hlen),
    (proj2 (Z.leb_le _ _) Hin).
  cbn [dbus_assert].
  destruct (Z.gtb_spec len (string_len str - start)) as [Hout | Hfit].
  - repeat split; reflexivity.
  - assert (len = 0) as -> by lia.
    change (0 >? DBUS_MAXIMUM_NAME_LENGTH) with false.
    repeat split; reflexivity.
Qed.

Lemma name_validators_reject_without_reading_witness :
  _dbus_validate_path (memory_of 1000 "/ab") 9 (string_at 1000 "/ab") 1 5
  = (Ret false, [])
  /\ _dbus_validate_interface (memory_of 1000 "/ab") 9 (string_at 1000 "/ab") 1 5
     = (Ret false, [])
  /\ _dbus_validate_member (memory_of 1000 "/ab") 9 (string_at 1000 "/ab") 1 5
     = (Ret false, []).
Proof.
  apply (name_validators_reject_without_reading
           (memory_of 1000 "/ab") 9%nat (string_at 1000 "/ab") 1 5).
  - lia.
  - lia.
  - cbn. lia.
  - right. cbn. lia.
Defined.

Section UniqueNameFacts.

Variable mem : memory.

Local Abbreviation byte_at a := (byte_val (mem a)).

Lemma unique_name_loop_spec (fuel : nat) :
  forall (s end_ : Z),
    s <= end_ -> (Z.to_nat (end_ - s) < fuel)%nat ->
    match result (unique_name_loop mem fuel s end_) with
    | Val _ => forall a, s <= a < end_ -> unique_name_byte_ok mem end_ a
    | Ret r => r = false /\ exists a, s <= a < end_ /\ ~ unique_name_byte_ok mem end_ a
    | Abort | OutOfFuel => False
    end.
Proof.
  induction fuel as [ | fuel IH]; intros s end_ Hle Hfuel; [ lia | ].
  cbn [unique_name_loop]. destruct (Z.eqb_spec s end_) as [-> | Hne]; cbn [negb].
  - cbn. intros a Ha. lia.
  - rewrite result_bind. cbn [result load fst].
    destruct (Z.eqb_spec (byte_at s) (chr ".")) as [Hc | Hc].
    + assert (Hdot : VALID_NAME_CHARACTER (byte_at s) = false)
        by (rewrite Hc; reflexivity).
      destruct (Z.eqb_spec (s + 1) end_) as [Hlast | Hmore].
      * cbn. split; [ reflexivity | ]. exists s. split; [ lia | ].
        intros [Hv | (_ & Hlt & _)]; [ congruence | lia ].
      * rewrite result_bind. cbn [result load fst].
        destruct (VALID_NAME_CHARACTER (byte_at (s + 1))) eqn:Hv; cbn [negb].
        -- specialize (IH (s + 1 + 1) end_).
           destruct (result (unique_name_loop mem fuel (s + 1 + 1) end_))
             as [u | r | | ].
           ++ intros a Ha.
              destruct (Z.eq_dec a s) as [-> | Hne1];
                [ right; repeat split; [ exact Hc | lia | exact Hv ] | ].
              destruct (Z.eq_dec a (s + 1)) as [-> | Hne2];
                [ left; exact Hv | ].
              apply IH; lia.
           ++ destruct IH as [Hr (a & Ha & Hbad)]; [ lia | lia | ].
              split; [ exact Hr | ]. exists a. split; [ lia | exact Hbad ].
           ++ apply IH; lia.
           ++ apply IH; lia.
        -- cbn. split; [ reflexivity | ]. exists s. split; [ lia | ].
           intros [Hv' | (_ & _ & Hv')]; congruence.
    + rewrite result_bind. cbn [result load fst].
      destruct (VALID_NAME_CHARACTER (byte_at s)) eqn:Hv; cbn [negb].
      * specialize (IH (s + 1) end_).
        destruct (result (unique_name_loop mem fuel (s + 1) end_))
          as [u | r | | ].
        -- intros a Ha.
           destruct (Z.eq_dec a s) as [-> | Hne1]; [ left; exact Hv | ].
           apply IH; lia.
        -- destruct IH as [Hr (a & Ha & Hbad)]; [ lia | lia | ].
           split; [ exact Hr | ]. exists a. split; [ lia | exact Hbad ].
        -- apply IH; lia.
        -- apply IH; lia.
      * cbn. split; [ reflexivity | ]. exists s. split; [ lia | ].
        intros [Hv' | (Hc' & _)]; congruence.
Qed.

Lemma validate_interface_never_falls_through (fuel : nat) (str : DBusString)
    (start len : Z) (r : bool) :
  result (_dbus_validate_interface mem fuel str start len) <> Val r.
Proof.
  unfold _dbus_validate_interface.
  repeat (rewrite result_bind;
          match goal with
          | |- context [result (dbus_assert ?b)] => destruct b; cbn [dbus_assert result fst ret abort]
          end; [ | discriminate ]).
  repeat (case_if; [ discriminate | ]).
  rewrite result_bind. cbn [result load fst].
  case_if; [ discriminate | ].
  rewrite result_bind. cbn [result load fst].
  case_if; [ discriminate | ].
  rewrite result_bind.
  destruct (result (interface_loop mem fuel _ _ None)) as [[ld | ] | v | | ];
    discriminate.
Qed.

End UniqueNameFacts.

Lemma relaxed_segments_iff (mem : memory) (s0 len : Z) :
  relaxed_segments mem s0 len <->
  (forall a, s0 + 1 <= a < s0 + len -> unique_name_byte_ok mem (s0 + len) a).
Proof.
  unfold relaxed_segments, unique_name_byte_ok.
  split; intros H a Ha; specialize (H a Ha);
    rewrite <- !VALID_NAME_CHARACTER_spec in *; exact H.
Qed.

(** C2 as stated fails on the one-byte bus name ":": the function returns
    [TRUE], since after the colon there is no byte to reject. *)
Lemma bus_name_of_a_lone_colon_is_accepted :
  result (_dbus_validate_bus_name (memory_of 1000 ":") 2 (string_at 1000 ":") 0 1)
  = Ret true
  /\ result (_dbus_validate_bus_name (memory_of 1000 ":") 2 (string_at 1000 ":") 0 1)
     <> Ret false.
Proof. split; [ reflexivity | discriminate ]. Qed.

(** C2, as the code has it: [_dbus_validate_bus_name] returns [TRUE] for
    the bus name ":1.5" and also for the one-byte bus name ":". When the
    first byte is a colon, the name is valid exactly when the range lies
    in the string, is within the maximum name length and its remainder
    follows the relaxed rule: each byte is alphanumeric or an underscore
    (a digit may start a segment), or a dot followed by such a byte.
    Otherwise the function returns what [_dbus_validate_interface]
    returns on the whole range. *)
Theorem bus_name_dispatch_and_relaxed_rule :
  (forall (mem : memory) (fuel : nat) (str : DBusString) (start len : Z),
      0 <= start -> 0 < len -> start <= string_len str ->
      (Z.to_nat len < fuel)%nat ->
      let s0 := string_data str + start in
      (byte_val (mem s0) = chr ":" ->
       exists r : bool,
         result (_dbus_validate_bus_name mem fuel str start len) = Ret r
         /\ (r = true <->
             len <= string_len str - start
             /\ len <= DBUS_MAXIMUM_NAME_LENGTH
             /\ relaxed_segments mem s0 len))
      /\ (byte_val (mem s0) <> chr ":" ->
          forall r : bool,
            result (_dbus_validate_bus_name mem fuel str start len) = Ret r
            <-> result (_dbus_validate_interface mem fuel str start len) = Ret r))
  /\ result (_dbus_validate_bus_name
               (memory_of 1000 ":1.5") 5 (string_at 1000 ":1.5") 0 4) = Ret true
  /\ result (_dbus_validate_bus_name
               (memory_of 1000 ":") 2 (string_at 1000 ":") 0 1) = Ret true.
Proof.
  split; [ | split; reflexivity ].
  intros mem fuel str start len Hstart Hlen Hin Hfuel s0.
  unfold _dbus_validate_bus_name, _dbus_string_get_byte.
  destruct (Z.eqb_spec len 0) as [ | _]; [ lia | ].
  rewrite result_bind. cbn [result load fst]. fold s0.
  split.
  - intros Hc. rewrite Hc, Z.eqb_refl.
    rewrite result_bind, result_call.
    unfold _dbus_validate_unique_name, _dbus_string_get_length,
      _dbus_string_get_const_data.
    rewrite (geb_true start 0 Hstart), (geb_true len 0 (Z.lt_le_incl _ _ Hlen)),
      (proj2 (Z.leb_le _ _) Hin).
    cbn [dbus_assert]. rewrite !result_bind. cbn [result ret fst].
    destruct (Z.gtb_spec len (string_len str - start)) as [Hout | Hfit].
    { exists false. split; [ reflexivity | ].
      split; [ discriminate | intros [H _]; lia ]. }
    destruct (Z.gtb_spec len DBUS_MAXIMUM_NAME_LENGTH) as [Hlong | Hshort].
    { exists false. split; [ reflexivity | ].
      split; [ discriminate | intros [_ [H _]]; lia ]. }
    rewrite (gtb_true len 0 Hlen). cbn [dbus_assert].
    rewrite !result_bind. cbn [result ret load fst]. fold s0.
    rewrite Hc, Z.eqb_refl. cbn [dbus_assert].
    rewrite !result_bind. cbn [result ret fst].
    pose proof (unique_name_loop_spec mem fuel (s0 + 1) (s0 + len)) as Hloop.
    destruct (result (unique_name_loop mem fuel (s0 + 1) (s0 + len)))
      as [u | r | | ].
    + exists true. split; [ reflexivity | ].
      split; [ intros _ | reflexivity ].
      split; [ lia | ]. split; [ lia | ].
      apply relaxed_segments_iff. apply Hloop; lia.
    + destruct Hloop as [-> (a & Ha & Hbad)]; [ lia | lia | ].
      exists false. split; [ reflexivity | ].
      split; [ discriminate | ].
      intros (_ & _ & Hrel). exfalso. apply Hbad.
      apply (proj1 (relaxed_segments_iff mem s0 len) Hrel). lia.
    + exfalso. apply Hloop; lia.
    + exfalso. apply Hloop; lia.
  - intros Hc r. apply Z.eqb_neq in Hc. rewrite Hc.
    rewrite result_bind, result_call.
    pose proof (validate_interface_never_falls_through mem fuel str start len)
      as Hnever.
    destruct (result (_dbus_validate_interface mem fuel str start len))
      as [r' | r' | | ].
    + exfalso. apply (Hnever r'). reflexivity.
    + cbn. split; intros H; injection H as <-; reflexivity.
    + split; discriminate.
    + split; discriminate.
Qed.

Lemma bus_name_dispatch_and_relaxed_rule_witness :
  exists r : bool,
    result (_dbus_validate_bus_name
              (memory_of 1000 ":1.5") 5 (string_at 1000 ":1.5") 0 4) = Ret r
    /\ (r = true <->
        4 <= 4 - 0 /\ 4 <= DBUS_MAXIMUM_NAME_LENGTH
        /\ relaxed_segments (memory_of 1000 ":1.5") (1000 + 0) 4).
Proof.
  apply (proj1 (proj1 bus_name_dispatch_and_relaxed_rule
                  (memory_of 1000 ":1.5") 5%nat (string_at 1000 ":1.5") 0 4
                  ltac:(lia) ltac:(lia) ltac:(cbn; lia) ltac:(cbn; lia))).
  reflexivity.
Defined.

(** ** The body validator *)

Section BodyFacts.

Variable mem : memory.
Variable utf8 : memory -> DBusString -> Z -> Z -> bool.

Lemma result_helper_call {R} (reader : DBusTypeReader) (p : Z)
    (m : M DBusValidity (DBusTypeReader * Z)) :
  result (@helper_call R reader p m) =
  match result m with
  | Val (reader', p') => Val (DBUS_VALID, reader', p')
  | Ret v => Val (v, reader, p)
  | Abort => Abort
  | OutOfFuel => OutOfFuel
  end.
Proof. destruct m as [[[reader' p'] | v | | ] d]; reflexivity. Qed.

(** The padding loop accepts exactly the runs of nul bytes: it either comes
    to [a] over bytes that are all nul, or returns
    [DBUS_INVALID_ALIGNMENT_PADDING_NOT_NUL] at a byte that is not. *)
Lemma check_padding_spec (fuel : nat) :
  forall (p a : Z),
    p <= a -> (Z.to_nat (a - p) < fuel)%nat ->
    (result (check_padding mem fuel p a) = Val a
     /\ forall q, p <= q < a -> byte_val (mem q) = 0)
    \/ (result (check_padding mem fuel p a)
        = Ret DBUS_INVALID_ALIGNMENT_PADDING_NOT_NUL
        /\ exists q, p <= q < a /\ byte_val (mem q) <> 0).
Proof.
  induction fuel as [ | fuel IH]; intros p a Hle Hfuel; [ lia | ].
  cbn [check_padding]. destruct (Z.eqb_spec p a) as [-> | Hne]; cbn [negb].
  - left. split; [ reflexivity | ]. intros q Hq. lia.
  - rewrite result_bind. cbn [result load fst].
    destruct (Z.eqb_spec (byte_val (mem p)) 0) as [Hz | Hnz]; cbn [negb].
    + destruct (IH (p + 1) a) as [[Hres Hall] | [Hres (q & Hq & Hbad)]];
        [ lia | lia | | ].
      * left. split; [ exact Hres | ].
        intros q Hq. destruct (Z.eq_dec q p) as [-> | Hqp];
          [ exact Hz | apply Hall; lia ].
      * right. split; [ exact Hres | ]. exists q. split; [ lia | exact Hbad ].
    + right. split; [ reflexivity | ]. exists p. split; [ lia | exact Hnz ].
Qed.

(** The helper never hands back a cursor beyond [end]: after every value
    it compares [p] with [end]. *)
Lemma helper_valid_within (fuel : nat) :
  forall (reader reader' : DBusTypeReader) (byte_order : Z) (walk : bool)
         (p end_ p' : Z),
    p <= end_ ->
    result (validate_body_helper mem utf8 fuel reader byte_order walk p end_)
    = Val (reader', p') ->
    p' <= end_.
Proof.
  induction fuel as [ | fuel IH];
    intros reader reader' byte_order walk p end_ p' Hle Hres;
    [ discriminate Hres | ].
  cbn [validate_body_helper] in Hres.
  destruct (negb (_dbus_type_reader_get_current_type mem reader
                  =? DBUS_TYPE_INVALID)).
  2:{ injection Hres as _ <-. exact Hle. }
  destruct (p =? end_); [ discriminate Hres | ].
  rewrite result_bind in Hres.
  match type of Hres with
  | context [result (body_value ?a ?b ?c ?d ?e ?f ?g ?h ?i)] =>
      destruct (result (body_value a b c d e f g h i)) as [p1 | v | | ];
        try discriminate Hres
  end.
  destruct (Z.gtb_spec p1 end_) as [ | Hp1]; [ discriminate Hres | ].
  destruct walk.
  - rewrite result_bind in Hres.
    destruct (result (_dbus_type_reader_next mem reader))
      as [[reader1 more] | v | | ]; try discriminate Hres.
    apply (IH reader1 reader' byte_order true p1 end_ p' Hp1 Hres).
  - injection Hres as _ <-. exact Hp1.
Qed.

End BodyFacts.

(** C4: under the assertions of [_dbus_validate_body_with_reason], for
    every body that the helper validates, ending at [p']: when
    [bytes_remaining] is not [NULL] the function stores the number
    [end - p'] of trailing bytes there and returns [DBUS_VALID]; when it is
    [NULL] and bytes remain ([p' < end]) the function returns
    [DBUS_INVALID_TOO_MUCH_DATA], and when none remains it returns
    [DBUS_VALID]. The helper never ends beyond [end], so these are all the
    cases. *)
Theorem trailing_bytes_reported_or_rejected :
  forall (mem : memory) (utf8 : memory -> DBusString -> Z -> Z -> bool)
         (fuel : nat) (expected_signature : DBusString)
         (expected_signature_start byte_order : Z)
         (value_str : DBusString) (value_pos len : Z)
         (reader' : DBusTypeReader) (p' : Z),
    0 <= len -> 0 <= value_pos -> value_pos <= string_len value_str - len ->
    let p := string_data value_str + value_pos in
    let end_ := p + len in
    let run bytes_remaining :=
      result (_dbus_validate_body_with_reason mem utf8 fuel expected_signature
                expected_signature_start byte_order bytes_remaining
                value_str value_pos len) in
    result (validate_body_helper mem utf8 fuel
              (_dbus_type_reader_init_types_only expected_signature
                 expected_signature_start)
              byte_order true p end_) = Val (reader', p') ->
    (forall old : Z, run (Some old) = Ret (DBUS_VALID, Some (end_ - p')))
    /\ (p' < end_ -> run None = Ret (DBUS_INVALID_TOO_MUCH_DATA, None))
    /\ (p' = end_ -> run None = Ret (DBUS_VALID, None))
    /\ 0 <= end_ - p'.
Proof.
  intros mem utf8 fuel expected_signature expected_signature_start byte_order
    value_str value_pos len reader' p' Hlen Hpos Hin p end_ run Hhelper.
  assert (Hle : p' <= end_).
  { eapply (helper_valid_within mem utf8 fuel);
      [ | exact Hhelper ]. unfold end_. lia. }
  assert (Hrun : forall bytes_remaining,
    run bytes_remaining =
    match bytes_remaining with
    | Some _ => Ret (DBUS_VALID, Some (end_ - p'))
    | None => if p' <? end_ then Ret (DBUS_INVALID_TOO_MUCH_DATA, None)
              else if p' =? end_ then Ret (DBUS_VALID, None) else Abort
    end).
  { intros bytes_remaining. unfold run, _dbus_validate_body_with_reason,
      _dbus_string_get_length, _dbus_string_get_const_data_len.
    rewrite (geb_true len 0 Hlen), (geb_true value_pos 0 Hpos),
      (proj2 (Z.leb_le _ _) Hin).
    cbn [dbus_assert]. rewrite !result_bind. cbn [result ret fst].
    rewrite result_helper_call. fold p. fold end_. rewrite Hhelper.
    cbn [is_valid negb]. destruct bytes_remaining as [old | ]; [ reflexivity | ].
    destruct (p' <? end_); [ reflexivity | ].
    rewrite result_bind. destruct (p' =? end_); reflexivity. }
  repeat split.
  - intros old. apply Hrun.
  - intros Hlt. rewrite Hrun. rewrite (proj2 (Z.ltb_lt _ _) Hlt). reflexivity.
  - intros Heq. rewrite Hrun, Heq, Z.ltb_irrefl, Z.eqb_refl. reflexivity.
  - lia.
Qed.

Lemma trailing_bytes_reported_or_rejected_witness :
  let run bytes_remaining :=
    result (_dbus_validate_body_with_reason
              (message_memory "y" [x08; x00]) any_utf8 3
              (string_at 1000 "y") 0 DBUS_LITTLE_ENDIAN bytes_remaining
              (mkString 2000 2) 0 2) in
  (forall old : Z, run (Some old) = Ret (DBUS_VALID, Some (2000 + 0 + 2 - 2001)))
  /\ (2001 < 2000 + 0 + 2 -> run None = Ret (DBUS_INVALID_TOO_MUCH_DATA, None))
  /\ (2001 = 2000 + 0 + 2 -> run None = Ret (DBUS_VALID, None))
  /\ 0 <= 2000 + 0 + 2 - 2001.
Proof.
  apply (trailing_bytes_reported_or_rejected
           (message_memory "y" [x08; x00]) any_utf8 3%nat
           (string_at 1000 "y") 0 DBUS_LITTLE_ENDIAN (mkString 2000 2) 0 2
           (mkReader body_types_only_reader_class (string_at 1000 "y") 1 false)
           2001).
  - lia.
  - lia.
  - cbn. lia.
  - vm_compute. reflexivity.
Defined.

(** C9: whenever [_dbus_validate_body_with_reason] is given a location for
    [bytes_remaining] and returns a code other than [DBUS_VALID], the
    content of the location is what it was before the call. *)
Theorem bytes_remaining_untouched_on_failure :
  forall (mem : memory) (utf8 : memory -> DBusString -> Z -> Z -> bool)
         (fuel : nat) (expected_signature : DBusString)
         (expected_signature_start byte_order : Z) (old : Z)
         (value_str : DBusString) (value_pos len : Z)
         (validity : DBusValidity) (content : option Z),
    result (_dbus_validate_body_with_reason mem utf8 fuel expected_signature
              expected_signature_start byte_order (Some old)
              value_str value_pos len) = Ret (validity, content) ->
    validity <> DBUS_VALID ->
    content = Some old.
Proof.
  intros mem utf8 fuel expected_signature expected_signature_start byte_order
    old value_str value_pos len validity content Hres Hinvalid.
  unfold _dbus_validate_body_with_reason in Hres.
  destruct (len >=? 0); [ | discriminate Hres ].
  destruct (value_pos >=? 0); [ | discriminate Hres ].
  destruct (value_pos <=? _dbus_string_get_length value_str - len);
    [ | discriminate Hres ].
  cbn [dbus_assert] in Hres. rewrite !result_bind in Hres.
  cbn [result ret fst] in Hres. rewrite result_helper_call in Hres.
  match type of Hres with
  | context [result (validate_body_helper ?a ?b ?c ?d ?e ?f ?g ?h)] =>
      destruct (result (validate_body_helper a b c d e f g h))
        as [[reader' p'] | v | | ]; try discriminate Hres
  end.
  - cbn in Hres. injection Hres as <- _. contradiction.
  - destruct (is_valid v) eqn:Hv; cbn [negb] in Hres.
    + injection Hres as <- _. contradiction.
    + injection Hres as _ <-. reflexivity.
Qed.

Lemma bytes_remaining_untouched_on_failure_witness :
  result (_dbus_validate_body_with_reason
            (message_memory "b" [x02; x00; x00; x00]) any_utf8 3
            (string_at 1000 "b") 0 DBUS_LITTLE_ENDIAN (Some 55)
            (mkString 2000 4) 0 4)
  = Ret (DBUS_INVALID_BOOLEAN_NOT_ZERO_OR_ONE, Some 55)
  /\ Some 55 = Some 55.
Proof.
  split; [ reflexivity | ].
  apply (bytes_remaining_untouched_on_failure
           (message_memory "b" [x02; x00; x00; x00]) any_utf8 3%nat
           (string_at 1000 "b") 0 DBUS_LITTLE_ENDIAN 55
           (mkString 2000 4) 0 4 DBUS_INVALID_BOOLEAN_NOT_ZERO_OR_ONE (Some 55)).
  - reflexivity.
  - discriminate.
Defined.

(** C1, on the code: the body of the boolean is read without a test that
    its four bytes lie before [end]. With the signature "b" and a body of
    the single byte at address 2000 ([end] is 2001) inside a value string
    of four bytes, the helper has tested only that [p] is before [end];
    it then reads the four bytes 2000 to 2003, three of them outside the
    body, and its verdict depends on them: not-enough-data when they are
    zero, boolean-not-zero-or-one when they are not. An int32 on the same
    body is not read; [p] moves to 2004, past [end], and the test after
    the switch returns not-enough-data. *)
Theorem boolean_word_is_read_past_end :
  forall utf8 : memory -> DBusString -> Z -> Z -> bool,
    let run sig value :=
      _dbus_validate_body_with_reason (message_memory sig value) utf8 3
        (string_at 1000 sig) 0 DBUS_LITTLE_ENDIAN None (mkString 2000 4) 0 1 in
    reads (run "b"%string [x00; x00; x00; x00]) = [2000; 2001; 2002; 2003]
    /\ ~ reads_within 2000 (2000 + 1) (run "b"%string [x00; x00; x00; x00])
    /\ result (run "b"%string [x00; x00; x00; x00])
       = Ret (DBUS_INVALID_NOT_ENOUGH_DATA, None)
    /\ result (run "b"%string [x00; x01; x00; x00])
       = Ret (DBUS_INVALID_BOOLEAN_NOT_ZERO_OR_ONE, None)
    /\ body_fixed (message_memory "i" [x00; x00; x00; x00]) 3
         DBUS_TYPE_INT32 DBUS_LITTLE_ENDIAN 2000 2001 = (Val 2004, [])
    /\ run "i"%string [x00; x00; x00; x00]
       = (Ret (DBUS_INVALID_NOT_ENOUGH_DATA, None), []).
Proof.
  intros utf8. cbv zeta.
  split; [ reflexivity | ].
  split.
  { intros H. unfold reads_within in H.
    change (reads _) with [2000; 2001; 2002; 2003] in H.
    inversion H as [ | a l Ha Hl]; subst.
    inversion Hl as [ | a' l' Ha' Hl']; subst. lia. }
  repeat split; reflexivity.
Qed.

(** C3, on the code: the bytes skipped when [p] is aligned to the element
    type of an array, after the length, are not examined. With the
    signature "ax" and the body of an empty array whose four padding
    bytes 2004 to 2007 are 01, the function returns [DBUS_VALID] and has
    read only the length. The other alignments are checked: non-zero
    padding before an int64 (signature "yx"), before the length of a
    string ("ys"), before the value of a variant ("v") and before a
    struct ("y(y)") fails with [DBUS_INVALID_ALIGNMENT_PADDING_NOT_NUL]. *)
Theorem array_element_padding_is_not_checked :
  forall utf8 : memory -> DBusString -> Z -> Z -> bool,
    let run sig value :=
      _dbus_validate_body_with_reason (message_memory sig value) utf8 16
        (string_at 1000 sig) 0 DBUS_LITTLE_ENDIAN None
        (mkString 2000 (Z.of_nat (List.length value))) 0
        (Z.of_nat (List.length value)) in
    let padded_array := [x00; x00; x00; x00; x01; x01; x01; x01] in
    run "ax"%string padded_array
    = (Ret (DBUS_VALID, None), [2000; 2001; 2002; 2003])
    /\ _DBUS_ALIGN_ADDRESS (2000 + 4) 8 = 2008
    /\ Forall (fun a => byte_val (message_memory "ax" padded_array a) <> 0)
         [2004; 2005; 2006; 2007]
    /\ result (run "yx"%string
                 [x07; x00; x00; x00; x01; x01; x01; x01;
                  x00; x00; x00; x00; x00; x00; x00; x00])
       = Ret (DBUS_INVALID_ALIGNMENT_PADDING_NOT_NUL, None)
    /\ result (run "ys"%string
                 [x07; x01; x01; x01; x00; x00; x00; x00; x00])
       = Ret (DBUS_INVALID_ALIGNMENT_PADDING_NOT_NUL, None)
    /\ result (run "v"%string
                 [x01; x78; x00; x01; x01; x01; x01; x01;
                  x00; x00; x00; x00; x00; x00; x00; x00])
       = Ret (DBUS_INVALID_ALIGNMENT_PADDING_NOT_NUL, None)
    /\ result (run "y(y)"%string
                 [x07; x00; x00; x00; x01; x01; x01; x01; x09])
       = Ret (DBUS_INVALID_ALIGNMENT_PADDING_NOT_NUL, None).
Proof.
  intros utf8. cbv zeta.
  split; [ reflexivity | ].
  split; [ reflexivity | ].
  split; [ repeat constructor; discriminate | ].
  repeat split; reflexivity.
Qed.

(** * Further properties of the code *)

(** ** Where a computation reads *)

Lemma rw_nil {R A} (lo hi : Z) (m : M R A) : reads m = [] -> reads_within lo hi m.
Proof. unfold reads_within. intros ->. constructor. Qed.

Lemma rw_bind {R A B} (lo hi : Z) (m : M R A) (k : A -> M R B) :
  reads_within lo hi m ->
  (forall a, result m = Val a -> reads_within lo hi (k a)) ->
  reads_within lo hi (bind m k).
Proof.
  unfold reads_within. intros Hm Hk. rewrite reads_bind.
  destruct (result m) as [a | r | | ] eqn:Hres; try exact Hm.
  apply Forall_app. split; [ exact Hm | apply Hk; reflexivity ].
Qed.

Lemma rw_load {R} (mem : memory) (lo hi p : Z) :
  lo <= p < hi -> reads_within lo hi (@load mem R p).
Proof. intros H. unfold reads_within. cbn. constructor; [ exact H | constructor ]. Qed.

Lemma rw_assert {R} (lo hi : Z) (b : bool) : reads_within lo hi (@dbus_assert R b).
Proof. destruct b; constructor. Qed.

Lemma rw_call {R R'} (lo hi : Z) (m : M R R) :
  reads_within lo hi m -> reads_within lo hi (@call R R' m).
Proof. unfold reads_within. rewrite reads_call. exact (fun H => H). Qed.

Lemma result_load {R} (mem : memory) (p : Z) :
  result (@load mem R p) = Val (byte_val (mem p)).
Proof. reflexivity. Qed.

Lemma result_assert {R} (b : bool) (u : unit) :
  result (@dbus_assert R b) = Val u -> b = true.
Proof. destruct b; [ reflexivity | discriminate ]. Qed.

Lemma byte_val_nonneg (b : byte) : 0 <= byte_val b.
Proof. unfold byte_val. lia. Qed.

Lemma byte_val_bound (b : byte) : byte_val b < 256.
Proof. destruct b; reflexivity. Qed.

(** ** Interface, error and member names *)

Lemma VALID_INITIAL_NAME_CHARACTER_spec (c : Z) :
  VALID_INITIAL_NAME_CHARACTER c = true <-> ascii_letter_or_underscore c.
Proof.
  unfold VALID_INITIAL_NAME_CHARACTER, ascii_letter_or_underscore.
  rewrite !orb_true_iff, !andb_true_iff, !Z.geb_le, !Z.leb_le, Z.eqb_eq.
  tauto.
Qed.

Lemma initial_is_name_character (c : Z) :
  VALID_INITIAL_NAME_CHARACTER c = true -> VALID_NAME_CHARACTER c = true.
Proof.
  rewrite VALID_INITIAL_NAME_CHARACTER_spec, VALID_NAME_CHARACTER_spec.
  unfold ascii_letter_or_underscore, ascii_alnum_or_underscore. tauto.
Qed.

Lemma dot_is_no_name_character (c : Z) :
  c = chr "." -> VALID_NAME_CHARACTER c = false.
Proof. intros ->. reflexivity. Qed.

Section InterfaceFacts.

Variable mem : memory.

Local Abbreviation byte_at a := (byte_val (mem a)).

Lemma interface_loop_spec (fuel : nat) :
  forall (s end_ : Z) (last_dot : option Z),
    s <= end_ -> (Z.to_nat (end_ - s) < fuel)%nat ->
    match result (interface_loop mem fuel s end_ last_dot) with
    | Val last_dot' =>
        (forall a, s <= a < end_ -> interface_byte_ok mem end_ a)
        /\ (last_dot' <> None <->
            last_dot <> None \/ exists a, s <= a < end_ /\ byte_at a = chr ".")
    | Ret r =>
        r = false /\ exists a, s <= a < end_ /\ ~ interface_byte_ok mem end_ a
    | Abort | OutOfFuel => False
    end.
Proof.
  induction fuel as [ | fuel IH]; intros s end_ last_dot Hle Hfuel; [ lia | ].
  cbn [interface_loop]. destruct (Z.eqb_spec s end_) as [-> | Hne]; cbn [negb].
  - cbn. split; [ intros a Ha; lia | ].
    split; [ intros H; left; exact H | ].
    intros [H | (a & Ha & _)]; [ exact H | lia ].
  - rewrite result_bind. cbn [result load fst].
    destruct (Z.eqb_spec (byte_at s) (chr ".")) as [Hc | Hc].
    + pose proof (dot_is_no_name_character _ Hc) as Hdot.
      destruct (Z.eqb_spec (s + 1) end_) as [Hlast | Hmore].
      * cbn. split; [ reflexivity | ]. exists s. split; [ lia | ].
        intros [Hv | (_ & Hlt & _)]; [ congruence | lia ].
      * rewrite result_bind. cbn [result load fst].
        destruct (VALID_INITIAL_NAME_CHARACTER (byte_at (s + 1))) eqn:Hv;
          cbn [negb].
        -- specialize (IH (s + 1 + 1) end_ (Some s)).
           destruct (result (interface_loop mem fuel (s + 1 + 1) end_ (Some s)))
             as [ld | r | | ].
           ++ destruct IH as [Hall Hld]; [ lia | lia | ].
              split.
              ** intros a Ha.
                 destruct (Z.eq_dec a s) as [-> | Hne1];
                   [ right; repeat split; [ exact Hc | lia | exact Hv ] | ].
                 destruct (Z.eq_dec a (s + 1)) as [-> | Hne2];
                   [ left; apply initial_is_name_character; exact Hv | ].
                 apply Hall; lia.
              ** split; [ intros _; right; exists s; split; [ lia | exact Hc ] | ].
                 intros _. apply Hld. left. discriminate.
           ++ destruct IH as [Hr (a & Ha & Hbad)]; [ lia | lia | ].
              split; [ exact Hr | ]. exists a. split; [ lia | exact Hbad ].
           ++ apply IH; lia.
           ++ apply IH; lia.
        -- cbn. split; [ reflexivity | ]. exists s. split; [ lia | ].
           intros [Hv' | (_ & _ & Hv')]; congruence.
    + rewrite result_bind. cbn [result load fst].
      destruct (VALID_NAME_CHARACTER (byte_at s)) eqn:Hv; cbn [negb].
      * specialize (IH (s + 1) end_ last_dot).
        destruct (result (interface_loop mem fuel (s + 1) end_ last_dot))
          as [ld | r | | ].
        -- destruct IH as [Hall Hld]; [ lia | lia | ].
           split.
           ++ intros a Ha.
              destruct (Z.eq_dec a s) as [-> | Hne1]; [ left; exact Hv | ].
              apply Hall; lia.
           ++ rewrite Hld. split.
              ** intros [H | (a & Ha & Hd)]; [ left; exact H | ].
                 right. exists a. split; [ lia | exact Hd ].
              ** intros [H | (a & Ha & Hd)]; [ left; exact H | ].
                 right. exists a. split; [ | exact Hd ].
                 destruct (Z.eq_dec a s) as [-> | Hne1]; [ contradiction | lia ].
        -- destruct IH as [Hr (a & Ha & Hbad)]; [ lia | lia | ].
           split; [ exact Hr | ]. exists a. split; [ lia | exact Hbad ].
        -- apply IH; lia.
        -- apply IH; lia.
      * cbn. split; [ reflexivity | ]. exists s. split; [ lia | ].
        intros [Hv' | (Hc' & _)]; congruence.
Qed.

Lemma member_loop_spec (fuel : nat) :
  forall (s end_ : Z),
    s <= end_ -> (Z.to_nat (end_ - s) < fuel)%nat ->
    match result (member_loop mem fuel s end_) with
    | Val _ => forall a, s <= a < end_ -> VALID_NAME_CHARACTER (byte_at a) = true
    | Ret r =>
        r = false
        /\ exists a, s <= a < end_ /\ VALID_NAME_CHARACTER (byte_at a) = false
    | Abort | OutOfFuel => False
    end.
Proof.
  induction fuel as [ | fuel IH]; intros s end_ Hle Hfuel; [ lia | ].
  cbn [member_loop]. destruct (Z.eqb_spec s end_) as [-> | Hne]; cbn [negb].
  - cbn. intros a Ha. lia.
  - rewrite result_bind. cbn [result load fst].
    destruct (VALID_NAME_CHARACTER (byte_at s)) eqn:Hv; cbn [negb].
    + specialize (IH (s + 1) end_).
      destruct (result (member_loop mem fuel (s + 1) end_)) as [u | r | | ].
      * intros a Ha. destruct (Z.eq_dec a s) as [-> | Hne1];
          [ exact Hv | apply IH; lia ].
      * destruct IH as [Hr (a & Ha & Hbad)]; [ lia | lia | ].
        split; [ exact Hr | ]. exists a. split; [ lia | exact Hbad ].
      * apply IH; lia.
      * apply IH; lia.
    + cbn. split; [ reflexivity | ]. exists s. split; [ lia | exact Hv ].
Qed.

End InterfaceFacts.

Lemma validate_interface_result (mem : memory) (fuel : nat) (str : DBusString)
    (start len : Z) :
  0 <= start -> 0 <= len -> start <= string_len str ->
  (Z.to_nat len < fuel)%nat ->
  exists r : bool,
    result (_dbus_validate_interface mem fuel str start len) = Ret r
    /\ (r = true <->
        len <= string_len str - start
        /\ valid_interface_range mem (string_data str + start) len).
Proof.
  intros Hstart Hlen Hin Hfuel.
  unfold _dbus_validate_interface, _dbus_string_get_length,
    _dbus_string_get_const_data.
  rewrite (geb_true start 0 Hstart), (geb_true len 0 Hlen),
    (proj2 (Z.leb_le _ _) Hin).
  cbn [dbus_assert]. rewrite !result_bind. cbn [result ret fst].
  set (s0 := string_data str + start).
  destruct (Z.gtb_spec len (string_len str - start)) as [Hout | Hfit].
  { exists false. split; [ reflexivity | ].
    split; [ discriminate | intros [H _]; lia ]. }
  destruct (Z.gtb_spec len DBUS_MAXIMUM_NAME_LENGTH) as [Hlong | Hshort].
  { exists false. split; [ reflexivity | ].
    split; [ discriminate | intros [_ [H _]]; lia ]. }
  destruct (Z.eqb_spec len 0) as [-> | Hne].
  { exists false. split; [ reflexivity | ].
    split; [ discriminate | intros [_ [H _]]; lia ]. }
  rewrite result_bind. cbn [result load fst].
  destruct (Z.eqb_spec (byte_val (mem s0)) (chr ".")) as [Hc | Hc].
  { exists false. split; [ reflexivity | ].
    split; [ discriminate | ].
    intros [_ (_ & Hinit & _)]. exfalso.
    apply VALID_INITIAL_NAME_CHARACTER_spec, initial_is_name_character in Hinit.
    rewrite (dot_is_no_name_character _ Hc) in Hinit. discriminate. }
  rewrite result_bind. cbn [result load fst].
  destruct (VALID_INITIAL_NAME_CHARACTER (byte_val (mem s0))) eqn:Hinit;
    cbn [negb].
  2:{ exists false. split; [ reflexivity | ].
      split; [ discriminate | ].
      intros [_ (_ & Hi & _)].
      apply VALID_INITIAL_NAME_CHARACTER_spec in Hi. congruence. }
  rewrite result_bind.
  pose proof (interface_loop_spec mem fuel (s0 + 1) (s0 + len) None) as Hloop.
  assert (Hok : forall a,
    interface_byte_ok mem (s0 + len) a <->
    ascii_alnum_or_underscore (byte_val (mem a))
    \/ (byte_val (mem a) = chr "." /\ a + 1 < s0 + len
        /\ ascii_letter_or_underscore (byte_val (mem (a + 1))))).
  { intros a. unfold interface_byte_ok.
    rewrite VALID_NAME_CHARACTER_spec, VALID_INITIAL_NAME_CHARACTER_spec.
    reflexivity. }
  destruct (result (interface_loop mem fuel (s0 + 1) (s0 + len) None))
    as [[ld | ] | r | | ].
  - destruct Hloop as [Hall Hld]; [ lia | lia | ].
    exists true. split; [ reflexivity | ].
    split; [ intros _ | reflexivity ].
    split; [ lia | ]. unfold valid_interface_range.
    split; [ lia | ].
    split; [ apply VALID_INITIAL_NAME_CHARACTER_spec; exact Hinit | ].
    split; [ intros a Ha; apply Hok, Hall; lia | ].
    destruct (proj1 Hld) as [H | H]; [ discriminate | contradiction | exact H ].
  - destruct Hloop as [Hall Hld]; [ lia | lia | ].
    exists false. split; [ reflexivity | ].
    split; [ discriminate | ].
    intros [_ (_ & _ & _ & Hdot)]. exfalso.
    apply (proj2 Hld); [ right; exact Hdot | reflexivity ].
  - destruct Hloop as [-> (a & Ha & Hbad)]; [ lia | lia | ].
    exists false. split; [ reflexivity | ].
    split; [ discriminate | ].
    intros [_ (_ & _ & Hall & _)]. exfalso. apply Hbad, Hok, Hall. lia.
  - exfalso. apply Hloop; lia.
  - exfalso. apply Hloop; lia.
Qed.

(** Under their assertions and with a budget of more than [len]
    iterations, [_dbus_validate_interface] and
    [_dbus_validate_error_name] return the same boolean, and it is [TRUE]
    exactly when the range lies in the string, is not empty and within the
    maximum name length, starts with a letter or an underscore, has
    besides dots only alphanumeric bytes and underscores, has after each
    dot a letter or an underscore inside the range, and has at least one
    dot. *)
Theorem validate_interface_characterisation :
  forall (mem : memory) (fuel : nat) (str : DBusString) (start len : Z),
    0 <= start -> 0 <= len -> start <= string_len str ->
    (Z.to_nat len < fuel)%nat ->
    exists r : bool,
      result (_dbus_validate_interface mem fuel str start len) = Ret r
      /\ result (_dbus_validate_error_name mem fuel str start len) = Ret r
      /\ (r = true <->
          len <= string_len str - start
          /\ valid_interface_range mem (string_data str + start) len).
Proof.
  intros mem fuel str start len Hstart Hlen Hin Hfuel.
  destruct (validate_interface_result mem fuel str start len
              Hstart Hlen Hin Hfuel) as (r & Hres & Hiff).
  exists r. split; [ exact Hres | ]. split; [ | exact Hiff ].
  unfold _dbus_validate_error_name.
  rewrite result_bind, result_call, Hres. reflexivity.
Qed.

Lemma validate_interface_characterisation_witness :
  exists r : bool,
    result (_dbus_validate_interface (memory_of 1000 "a.b") 4
              (string_at 1000 "a.b") 0 3) = Ret r
    /\ result (_dbus_validate_error_name (memory_of 1000 "a.b") 4
                 (string_at 1000 "a.b") 0 3) = Ret r
    /\ (r = true <->
        3 <= 3 - 0 /\ valid_interface_range (memory_of 1000 "a.b") (1000 + 0) 3).
Proof.
  apply (validate_interface_characterisation
           (memory_of 1000 "a.b") 4%nat (string_at 1000 "a.b") 0 3).
  - lia.
  - lia.
  - cbn. lia.
  - cbn. lia.
Defined.

(** Under its assertions and with a budget of more than [len]
    iterations, [_dbus_validate_member] returns a boolean, and it is
    [TRUE] exactly when the range lies in the string, is not empty and
    within the maximum name length, starts with a letter or an underscore
    and goes on with alphanumeric bytes and underscores only (so it has
    no dot). *)
Theorem validate_member_characterisation :
  forall (mem : memory) (fuel : nat) (str : DBusString) (start len : Z),
    0 <= start -> 0 <= len -> start <= string_len str ->
    (Z.to_nat len < fuel)%nat ->
    exists r : bool,
      result (_dbus_validate_member mem fuel str start len) = Ret r
      /\ (r = true <->
          len <= string_len str - start
          /\ valid_member_range mem (string_data str + start) len).
Proof.
  intros mem fuel str start len Hstart Hlen Hin Hfuel.
  unfold _dbus_validate_member, _dbus_string_get_length,
    _dbus_string_get_const_data.
  rewrite (geb_true start 0 Hstart), (geb_true len 0 Hlen),
    (proj2 (Z.leb_le _ _) Hin).
  cbn [dbus_assert]. rewrite !result_bind. cbn [result ret fst].
  set (s0 := string_data str + start).
  destruct (Z.gtb_spec len (string_len str - start)) as [Hout | Hfit].
  { exists false. split; [ reflexivity | ].
    split; [ discriminate | intros [H _]; lia ]. }
  destruct (Z.gtb_spec len DBUS_MAXIMUM_NAME_LENGTH) as [Hlong | Hshort].
  { exists false. split; [ reflexivity | ].
    split; [ discriminate | intros [_ [H _]]; lia ]. }
  destruct (Z.eqb_spec len 0) as [-> | Hne].
  { exists false. split; [ reflexivity | ].
    split; [ discriminate | intros [_ [H _]]; lia ]. }
  rewrite result_bind. cbn [result load fst].
  destruct (VALID_INITIAL_NAME_CHARACTER (byte_val (mem s0))) eqn:Hinit;
    cbn [negb].
  2:{ exists false. split; [ reflexivity | ].
      split; [ discriminate | ].
      intros [_ (_ & Hi & _)].
      apply VALID_INITIAL_NAME_CHARACTER_spec in Hi. congruence. }
  rewrite result_bind.
  pose proof (member_loop_spec mem fuel (s0 + 1) (s0 + len)) as Hloop.
  destruct (result (member_loop mem fuel (s0 + 1) (s0 + len))) as [u | r | | ].
  - exists true. split; [ reflexivity | ].
    split; [ intros _ | reflexivity ].
    split; [ lia | ]. unfold valid_member_range.
    split; [ lia | ].
    split; [ apply VALID_INITIAL_NAME_CHARACTER_spec; exact Hinit | ].
    intros a Ha. apply VALID_NAME_CHARACTER_spec. apply Hloop; lia.
  - destruct Hloop as [-> (a & Ha & Hbad)]; [ lia | lia | ].
    exists false. split; [ reflexivity | ].
    split; [ discriminate | ].
    intros [_ (_ & _ & Hall)]. exfalso.
    specialize (Hall a ltac:(lia)).
    apply VALID_NAME_CHARACTER_spec in Hall. congruence.
  - exfalso. apply Hloop; lia.
  - exfalso. apply Hloop; lia.
Qed.

Lemma validate_member_characterisation_witness :
  exists r : bool,
    result (_dbus_validate_member (memory_of 1000 "Get_2") 6
              (string_at 1000 "Get_2") 0 5) = Ret r
    /\ (r = true <->
        5 <= 5 - 0 /\ valid_member_range (memory_of 1000 "Get_2") (1000 + 0) 5).
Proof.
  apply (validate_member_characterisation
           (memory_of 1000 "Get_2") 6%nat (string_at 1000 "Get_2") 0 5).
  - lia.
  - lia.
  - cbn. lia.
  - cbn. lia.
Defined.

(** ** What the validators of names read *)

Ltac rw_step :=
  first
    [ apply rw_nil; reflexivity
    | apply rw_assert
    | apply rw_load; lia
    | apply rw_bind; [ | intros ? ? ] ].

Ltac rw_auto := repeat first [ rw_step | case_if ].

Section NameReads.

Variable mem : memory.

Lemma path_loop_reads (fuel : nat) :
  forall (s end_ last_slash : Z),
    s <= end_ -> reads_within s end_ (path_loop mem fuel s end_ last_slash).
Proof.
  induction fuel as [ | fuel IH]; intros s end_ last_slash Hle;
    [ apply rw_nil; reflexivity | ].
  cbn [path_loop]. destruct (Z.eqb_spec s end_) as [-> | Hne]; cbn [negb];
    [ apply rw_nil; reflexivity | ].
  apply rw_bind; [ apply rw_load; lia | intros c _ ].
  apply rw_bind.
  - rw_auto.
  - intros ls _. apply (reads_within_weaken (s + 1) end_); [ lia | lia | ].
    apply IH. lia.
Qed.

Lemma interface_loop_reads (fuel : nat) :
  forall (s end_ : Z) (last_dot : option Z),
    s <= end_ -> reads_within s end_ (interface_loop mem fuel s end_ last_dot).
Proof.
  induction fuel as [ | fuel IH]; intros s end_ last_dot Hle;
    [ apply rw_nil; reflexivity | ].
  cbn [interface_loop]. destruct (Z.eqb_spec s end_) as [-> | Hne]; cbn [negb];
    [ apply rw_nil; reflexivity | ].
  apply rw_bind; [ apply rw_load; lia | intros c _ ].
  destruct (c =? chr ".").
  - destruct (Z.eqb_spec (s + 1) end_) as [ | Hmore]; [ apply rw_nil; reflexivity | ].
    apply rw_bind; [ apply rw_load; lia | intros c1 _ ].
    case_if; [ apply rw_nil; reflexivity | ].
    apply (reads_within_weaken (s + 1 + 1) end_); [ lia | lia | ].
    apply IH. lia.
  - apply rw_bind; [ apply rw_load; lia | intros c1 _ ].
    case_if; [ apply rw_nil; reflexivity | ].
    apply (reads_within_weaken (s + 1) end_); [ lia | lia | ].
    apply IH. lia.
Qed.

Lemma unique_name_loop_reads (fuel : nat) :
  forall (s end_ : Z),
    s <= end_ -> reads_within s end_ (unique_name_loop mem fuel s end_).
Proof.
  induction fuel as [ | fuel IH]; intros s end_ Hle;
    [ apply rw_nil; reflexivity | ].
  cbn [unique_name_loop]. destruct (Z.eqb_spec s end_) as [-> | Hne]; cbn [negb];
    [ apply rw_nil; reflexivity | ].
  apply rw_bind; [ apply rw_load; lia | intros c _ ].
  destruct (c =? chr ".").
  - destruct (Z.eqb_spec (s + 1) end_) as [ | Hmore]; [ apply rw_nil; reflexivity | ].
    apply rw_bind; [ apply rw_load; lia | intros c1 _ ].
    case_if; [ apply rw_nil; reflexivity | ].
    apply (reads_within_weaken (s + 1 + 1) end_); [ lia | lia | ].
    apply IH. lia.
  - apply rw_bind; [ apply rw_load; lia | intros c1 _ ].
    case_if; [ apply rw_nil; reflexivity | ].
    apply (reads_within_weaken (s + 1) end_); [ lia | lia | ].
    apply IH. lia.
Qed.

Lemma member_loop_reads (fuel : nat) :
  forall (s end_ : Z),
    s <= end_ -> reads_within s end_ (member_loop mem fuel s end_).
Proof.
  induction fuel as [ | fuel IH]; intros s end_ Hle;
    [ apply rw_nil; reflexivity | ].
  cbn [member_loop]. destruct (Z.eqb_spec s end_) as [-> | Hne]; cbn [negb];
    [ apply rw_nil; reflexivity | ].
  apply rw_bind; [ apply rw_load; lia | intros c _ ].
  case_if; [ apply rw_nil; reflexivity | ].
  apply (reads_within_weaken (s + 1) end_); [ lia | lia | ].
  apply IH. lia.
Qed.

Lemma reads_inside_nil (str : DBusString) (start len : Z) {R A} (m : M R A) :
  reads m = [] -> reads_inside str start len m.
Proof.
  intros H. split; [ apply rw_nil; exact H | ]. intros Hne. contradiction.
Qed.

Lemma validate_path_reads (fuel : nat) (str : DBusString) (start len : Z) :
  reads_inside str start len (_dbus_validate_path mem fuel str start len).
Proof.
  unfold _dbus_validate_path, _dbus_string_get_length,
    _dbus_string_get_const_data.
  destruct (Z.geb_spec start 0) as [Hstart | ];
    [ | apply reads_inside_nil; reflexivity ].
  destruct (Z.geb_spec len 0) as [Hlen | ];
    [ | apply reads_inside_nil; reflexivity ].
  destruct (Z.leb_spec start (string_len str)) as [Hin | ];
    [ | apply reads_inside_nil; reflexivity ].
  destruct (Z.gtb_spec len (string_len str - start)) as [ | Hfit];
    [ apply reads_inside_nil; reflexivity | ].
  destruct (Z.eqb_spec len 0) as [ | Hne];
    [ apply reads_inside_nil; reflexivity | ].
  split; [ | intros _; lia ].
  repeat (apply rw_bind; [ apply rw_assert | intros _ _ ]).
  apply rw_bind; [ apply rw_load; lia | intros c _ ].
  case_if; [ apply rw_nil; reflexivity | ].
  apply rw_bind.
  - apply (reads_within_weaken (string_data str + start + 1)
             (string_data str + start + len)); [ lia | lia | ].
    apply path_loop_reads. lia.
  - intros ls _. case_if; apply rw_nil; reflexivity.
Qed.

Lemma validate_interface_reads (fuel : nat) (str : DBusString) (start len : Z) :
  reads_inside str start len (_dbus_validate_interface mem fuel str start len).
Proof.
  unfold _dbus_validate_interface, _dbus_string_get_length,
    _dbus_string_get_const_data.
  destruct (Z.geb_spec start 0) as [Hstart | ];
    [ | apply reads_inside_nil; reflexivity ].
  destruct (Z.geb_spec len 0) as [Hlen | ];
    [ | apply reads_inside_nil; reflexivity ].
  destruct (Z.leb_spec start (string_len str)) as [Hin | ];
    [ | apply reads_inside_nil; reflexivity ].
  destruct (Z.gtb_spec len (string_len str - start)) as [ | Hfit];
    [ apply reads_inside_nil; reflexivity | ].
  destruct (len >? DBUS_MAXIMUM_NAME_LENGTH);
    [ apply reads_inside_nil; reflexivity | ].
  destruct (Z.eqb_spec len 0) as [ | Hne];
    [ apply reads_inside_nil; reflexivity | ].
  split; [ | intros _; lia ].
  repeat (apply rw_bind; [ apply rw_assert | intros _ _ ]).
  apply rw_bind; [ apply rw_load; lia | intros c _ ].
  case_if; [ apply rw_nil; reflexivity | ].
  apply rw_bind; [ apply rw_load; lia | intros c' _ ].
  case_if; [ apply rw_nil; reflexivity | ].
  apply rw_bind.
  - apply (reads_within_weaken (string_data str + start + 1)
             (string_data str + start + len)); [ lia | lia | ].
    apply interface_loop_reads. lia.
  - intros [ld | ] _; apply rw_nil; reflexivity.
Qed.

Lemma validate_member_reads (fuel : nat) (str : DBusString) (start len : Z) :
  reads_inside str start len (_dbus_validate_member mem fuel str start len).
Proof.
  unfold _dbus_validate_member, _dbus_string_get_length,
    _dbus_string_get_const_data.
  destruct (Z.geb_spec start 0) as [Hstart | ];
    [ | apply reads_inside_nil; reflexivity ].
  destruct (Z.geb_spec len 0) as [Hlen | ];
    [ | apply reads_inside_nil; reflexivity ].
  destruct (Z.leb_spec start (string_len str)) as [Hin | ];
    [ | apply reads_inside_nil; reflexivity ].
  destruct (Z.gtb_spec len (string_len str - start)) as [ | Hfit];
    [ apply reads_inside_nil; reflexivity | ].
  destruct (len >? DBUS_MAXIMUM_NAME_LENGTH);
    [ apply reads_inside_nil; reflexivity | ].
  destruct (Z.eqb_spec len 0) as [ | Hne];
    [ apply reads_inside_nil; reflexivity | ].
  split; [ | intros _; lia ].
  repeat (apply rw_bind; [ apply rw_assert | intros _ _ ]).
  apply rw_bind; [ apply rw_load; lia | intros c _ ].
  case_if; [ apply rw_nil; reflexivity | ].
  apply rw_bind.
  - apply (reads_within_weaken (string_data str + start + 1)
             (string_data str + start + len)); [ lia | lia | ].
    apply member_loop_reads. lia.
  - intros u _. apply rw_nil; reflexivity.
Qed.

Lemma validate_unique_name_reads (fuel : nat) (str : DBusString) (start len : Z) :
  reads_inside str start len (_dbus_validate_unique_name mem fuel str start len).
Proof.
  unfold _dbus_validate_unique_name, _dbus_string_get_length,
    _dbus_string_get_const_data.
  destruct (Z.geb_spec start 0) as [Hstart | ];
    [ | apply reads_inside_nil; reflexivity ].
  destruct (Z.geb_spec len 0) as [Hlen | ];
    [ | apply reads_inside_nil; reflexivity ].
  destruct (Z.leb_spec start (string_len str)) as [Hin | ];
    [ | apply reads_inside_nil; reflexivity ].
  destruct (Z.gtb_spec len (string_len str - start)) as [ | Hfit];
    [ apply reads_inside_nil; reflexivity | ].
  destruct (len >? DBUS_MAXIMUM_NAME_LENGTH);
    [ apply reads_inside_nil; reflexivity | ].
  destruct (Z.gtb_spec len 0) as [Hpos | ];
    [ | apply reads_inside_nil; reflexivity ].
  split; [ | intros _; lia ].
  repeat (apply rw_bind; [ apply rw_assert | intros _ _ ]).
  apply rw_bind; [ apply rw_load; lia | intros c _ ].
  apply rw_bind; [ apply rw_assert | intros _ _ ].
  apply rw_bind.
  - apply (reads_within_weaken (string_data str + start + 1)
             (string_data str + start + len)); [ lia | lia | ].
    apply unique_name_loop_reads. lia.
  - intros u _. apply rw_nil; reflexivity.
Qed.

End NameReads.

(** For every input, whatever the budget, [_dbus_validate_path],
    [_dbus_validate_interface], [_dbus_validate_member],
    [_dbus_validate_error_name] and [_dbus_validate_unique_name] read
    only bytes of the range [start, start + len), and they read at all
    only when [start] is not negative and the range is not empty and lies
    in the string. *)
Theorem name_validators_read_inside_the_range :
  forall (mem : memory) (fuel : nat) (str : DBusString) (start len : Z),
    reads_inside str start len (_dbus_validate_path mem fuel str start len)
    /\ reads_inside str start len (_dbus_validate_interface mem fuel str start len)
    /\ reads_inside str start len (_dbus_validate_member mem fuel str start len)
    /\ reads_inside str start len (_dbus_validate_error_name mem fuel str start len)
    /\ reads_inside str start len
         (_dbus_validate_unique_name mem fuel str start len).
Proof.
  intros mem fuel str start len.
  split; [ apply validate_path_reads | ].
  split; [ apply validate_interface_reads | ].
  split; [ apply validate_member_reads | ].
  split; [ | apply validate_unique_name_reads ].
  destruct (validate_interface_reads mem fuel str start len) as [Hrw Hin].
  assert (Hrd : reads (_dbus_validate_error_name mem fuel str start len)
                = reads (_dbus_validate_interface mem fuel str start len)).
  { unfold _dbus_validate_error_name. rewrite reads_bind, result_call, reads_call.
    destruct (result (_dbus_validate_interface mem fuel str start len));
      cbn; rewrite ?app_nil_r; reflexivity. }
  split; [ unfold reads_within; rewrite Hrd; exact Hrw | rewrite Hrd; exact Hin ].
Qed.

(** [_dbus_validate_bus_name] reads nothing when [len] is 0. Otherwise it
    reads the byte at [start] first, before any test of the range against
    the string; whatever it reads after that lies in
    [start, start + len), and it reads on only when [start] is not
    negative and the range lies in the string. *)
Theorem bus_name_reads_the_first_byte_then_the_range :
  forall (mem : memory) (fuel : nat) (str : DBusString) (start len : Z),
    (len = 0 -> _dbus_validate_bus_name mem fuel str start len = (Ret false, []))
    /\ (len <> 0 ->
        exists rest,
          reads (_dbus_validate_bus_name mem fuel str start len)
          = (string_data str + start) :: rest
          /\ Forall (fun a => string_data str + start <= a
                              < string_data str + start + len) rest
          /\ (rest <> [] -> 0 <= start /\ 0 < len <= string_len str - start)).
Proof.
  intros mem fuel str start len. split.
  - intros ->. reflexivity.
  - intros Hne. unfold _dbus_validate_bus_name, _dbus_string_get_byte.
    apply Z.eqb_neq in Hne. rewrite Hne.
    rewrite reads_bind. cbn [result load fst reads snd].
    destruct (byte_val (mem (string_data str + start)) =? chr ":").
    + destruct (validate_unique_name_reads mem fuel str start len) as [Hrw Hin].
      exists (reads (_dbus_validate_unique_name mem fuel str start len)).
      rewrite reads_bind, result_call, reads_call.
      split; [ | split; [ exact Hrw | exact Hin ] ].
      destruct (result (_dbus_validate_unique_name mem fuel str start len));
        cbn; rewrite ?app_nil_r; reflexivity.
    + destruct (validate_interface_reads mem fuel str start len) as [Hrw Hin].
      exists (reads (_dbus_validate_interface mem fuel str start len)).
      rewrite reads_bind, result_call, reads_call.
      split; [ | split; [ exact Hrw | exact Hin ] ].
      destruct (result (_dbus_validate_interface mem fuel str start len));
        cbn; rewrite ?app_nil_r; reflexivity.
Qed.

(** ** The signatures that are found valid *)

Section SignatureAccepts.

Variable mem : memory.

(** One iteration falls through exactly on a known code that passes the
    tests of its case, and then the counters are these. *)
Lemma sig_body_val_iff (q : Z) (st st' : sig_state) :
  result (sig_body mem q st) = Val st' <->
  let c := byte_val (mem q) in
  known_type_code c
  /\ (c = DBUS_TYPE_ARRAY ->
      array_depth st + 1 <= DBUS_MAXIMUM_TYPE_RECURSION_DEPTH)
  /\ (c = DBUS_STRUCT_BEGIN_CHAR ->
      struct_depth st + 1 <= DBUS_MAXIMUM_TYPE_RECURSION_DEPTH)
  /\ (c = DBUS_STRUCT_END_CHAR ->
      struct_depth st <> 0 /\ last st <> DBUS_STRUCT_BEGIN_CHAR)
  /\ st' = mkSig c
             (struct_depth st
              + (if c =? DBUS_STRUCT_BEGIN_CHAR then 1
                 else if c =? DBUS_STRUCT_END_CHAR then -1 else 0))
             (if c =? DBUS_TYPE_ARRAY then array_depth st + 1 else 0).
Proof.
  rewrite sig_body_result. cbv zeta.
  set (c := byte_val (mem q)). clearbody c.
  unfold sig_switch, known_type_code.
  destruct (is_basic_or_variant c) eqn:Hb.
  { destruct (basic_not_structural c Hb) as (Ha & Hb1 & Hb2).
    pose proof Ha as Ha'. pose proof Hb1 as Hb1'. pose proof Hb2 as Hb2'.
    apply Z.eqb_neq in Ha', Hb1', Hb2'. rewrite Ha', Hb1', Hb2'.
    cbn [result ret fst negb struct_depth array_depth]. rewrite Z.add_0_r.
    split.
    - intros H. injection H as <-.
      refine (conj _ (conj _ (conj _ (conj _ eq_refl))));
        [ left; reflexivity | intros; contradiction .. ].
    - intros (_ & _ & _ & _ & ->). reflexivity. }
  destruct (Z.eqb_spec c DBUS_TYPE_ARRAY) as [-> | Hc].
  { change (DBUS_TYPE_ARRAY =? DBUS_STRUCT_BEGIN_CHAR) with false.
    change (DBUS_TYPE_ARRAY =? DBUS_STRUCT_END_CHAR) with false.
    rewrite Z.add_0_r. cbv zeta.
    destruct (Z.gtb_spec (array_depth st + 1) DBUS_MAXIMUM_TYPE_RECURSION_DEPTH)
      as [Hex | Hok]; cbn [result ret return_ fst negb struct_depth array_depth].
    - split; [ discriminate | ]. intros (_ & H & _). specialize (H eq_refl). lia.
    - split.
      + intros H. injection H as <-.
        refine (conj _ (conj _ (conj _ (conj _ eq_refl))));
          [ right; left; reflexivity | intros _; exact Hok
          | intros H; discriminate H | intros H; discriminate H ].
      + intros (_ & _ & _ & _ & ->). reflexivity. }
  destruct (Z.eqb_spec c DBUS_STRUCT_BEGIN_CHAR) as [-> | Hc1].
  { cbv zeta.
    destruct (Z.gtb_spec (struct_depth st + 1) DBUS_MAXIMUM_TYPE_RECURSION_DEPTH)
      as [Hex | Hok]; cbn [result ret return_ fst negb struct_depth array_depth].
    - split; [ discriminate | ].
      intros (_ & _ & H & _). specialize (H eq_refl). lia.
    - split.
      + intros H. injection H as <-.
        refine (conj _ (conj _ (conj _ (conj _ eq_refl))));
          [ right; right; left; reflexivity | intros H; discriminate H
          | intros _; exact Hok | intros H; discriminate H ].
      + intros (_ & _ & _ & _ & ->). reflexivity. }
  destruct (Z.eqb_spec c DBUS_STRUCT_END_CHAR) as [-> | Hc2].
  { destruct (Z.eqb_spec (struct_depth st) 0) as [Hz | Hnz];
      [ | destruct (Z.eqb_spec (last st) DBUS_STRUCT_BEGIN_CHAR) as [Hl | Hl] ];
      cbn [result ret return_ fst negb struct_depth array_depth].
    - split; [ discriminate | ].
      intros (_ & _ & _ & H & _). destruct (H eq_refl). contradiction.
    - split; [ discriminate | ].
      intros (_ & _ & _ & H & _). destruct (H eq_refl). contradiction.
    - split.
      + intros H. injection H as <-.
        refine (conj _ (conj _ (conj _ (conj _ eq_refl))));
          [ right; right; right; reflexivity | intros H; discriminate H
          | intros H; discriminate H | intros _; split; assumption ].
      + intros (_ & _ & _ & _ & ->). reflexivity. }
  cbn [result return_ fst]. split; [ discriminate | ].
  intros ([H | [H | [H | H]]] & _); congruence.
Qed.

(** The scan of a prefix falls through exactly on the accepted
    prefixes. *)
Lemma sig_scan_val_iff (n : nat) :
  forall (fuel : nat) (p : Z),
    (n < fuel)%nat ->
    (exists st, result (sig_loop mem fuel p (p + Z.of_nat n) sig_init) = Val st)
    <-> prefix_accepted mem p n.
Proof.
  induction n as [ | n IH]; intros fuel p Hfuel.
  - split.
    + intros _. refine (conj _ (conj _ _)).
      * intros a Ha. lia.
      * intros m Hm. assert (m = 0%nat) as -> by lia. cbn.
        split; [ discriminate | split; [ lia | discriminate ] ].
      * intros a Ha Ha1. lia.
    + intros _. exists sig_init. destruct fuel as [ | fuel]; [ lia | ].
      cbn [sig_loop]. replace (p + Z.of_nat 0) with p by lia.
      rewrite Z.eqb_refl. reflexivity.
  - assert (Hsplit :
      result (sig_loop mem fuel p (p + Z.of_nat (S n)) sig_init) =
      match result (sig_loop mem fuel p (p + Z.of_nat n) sig_init) with
      | Val st0 => result (sig_body mem (p + Z.of_nat n) st0)
      | Ret v => Ret v
      | Abort => Abort
      | OutOfFuel => OutOfFuel
      end).
    { rewrite (sig_loop_split mem fuel p (p + Z.of_nat n)); [ | lia | lia ].
      destruct (result (sig_loop mem fuel p (p + Z.of_nat n) sig_init));
        try reflexivity.
      replace (p + Z.of_nat (S n)) with (p + Z.of_nat n + 1) by lia.
      apply sig_loop_one. lia. }
    specialize (IH fuel p ltac:(lia)).
    assert (Hrun : array_run mem (S n) (p + Z.of_nat (S n)) =
                   if byte_val (mem (p + Z.of_nat n)) =? DBUS_TYPE_ARRAY
                   then array_run mem n (p + Z.of_nat n) + 1 else 0).
    { cbn [array_run].
      replace (p + Z.of_nat (S n) - 1) with (p + Z.of_nat n) by lia.
      reflexivity. }
    assert (Hbal : struct_balance mem (S n) (p + Z.of_nat (S n)) =
                   struct_balance mem n (p + Z.of_nat n)
                   + (if byte_val (mem (p + Z.of_nat n)) =? DBUS_STRUCT_BEGIN_CHAR
                      then 1
                      else if byte_val (mem (p + Z.of_nat n))
                              =? DBUS_STRUCT_END_CHAR
                           then -1 else 0)).
    { cbn [struct_balance].
      replace (p + Z.of_nat (S n) - 1) with (p + Z.of_nat n) by lia.
      reflexivity. }
    split.
    + intros [st Hst]. rewrite Hsplit in Hst.
      destruct (result (sig_loop mem fuel p (p + Z.of_nat n) sig_init))
        as [st0 | v | | ] eqn:H0; try discriminate Hst.
      destruct (proj1 IH) as (Hknown & Hbounds & Hadj);
        [ exists st0; reflexivity | ].
      destruct (sig_scan_invariant mem n fuel p st0 ltac:(lia) H0)
        as (Had0 & Hsd0 & Hnn0 & Hlast0 & _).
      apply sig_body_val_iff in Hst. cbv zeta in Hst.
      destruct Hst as (Hk & Harr & Hbeg & Hend & _).
      destruct (Hbounds n (Nat.le_refl n)) as [Hrn Hbn].
      refine (conj _ (conj _ _)).
      * intros a Ha. destruct (Z.eq_dec a (p + Z.of_nat n)) as [-> | Hne];
          [ exact Hk | apply Hknown; lia ].
      * intros m Hm. destruct (Nat.eq_dec m (S n)) as [-> | Hm'];
          [ | apply Hbounds; lia ].
        rewrite Hrun, Hbal. split.
        -- destruct (Z.eqb_spec (byte_val (mem (p + Z.of_nat n))) DBUS_TYPE_ARRAY)
             as [Hc | Hc]; [ specialize (Harr Hc); lia | discriminate ].
        -- destruct (Z.eqb_spec (byte_val (mem (p + Z.of_nat n)))
                       DBUS_STRUCT_BEGIN_CHAR) as [Hc | Hc];
             [ specialize (Hbeg Hc); lia | ].
           destruct (Z.eqb_spec (byte_val (mem (p + Z.of_nat n)))
                       DBUS_STRUCT_END_CHAR) as [Hc' | Hc']; [ | lia ].
           destruct (Hend Hc'). lia.
      * intros a Ha Ha1 [Hs1 Hs2].
        destruct (Z.eq_dec (a + 1) (p + Z.of_nat n)) as [Heq | Hne];
          [ | apply (Hadj a); [ lia | lia | split; assumption ] ].
        rewrite Heq in Hs2. destruct (Hend Hs2) as [_ Hl]. apply Hl.
        rewrite Hlast0. destruct n as [ | n']; [ lia | ].
        replace (p + Z.of_nat (S n') - 1) with a by lia. exact Hs1.
    + intros (Hknown & Hbounds & Hadj).
      destruct (proj2 IH) as [st0 H0].
      { refine (conj _ (conj _ _)).
        - intros a Ha. apply Hknown. lia.
        - intros m Hm. apply Hbounds. lia.
        - intros a Ha Ha1. apply Hadj; lia. }
      destruct (sig_scan_invariant mem n fuel p st0 ltac:(lia) H0)
        as (Had0 & Hsd0 & Hnn0 & Hlast0 & _).
      destruct (Hbounds (S n) (Nat.le_refl _)) as [Hrn Hbn].
      rewrite Hrun in Hrn. rewrite Hbal in Hbn.
      eexists. rewrite Hsplit, H0. apply sig_body_val_iff. cbv zeta.
      refine (conj _ (conj _ (conj _ (conj _ eq_refl)))).
      * apply Hknown. lia.
      * intros Hc. apply Z.eqb_eq in Hc. rewrite Hc in Hrn. lia.
      * intros Hc. apply Z.eqb_eq in Hc. rewrite Hc in Hbn. lia.
      * intros Hc. split.
        -- intros Hz. rewrite Hc in Hbn.
           change (DBUS_STRUCT_END_CHAR =? DBUS_STRUCT_BEGIN_CHAR) with false in Hbn.
           rewrite Z.eqb_refl in Hbn. lia.
        -- intros Hl. rewrite Hlast0 in Hl. destruct n as [ | n'].
           ++ discriminate Hl.
           ++ apply (Hadj (p + Z.of_nat (S n') - 1)); [ lia | lia | ].
              split; [ exact Hl | ].
              replace (p + Z.of_nat (S n') - 1 + 1)
                with (p + Z.of_nat (S n')) by lia.
              exact Hc.
Qed.

End SignatureAccepts.

Lemma sig_switch_never_returns_valid (c : Z) (st : sig_state) :
  result (sig_switch c st) <> Ret DBUS_VALID.
Proof. unfold sig_switch. repeat case_if; discriminate. Qed.

Lemma sig_loop_never_returns_valid (mem : memory) (fuel : nat) :
  forall (p end_ : Z) (st : sig_state),
    result (sig_loop mem fuel p end_ st) <> Ret DBUS_VALID.
Proof.
  induction fuel as [ | fuel IH]; intros p end_ st; [ discriminate | ].
  cbn [sig_loop]. case_if; [ | discriminate ].
  rewrite result_bind, sig_body_result. cbv zeta.
  pose proof (sig_switch_never_returns_valid (byte_val (mem p)) st) as Hsw.
  destruct (result (sig_switch (byte_val (mem p)) st)) as [st1 | v | | ];
    try discriminate.
  - apply IH.
  - intros H. apply Hsw. exact H.
Qed.

Lemma signature_validity_characterisation_aux
    (mem : memory) (fuel : nat) (type_str : DBusString) (type_pos len : Z) :
  0 <= type_pos -> 0 <= len -> type_pos < _DBUS_INT_MAX - len ->
  (Z.to_nat len < fuel)%nat ->
  (result (_dbus_validate_signature_with_reason mem fuel type_str type_pos len)
   = Ret DBUS_VALID
   <-> signature_accepted mem (string_data type_str + type_pos) len)
  /\ exists v,
       result (_dbus_validate_signature_with_reason mem fuel type_str type_pos len)
       = Ret v.
Proof.
  intros Hpos Hlen Hmax Hfuel.
  set (s0 := string_data type_str + type_pos).
  destruct (Z.leb_spec len DBUS_MAXIMUM_SIGNATURE_LENGTH) as [Hlong | Hlong].
  2:{ unfold _dbus_validate_signature_with_reason.
      rewrite (proj2 (Z.ltb_lt _ _) Hmax), (geb_true len 0 Hlen),
        (geb_true type_pos 0 Hpos), (gtb_true _ _ Hlong).
      cbn. split; [ | eexists; reflexivity ].
      split; [ discriminate | intros [H _]; lia ]. }
  rewrite sig_with_reason_unfold by assumption. fold s0.
  rewrite result_bind.
  pose proof (sig_scan_val_iff mem (Z.to_nat len) fuel s0 Hfuel) as Hscan.
  pose proof (sig_scan_invariant mem (Z.to_nat len) fuel s0) as Hinv.
  pose proof (sig_loop_never_returns_valid mem fuel s0 (s0 + len) sig_init)
    as Hnever.
  destruct (sig_loop_finishes_within mem fuel s0 (s0 + len) sig_init)
    as [Hfin _]; [ lia | replace (s0 + len - s0) with len by lia; lia | ].
  unfold finishes in Hfin.
  rewrite Z2Nat.id in Hscan, Hinv by lia.
  unfold signature_accepted.
  destruct (result (sig_loop mem fuel s0 (s0 + len) sig_init))
    as [st | v | | ] eqn:Hres; try contradiction.
  - split; [ | apply sig_finish_returns ].
    destruct (Hinv st Hfuel eq_refl) as (Had & Hsd & Hnn & _).
    pose proof (array_run_nonneg mem (Z.to_nat len) (s0 + len)) as Hrun.
    unfold sig_finish. split.
    + intros Hv.
      destruct (Z.gtb_spec (array_depth st) 0) as [ | Ha]; [ discriminate Hv | ].
      destruct (Z.gtb_spec (struct_depth st) 0) as [ | Hs]; [ discriminate Hv | ].
      split; [ exact Hlong | ].
      split; [ apply Hscan; exists st; reflexivity | ].
      split; lia.
    + intros (_ & _ & Hr & Hb).
      rewrite Had, Hr, Hsd, Hb. reflexivity.
  - split; [ | eexists; reflexivity ]. split.
    + intros Hv. exfalso. apply Hnever. injection Hv as ->. reflexivity.
    + intros (_ & Hacc & _). apply Hscan in Hacc. destruct Hacc as [st Hst].
      discriminate Hst.
Qed.

(** Under its assertions and with a budget of more than [len]
    iterations, [_dbus_validate_signature_with_reason] returns
    [DBUS_VALID] exactly on the accepted signatures: at most the maximum
    length, every byte a known type code, at every point a run of at
    most 32 array codes and between 0 and 32 open structs, no struct-end
    right after a struct-begin, and at the end no array code just read
    and no struct open. Nothing else is tested: an array code right
    before a struct-end, as in "(a)", is accepted. *)
Theorem signature_validity_characterisation :
  forall (mem : memory) (fuel : nat) (type_str : DBusString) (type_pos len : Z),
    0 <= type_pos -> 0 <= len -> type_pos < _DBUS_INT_MAX - len ->
    (Z.to_nat len < fuel)%nat ->
    result (_dbus_validate_signature_with_reason mem fuel type_str type_pos len)
    = Ret DBUS_VALID
    <-> signature_accepted mem (string_data type_str + type_pos) len.
Proof.
  intros mem fuel type_str type_pos len Hpos Hlen Hmax Hfuel.
  apply (signature_validity_characterisation_aux mem fuel type_str type_pos len
           Hpos Hlen Hmax Hfuel).
Qed.

Lemma signature_validity_characterisation_witness :
  signature_accepted (memory_of 1000 "(a)") (1000 + 0) 3.
Proof.
  apply (proj1 (signature_validity_characterisation
                  (memory_of 1000 "(a)") 4%nat (string_at 1000 "(a)") 0 3
                  ltac:(lia) ltac:(lia) ltac:(reflexivity) ltac:(cbn; lia))).
  reflexivity.
Defined.

(** Under its assertions, for a string shorter than [_DBUS_INT_MAX] and
    with a budget of more than [len] iterations,
    [_dbus_validate_signature] returns a boolean. It is [TRUE] exactly
    when the range lies in the string and holds an accepted signature;
    when the range extends past the end of the string the function reads
    no byte. *)
Theorem validate_signature_boolean :
  forall (mem : memory) (fuel : nat) (str : DBusString) (start len : Z),
    0 <= start -> start <= string_len str -> 0 <= len ->
    string_len str < _DBUS_INT_MAX ->
    (Z.to_nat len < fuel)%nat ->
    exists r : bool,
      result (_dbus_validate_signature mem fuel str start len) = Ret r
      /\ (r = true <->
          len <= string_len str - start
          /\ signature_accepted mem (string_data str + start) len)
      /\ (string_len str - start < len ->
          reads (_dbus_validate_signature mem fuel str start len) = []).
Proof.
  intros mem fuel str start len Hstart Hin Hlen Hint Hfuel.
  unfold _dbus_validate_signature, _dbus_string_get_length.
  rewrite (geb_true start 0 Hstart), (geb_true len 0 Hlen),
    (proj2 (Z.leb_le _ _) Hin).
  cbn [dbus_assert]. rewrite !result_bind, !reads_bind.
  cbn [result reads ret fst snd app].
  destruct (Z.gtb_spec len (string_len str - start)) as [Hout | Hfit].
  { exists false. split; [ reflexivity | ].
    split; [ | reflexivity ].
    split; [ discriminate | intros [H _]; lia ]. }
  assert (Hmax : start < _DBUS_INT_MAX - len) by lia.
  pose proof (signature_validity_characterisation_aux mem fuel str start len
                Hstart Hlen Hmax Hfuel) as [Hiff (v & Hv)].
  rewrite result_bind, result_call, Hv. cbn [result return_ fst].
  exists (is_valid v). split; [ reflexivity | ].
  split; [ | intros; lia ].
  rewrite <- Hiff, Hv. split.
  - intros Hval. split; [ lia | ]. destruct v; try discriminate Hval. reflexivity.
  - intros [_ H]. injection H as ->. reflexivity.
Qed.

Lemma validate_signature_boolean_witness :
  exists r : bool,
    result (_dbus_validate_signature (memory_of 1000 "a(ii)") 6
              (string_at 1000 "a(ii)") 0 5) = Ret r
    /\ (r = true <->
        5 <= 5 - 0 /\ signature_accepted (memory_of 1000 "a(ii)") (1000 + 0) 5)
    /\ (5 - 0 < 5 ->
        reads (_dbus_validate_signature (memory_of 1000 "a(ii)") 6
                 (string_at 1000 "a(ii)") 0 5) = []).
Proof.
  apply (validate_signature_boolean
           (memory_of 1000 "a(ii)") 6%nat (string_at 1000 "a(ii)") 0 5).
  - lia.
  - cbn. lia.
  - lia.
  - reflexivity.
  - cbn. lia.
Defined.

(** ** The body validator: cursor and reads *)

Lemma align_pow2 (p k : Z) :
  0 <= k -> 0 <= p -> p + 2 ^ k <= 2 ^ ULONG_BITS ->
  _DBUS_ALIGN_ADDRESS p (2 ^ k) = (p + (2 ^ k - 1)) / 2 ^ k * 2 ^ k.
Proof.
  intros Hk Hp Hfit. unfold _DBUS_ALIGN_ADDRESS, to_ulong.
  assert (H2k : 0 < 2 ^ k) by (apply Z.pow_pos_nonneg; lia).
  rewrite (Z.mod_small (p + (2 ^ k - 1))) by lia.
  replace (2 ^ k - 1) with (Z.ones k) by (rewrite Z.ones_equiv; lia).
  rewrite <- (Z.land_ones (Z.lnot (Z.ones k)) ULONG_BITS) by (unfold ULONG_BITS; lia).
  rewrite (Z.land_comm (Z.lnot (Z.ones k))), Z.land_assoc.
  rewrite (Z.land_ones (p + Z.ones k)) by (unfold ULONG_BITS; lia).
  rewrite Z.mod_small by (rewrite Z.ones_equiv; lia).
  rewrite <- Z.ldiff_land, Z.ldiff_ones_r by lia.
  rewrite Z.shiftr_div_pow2, Z.shiftl_mul_pow2 by lia. reflexivity.
Qed.

(** Rounding up to 1, 4 or 8: the least multiple at or after [p]. *)
Lemma align_bounds (p b : Z) :
  b = 1 \/ b = 4 \/ b = 8 ->
  0 <= p -> p + 8 <= 2 ^ ULONG_BITS ->
  p <= _DBUS_ALIGN_ADDRESS p b < p + b
  /\ _DBUS_ALIGN_ADDRESS p b mod b = 0.
Proof.
  intros Hb Hp Hfit.
  assert (Hk : exists k, 0 <= k <= 3 /\ b = 2 ^ k).
  { destruct Hb as [-> | [-> | ->]];
      [ exists 0 | exists 2 | exists 3 ]; split; (lia || reflexivity). }
  destruct Hk as (k & Hk & ->).
  assert (H2k : 0 < 2 ^ k <= 8).
  { split; [ apply Z.pow_pos_nonneg; lia | ].
    change 8 with (2 ^ 3). apply Z.pow_le_mono_r; lia. }
  rewrite align_pow2 by lia.
  split; [ | apply Z.mod_mul; lia ].
  pose proof (Z.div_mod (p + (2 ^ k - 1)) (2 ^ k) ltac:(lia)) as Hdm.
  pose proof (Z.mod_pos_bound (p + (2 ^ k - 1)) (2 ^ k) ltac:(lia)) as Hmod.
  lia.
Qed.

Lemma align_of_multiple (p b : Z) :
  b = 1 \/ b = 4 \/ b = 8 ->
  0 <= p -> p + 8 <= 2 ^ ULONG_BITS -> p mod b = 0 ->
  _DBUS_ALIGN_ADDRESS p b = p.
Proof.
  intros Hb Hp Hfit Hmod.
  destruct (align_bounds p b Hb Hp Hfit) as [Hrange Hmul].
  assert (Hbpos : 0 < b) by (destruct Hb as [-> | [-> | ->]]; lia).
  set (a := _DBUS_ALIGN_ADDRESS p b) in *.
  assert (Hd : (a - p) mod b = 0).
  { rewrite Zminus_mod, Hmul, Hmod. reflexivity. }
  apply Z.mod_divide in Hd; [ | lia ]. destruct Hd as [q Hq].
  assert (q = 0) by nia. lia.
Qed.

Lemma alignment_values {R} (t : Z) :
  reads (@_dbus_type_get_alignment R t) = []
  /\ forall b, result (@_dbus_type_get_alignment R t) = Val b ->
               (b = 1 \/ b = 4 \/ b = 8) /\ (b = 8 -> aligned_to_8 t).
Proof.
  unfold _dbus_type_get_alignment, aligned_to_8.
  match goal with |- context [if ?b then ret 1 else _] => destruct b eqn:H1 end.
  { split; [ reflexivity | ]. intros b H. injection H as <-.
    split; [ tauto | discriminate ]. }
  match goal with |- context [if ?b then ret 4 else _] => destruct b eqn:H4 end.
  { split; [ reflexivity | ]. intros b H. injection H as <-.
    split; [ tauto | discriminate ]. }
  match goal with |- context [if ?b then ret 8 else _] => destruct b eqn:H8 end.
  { split; [ reflexivity | ]. intros b H. injection H as <-.
    split; [ tauto | ]. intros _.
    rewrite !orb_true_iff, !Z.eqb_eq in H8. tauto. }
  split; [ reflexivity | ]. intros b H. discriminate H.
Qed.

Lemma alignment_of_aligned_to_8 {R} (t : Z) :
  aligned_to_8 t -> @_dbus_type_get_alignment R t = (Val 8, []).
Proof. intros [-> | [-> | [-> | ->]]]; reflexivity. Qed.

Section BodyReads.

Variable mem : memory.
Variable utf8 : memory -> DBusString -> Z -> Z -> bool.

(** The padding loop reads the skipped bytes only and ends at [a]. *)
Lemma check_padding_within (fuel : nat) :
  forall (p a : Z),
    p <= a ->
    reads_within p a (check_padding mem fuel p a)
    /\ forall p', result (check_padding mem fuel p a) = Val p' -> p' = a.
Proof.
  induction fuel as [ | fuel IH]; intros p a Hle.
  { split; [ apply rw_nil; reflexivity | discriminate ]. }
  cbn [check_padding]. destruct (Z.eqb_spec p a) as [-> | Hne]; cbn [negb].
  { split; [ apply rw_nil; reflexivity | ].
    intros p' H. injection H as <-. reflexivity. }
  destruct (IH (p + 1) a ltac:(lia)) as [Hrw Hval].
  split.
  - apply rw_bind; [ apply rw_load; lia | intros c _ ].
    case_if; [ apply rw_nil; reflexivity | ].
    apply (reads_within_weaken (p + 1) a); [ lia | lia | exact Hrw ].
  - intros p'. rewrite result_bind. cbn [result load fst].
    case_if; [ discriminate | apply Hval ].
Qed.

Lemma unpack_uint32_within {R} (byte_order p : Z) :
  reads_within p (p + 4) (@_dbus_unpack_uint32 mem R byte_order p)
  /\ forall v, result (@_dbus_unpack_uint32 mem R byte_order p) = Val v -> 0 <= v.
Proof.
  split.
  - unfold _dbus_unpack_uint32. rw_auto.
  - intros v H.
    assert (Hv : v =
      if byte_order =? DBUS_LITTLE_ENDIAN
      then byte_val (mem p) + Z.shiftl (byte_val (mem (p + 1))) 8
           + Z.shiftl (byte_val (mem (p + 2))) 16
           + Z.shiftl (byte_val (mem (p + 3))) 24
      else byte_val (mem (p + 3)) + Z.shiftl (byte_val (mem (p + 2))) 8
           + Z.shiftl (byte_val (mem (p + 1))) 16
           + Z.shiftl (byte_val (mem p)) 24).
    { change (result (@_dbus_unpack_uint32 mem R byte_order p))
        with (@Val R Z
               (if byte_order =? DBUS_LITTLE_ENDIAN
                then byte_val (mem p) + Z.shiftl (byte_val (mem (p + 1))) 8
                     + Z.shiftl (byte_val (mem (p + 2))) 16
                     + Z.shiftl (byte_val (mem (p + 3))) 24
                else byte_val (mem (p + 3)) + Z.shiftl (byte_val (mem (p + 2))) 8
                     + Z.shiftl (byte_val (mem (p + 1))) 16
                     + Z.shiftl (byte_val (mem p)) 24)) in H.
      congruence. }
    rewrite Hv. clear Hv H.
    pose proof (byte_val_nonneg (mem p)).
    pose proof (byte_val_nonneg (mem (p + 1))).
    pose proof (byte_val_nonneg (mem (p + 2))).
    pose proof (byte_val_nonneg (mem (p + 3))).
    rewrite !Z.shiftl_mul_pow2 by lia.
    destruct (byte_order =? DBUS_LITTLE_ENDIAN); lia.
Qed.

Lemma sig_loop_reads (fuel : nat) :
  forall (p end_ : Z) (st : sig_state),
    p <= end_ -> reads_within p end_ (sig_loop mem fuel p end_ st).
Proof.
  induction fuel as [ | fuel IH]; intros p end_ st Hle;
    [ apply rw_nil; reflexivity | ].
  cbn [sig_loop]. destruct (Z.eqb_spec p end_) as [-> | Hne]; cbn [negb];
    [ apply rw_nil; reflexivity | ].
  apply rw_bind.
  - unfold reads_within. eapply Forall_impl; [ | apply sig_body_reads ].
    cbn. intros a ->. lia.
  - intros st' _. apply (reads_within_weaken (p + 1) end_); [ lia | lia | ].
    apply IH. lia.
Qed.

Lemma validate_signature_reads (fuel : nat) (str : DBusString) (start len : Z) :
  reads_within (string_data str + start) (string_data str + start + len)
    (_dbus_validate_signature mem fuel str start len).
Proof.
  unfold _dbus_validate_signature.
  apply rw_bind; [ apply rw_assert | intros _ _ ].
  apply rw_bind; [ apply rw_assert | intros _ _ ].
  apply rw_bind; [ apply rw_assert | intros u Hlen ].
  apply result_assert in Hlen. apply Z.geb_le in Hlen.
  case_if; [ apply rw_nil; reflexivity | ].
  apply rw_bind; [ | intros; apply rw_nil; reflexivity ].
  apply rw_call. unfold _dbus_validate_signature_with_reason.
  repeat (apply rw_bind; [ apply rw_assert | intros _ _ ]).
  case_if; [ apply rw_nil; reflexivity | ].
  unfold _dbus_string_get_const_data_len. rewrite Z.add_assoc.
  apply rw_bind; [ apply sig_loop_reads; lia | intros st _ ].
  apply rw_nil. apply sig_finish_reads.
Qed.

Lemma reader_recurse_facts {R} (reader : DBusTypeReader) :
  reads (@_dbus_type_reader_recurse mem R reader) = []
  /\ forall sub, result (@_dbus_type_reader_recurse mem R reader) = Val sub ->
       _dbus_type_reader_get_current_type mem sub
       = _dbus_type_reader_get_element_type mem reader.
Proof.
  unfold _dbus_type_reader_recurse.
  repeat case_if; (split; [ reflexivity | ]); intros sub H;
    try discriminate H; injection H as <-; reflexivity.
Qed.

Lemma reader_next_reads {R} (reader : DBusTypeReader) :
  reads (@_dbus_type_reader_next mem R reader) = [].
Proof.
  unfold _dbus_type_reader_next. case_if; [ reflexivity | ].
  rewrite reads_bind.
  destruct (klass reader);
    repeat (match goal with
            | |- context [match ?x with Some _ => _ | None => _ end] => destruct x
            end);
    repeat case_if; reflexivity.
Qed.

Lemma reads_helper_call {R} (reader : DBusTypeReader) (p : Z)
    (m : M DBusValidity (DBusTypeReader * Z)) :
  reads (@helper_call R reader p m) = reads m.
Proof. destruct m as [[[reader' p'] | v | | ] d]; reflexivity. Qed.

End BodyReads.

(** *** Rules for [within] *)

Lemma within_bind {R A B} (lo hi : Z) (Q : A -> Prop) (Q' : B -> Prop)
    (m : M R A) (k : A -> M R B) :
  within lo hi Q m ->
  (forall a, Q a -> within lo hi Q' (k a)) ->
  within lo hi Q' (bind m k).
Proof.
  intros [Hrw Hq] Hk. split.
  - apply rw_bind; [ exact Hrw | ]. intros a Ha. apply Hk, Hq, Ha.
  - intros b. rewrite result_bind.
    destruct (result m) as [a | r | | ] eqn:Hres; try discriminate.
    apply (Hk a (Hq a eq_refl)).
Qed.

Lemma within_ret {R A} (lo hi : Z) (Q : A -> Prop) (a : A) :
  Q a -> within lo hi Q (@ret R A a).
Proof.
  intros H. split; [ constructor | ]. intros b Hb. injection Hb as <-. exact H.
Qed.

Lemma within_stops {R A} (lo hi : Z) (Q : A -> Prop) (m : M R A) :
  stops_unread m -> within lo hi Q m.
Proof.
  intros [Hrd Hval]. split; [ apply rw_nil; exact Hrd | ].
  intros a Ha. destruct (Hval a Ha).
Qed.

Lemma within_return {R A} (lo hi : Z) (Q : A -> Prop) (r : R) :
  within lo hi Q (@return_ R A r).
Proof. apply within_stops. split; [ reflexivity | discriminate ]. Qed.

Lemma within_abort {R A} (lo hi : Z) (Q : A -> Prop) :
  within lo hi Q (@abort R A).
Proof. apply within_stops. split; [ reflexivity | discriminate ]. Qed.

Lemma within_out_of_fuel {R A} (lo hi : Z) (Q : A -> Prop) :
  within lo hi Q (@out_of_fuel R A).
Proof. apply within_stops. split; [ reflexivity | discriminate ]. Qed.

Lemma within_load {R} (mem : memory) (lo hi p : Z) :
  lo <= p < hi ->
  within lo hi (fun c => 0 <= c < 256) (@load mem R p).
Proof.
  intros H. split; [ apply rw_load; exact H | ].
  intros c Hc. injection Hc as <-.
  split; [ apply byte_val_nonneg | apply byte_val_bound ].
Qed.

Lemma within_assert {R} (lo hi : Z) (b : bool) :
  within lo hi (fun _ => b = true) (@dbus_assert R b).
Proof.
  split; [ apply rw_assert | ]. intros u Hu. apply (result_assert b u Hu).
Qed.

Lemma within_weaken {R A} (lo hi lo' hi' : Z) (Q Q' : A -> Prop) (m : M R A) :
  lo' <= lo -> hi <= hi' -> (forall a, Q a -> Q' a) ->
  within lo hi Q m -> within lo' hi' Q' m.
Proof.
  intros Hlo Hhi Himp [Hrw Hq]. split.
  - apply (reads_within_weaken lo hi); assumption.
  - intros a Ha. apply Himp, Hq, Ha.
Qed.

Lemma within_call {R R'} (lo hi : Z) (m : M R R) :
  reads_within lo hi m -> within lo hi (fun _ => True) (@call R R' m).
Proof. intros H. split; [ apply rw_call; exact H | intros; exact I ]. Qed.

Lemma within_helper_call {R} (lo hi : Z) (Q : DBusTypeReader * Z -> Prop)
    (reader : DBusTypeReader) (p : Z) (m : M DBusValidity (DBusTypeReader * Z)) :
  within lo hi Q m ->
  within lo hi (fun x => Q (snd (fst x), snd x) \/ (snd (fst x), snd x) = (reader, p))
    (@helper_call R reader p m).
Proof.
  intros [Hrw Hq]. split.
  - unfold reads_within. rewrite reads_helper_call. exact Hrw.
  - intros [[v r'] p']. rewrite result_helper_call.
    destruct (result m) as [[r1 p1] | v1 | | ] eqn:Hres; try discriminate.
    + intros H. injection H as _ <- <-. left. apply Hq. reflexivity.
    + intros H. injection H as _ <- <-. right. reflexivity.
Qed.

Lemma helper_within_iff (p end_ : Z) (m : M DBusValidity (DBusTypeReader * Z)) :
  helper_within p end_ m <->
  within p (end_ + 3) (fun x => p <= snd x <= end_) m.
Proof.
  unfold helper_within, within. split; intros [Hrw Hq]; (split; [ exact Hrw | ]).
  - intros [r' p'] H. apply (Hq r' p' H).
  - intros r' p' H. apply (Hq (r', p') H).
Qed.

Section BodyCases.

Variable mem : memory.
Variable utf8 : memory -> DBusString -> Z -> Z -> bool.
Variable rec : DBusTypeReader -> bool -> Z -> M DBusValidity (DBusTypeReader * Z).
Variable byte_order end_ : Z.

Hypothesis Hend : 0 <= end_ /\ end_ + 16 <= 2 ^ ULONG_BITS.

Hypothesis Hrec_in :
  forall r w q, 0 <= q <= end_ -> helper_within q end_ (rec r w q).

Hypothesis Hrec_out :
  forall r w q, end_ < q <= end_ + 8 ->
    aligned_to_8 (_dbus_type_reader_get_current_type mem r) ->
    stops_unread (rec r w q).

Lemma within_alignment {R} (lo hi t : Z) :
  within lo hi (fun b => (b = 1 \/ b = 4 \/ b = 8) /\ (b = 8 -> aligned_to_8 t))
    (@_dbus_type_get_alignment R t).
Proof.
  destruct (@alignment_values R t) as [Hrd Hval].
  split; [ apply rw_nil; exact Hrd | exact Hval ].
Qed.

Lemma within_padding (fuel : nat) (lo hi p a : Z) :
  lo <= p <= a -> a <= hi ->
  within lo hi (fun p' => p' = a) (check_padding mem fuel p a).
Proof.
  intros Hp Ha.
  apply (within_weaken p a lo hi (fun p' => p' = a)); [ lia | lia | auto | ].
  apply check_padding_within. lia.
Qed.

Lemma within_unpack {R} (lo hi bo p : Z) :
  lo <= p -> p + 4 <= hi ->
  within lo hi (fun v => 0 <= v) (@_dbus_unpack_uint32 mem R bo p).
Proof.
  intros Hlo Hhi.
  apply (within_weaken p (p + 4) lo hi (fun v => 0 <= v)); [ lia | lia | auto | ].
  apply unpack_uint32_within.
Qed.

Lemma body_fixed_within (fuel : nat) (t p : Z) :
  0 <= p < end_ ->
  case_within p end_ (body_fixed mem fuel t byte_order p end_).
Proof.
  intros Hp. change (within p (end_ + 3) (fun p' => p <= p')
                       (body_fixed mem fuel t byte_order p end_)).
  unfold body_fixed.
  eapply within_bind; [ apply within_alignment | ].
  intros b [Hb _]. cbv beta zeta.
  destruct (align_bounds p b Hb ltac:(lia) ltac:(lia)) as [Ha _].
  set (a := _DBUS_ALIGN_ADDRESS p b) in *.
  destruct (Z.geb_spec a end_) as [ | Hlt]; [ apply within_return | ].
  eapply within_bind; [ apply (within_padding fuel p (end_ + 3) p a); lia | ].
  intros p' ->. cbv beta.
  eapply within_bind with (Q := fun _ => True).
  - case_if; [ | apply within_ret; exact I ].
    eapply within_bind; [ apply within_unpack; lia | ].
    intros v _. case_if; [ apply within_return | apply within_ret; exact I ].
  - intros _ _. apply within_ret. lia.
Qed.

(** A fixed-width value that starts beyond [end] is not read. *)
Lemma body_fixed_beyond (fuel : nat) (t p : Z) :
  end_ < p <= end_ + 8 -> aligned_to_8 t ->
  stops_unread (body_fixed mem fuel t byte_order p end_).
Proof.
  intros Hp Ht. unfold body_fixed.
  rewrite (alignment_of_aligned_to_8 t Ht). cbn [bind fst snd app].
  destruct (align_bounds p 8 ltac:(tauto) ltac:(lia) ltac:(lia)) as [Ha _].
  destruct (Z.geb_spec (_DBUS_ALIGN_ADDRESS p 8) end_) as [ | Hlt]; [ | lia ].
  split; [ reflexivity | discriminate ].
Qed.

Lemma array_loop_within (fuel : nat) :
  forall (sub : DBusTypeReader) (q array_end : Z),
    0 <= q <= end_ + 8 ->
    (end_ < q -> aligned_to_8 (_dbus_type_reader_get_current_type mem sub)) ->
    within q (end_ + 3) (fun x => q <= snd x)
      (array_loop rec fuel sub q array_end).
Proof.
  induction fuel as [ | fuel IH]; intros sub q array_end Hq Hal;
    [ apply within_out_of_fuel | ].
  cbn [array_loop]. case_if; [ | apply within_ret; cbn; lia ].
  eapply within_bind.
  - apply within_helper_call.
    destruct (Z.le_gt_cases q end_) as [Hin | Hout].
    + apply helper_within_iff. apply Hrec_in. lia.
    + apply within_stops. apply Hrec_out; [ lia | apply Hal; lia ].
  - intros [[v sub'] p']. cbn [fst snd]. intros Hpost.
    case_if; [ apply within_return | ].
    destruct Hpost as [Hp' | Heq].
    + assert (Hnum : q <= p' <= end_).
      { destruct (Z.le_gt_cases q end_) as [Hin | Hout]; [ | exact Hp' ].
        exact Hp'. }
      apply (within_weaken p' (end_ + 3) q (end_ + 3) (fun x => p' <= snd x));
        [ lia | lia | intros x Hx; lia | ].
      apply IH; [ lia | intros; lia ].
    + injection Heq as -> ->. apply IH; assumption.
Qed.

Lemma to_ulong_small (z : Z) : 0 <= z < 2 ^ ULONG_BITS -> to_ulong z = z.
Proof. intros H. unfold to_ulong. apply Z.mod_small. exact H. Qed.

Lemma to_uint32_small (z : Z) : 0 <= z <= 256 -> to_uint32 z = z.
Proof.
  intros H. unfold to_uint32. apply Z.mod_small.
  change (2 ^ 32) with 4294967296. lia.
Qed.

Lemma within_recurse {R} (lo hi : Z) (reader : DBusTypeReader) :
  within lo hi
    (fun sub => _dbus_type_reader_get_current_type mem sub
                = _dbus_type_reader_get_element_type mem reader)
    (@_dbus_type_reader_recurse mem R reader).
Proof.
  destruct (@reader_recurse_facts mem R reader) as [Hrd Hval].
  split; [ apply rw_nil; exact Hrd | exact Hval ].
Qed.

Lemma within_next {R} (lo hi : Z) (reader : DBusTypeReader) :
  within lo hi (fun _ => True) (@_dbus_type_reader_next mem R reader).
Proof.
  split; [ apply rw_nil; apply reader_next_reads | intros; exact I ].
Qed.

Lemma body_string_like_within (fuel : nat) (reader : DBusTypeReader) (t p : Z) :
  0 <= p < end_ ->
  case_within p end_
    (body_string_like mem utf8 rec fuel reader t byte_order p end_).
Proof.
  intros Hp.
  change (within p (end_ + 3) (fun p' => p <= p')
            (body_string_like mem utf8 rec fuel reader t byte_order p end_)).
  unfold body_string_like.
  destruct (align_bounds p 4 ltac:(tauto) ltac:(lia) ltac:(lia)) as [Ha Hmod].
  set (a := _DBUS_ALIGN_ADDRESS p 4) in *.
  destruct (Z.gtb_spec (a + 4) end_) as [ | Hroom]; [ apply within_return | ].
  eapply within_bind; [ apply (within_padding fuel p (end_ + 3) p a); lia | ].
  intros p' ->. cbv beta.
  eapply within_bind; [ apply within_unpack; lia | ].
  intros cl Hcl. cbv beta zeta in *.
  eapply within_bind; [ apply within_assert | ]. intros _ _.
  eapply within_bind with
    (Q := fun p2 => a + 4 <= p2 <= end_ + 8
                    /\ (end_ < p2 ->
                        t = DBUS_TYPE_ARRAY
                        /\ aligned_to_8
                             (_dbus_type_reader_get_element_type mem reader))).
  { destruct (Z.eqb_spec t DBUS_TYPE_ARRAY) as [Ht | Ht].
    - eapply within_bind; [ apply within_alignment | ].
      intros b [Hb H8]. apply within_ret.
      destruct (align_bounds (a + 4) b Hb ltac:(lia) ltac:(lia)) as [Ha2 _].
      split; [ destruct Hb as [-> | [-> | ->]]; lia | ].
      intros Hover. split; [ exact Ht | ]. apply H8.
      destruct Hb as [-> | [-> | ->]]; [ | | reflexivity ].
      + rewrite align_of_multiple in Hover;
          [ lia | tauto | lia | lia | apply Z.mod_1_r ].
      + rewrite align_of_multiple in Hover; [ lia | tauto | lia | lia | ].
        replace (a + 4) with (a + 1 * 4) by lia.
        rewrite Z_mod_plus_full. exact Hmod.
    - apply within_ret. split; [ lia | intros; lia ]. }
  intros p2 [Hp2 Hover].
  destruct (Z.gtb_spec cl (to_ulong (end_ - p2))) as [ | Hfit];
    [ apply within_return | ].
  assert (Hin : p2 <= end_ -> p2 + cl <= end_).
  { intros Hle. rewrite to_ulong_small in Hfit; lia. }
  assert (Hnot : t <> DBUS_TYPE_ARRAY -> p2 <= end_).
  { intros Ht. destruct (Z.le_gt_cases p2 end_) as [ | Hgt]; [ assumption | ].
    destruct (Hover Hgt) as [Ht' _]. contradiction. }
  eapply within_bind with
    (Q := fun p3 => p2 <= p3 /\ (t <> DBUS_TYPE_ARRAY -> p3 <= end_)).
  { destruct (Z.eqb_spec t DBUS_TYPE_OBJECT_PATH) as [Hto | Hto].
    { assert (Ht : t <> DBUS_TYPE_ARRAY) by (rewrite Hto; discriminate).
      specialize (Hnot Ht). specialize (Hin Hnot).
      eapply within_bind.
      - apply within_call.
        apply (reads_within_weaken (p2 + 0) (p2 + 0 + cl)); [ lia | lia | ].
        apply (proj1 (validate_path_reads mem fuel (mkString p2 cl) 0 cl)).
      - intros ok _. case_if; [ apply within_return | ].
        apply within_ret. split; [ lia | intros; lia ]. }
    destruct (Z.eqb_spec t DBUS_TYPE_STRING) as [Hts | Hts].
    { assert (Ht : t <> DBUS_TYPE_ARRAY) by (rewrite Hts; discriminate).
      specialize (Hnot Ht). specialize (Hin Hnot).
      case_if; [ apply within_return | ].
      apply within_ret. split; [ lia | intros; lia ]. }
    destruct ((t =? DBUS_TYPE_ARRAY) && (cl >? 0)) eqn:Harr.
    - apply andb_true_iff in Harr. destruct Harr as [Ht _].
      apply Z.eqb_eq in Ht.
      eapply within_bind; [ apply within_recurse | ].
      intros sub Hsub. cbv zeta.
      eapply within_bind.
      + apply (within_weaken p2 (end_ + 3) p (end_ + 3) (fun x => p2 <= snd x)
                 (fun x => p2 <= snd x)); [ lia | lia | auto | ].
        apply (array_loop_within fuel sub p2 (p2 + cl)); [ lia | ].
        intros Hgt. rewrite Hsub. apply Hover. exact Hgt.
      + intros [sub' p3] Hp3. cbn [snd] in Hp3.
        case_if; [ apply within_return | ].
        apply within_ret. split; [ exact Hp3 | intros; contradiction ].
    - apply within_ret. split; [ lia | exact Hnot ]. }
  intros p3 [Hp3 Hp3e].
  destruct (Z.eqb_spec t DBUS_TYPE_ARRAY) as [Ht | Ht]; cbn [negb].
  - apply within_ret. lia.
  - specialize (Hp3e Ht).
    destruct (Z.eqb_spec p3 end_) as [ | Hne]; [ apply within_return | ].
    eapply within_bind; [ apply within_load; lia | ].
    intros c _. case_if; [ apply within_return | ].
    apply within_ret. lia.
Qed.

(** The length byte, the signature and its nul of the signature and
    variant cases: all before [end]. *)
Lemma signature_prefix_within (fuel : nat) (p : Z) (bad missing : DBusValidity)
    (k : Z -> M DBusValidity Z) (toolong : DBusValidity) :
  0 <= p < end_ ->
  (forall cl, 0 <= cl -> p + 1 + cl < end_ ->
     within p (end_ + 3) (fun p' => p <= p') (k cl)) ->
  within p (end_ + 3) (fun p' => p <= p')
    (claimed_len <- load mem p ;;
     if to_uint32 (claimed_len + 1) >? to_ulong (end_ - (p + 1))
     then return_ toolong
     else
       ok <- call (_dbus_validate_signature mem fuel
                     (_dbus_string_init_const_len (p + 1) claimed_len) 0
                     (_dbus_string_get_length
                        (_dbus_string_init_const_len (p + 1) claimed_len))) ;;
       if negb ok then return_ bad else k claimed_len).
Proof.
  intros Hp Hk.
  eapply within_bind; [ apply within_load; lia | ].
  intros cl Hcl. cbv beta in *.
  rewrite to_uint32_small, to_ulong_small by lia.
  destruct (Z.gtb_spec (cl + 1) (end_ - (p + 1))) as [ | Hfit];
    [ apply within_return | ].
  eapply within_bind.
  - apply within_call.
    apply (reads_within_weaken (p + 1 + 0) (p + 1 + 0 + cl)); [ lia | lia | ].
    apply (validate_signature_reads mem fuel (mkString (p + 1) cl) 0 cl).
  - intros ok _. case_if; [ apply within_return | ].
    apply Hk; lia.
Qed.

Lemma body_signature_within (fuel : nat) (p : Z) :
  0 <= p < end_ ->
  case_within p end_ (body_signature mem fuel p end_).
Proof.
  intros Hp.
  change (within p (end_ + 3) (fun p' => p <= p')
            (body_signature mem fuel p end_)).
  unfold body_signature.
  apply (signature_prefix_within fuel p DBUS_INVALID_BAD_SIGNATURE
           DBUS_INVALID_SIGNATURE_MISSING_NUL); [ exact Hp | ].
  intros cl Hcl Hroom.
  eapply within_bind; [ apply within_assert | ]. intros _ _.
  eapply within_bind; [ apply within_load; lia | ].
  intros c _. case_if; [ apply within_return | ].
  apply within_ret. lia.
Qed.

Lemma body_variant_within (fuel : nat) (p : Z) :
  0 <= p < end_ ->
  case_within p end_ (body_variant mem rec fuel byte_order p end_).
Proof.
  intros Hp.
  change (within p (end_ + 3) (fun p' => p <= p')
            (body_variant mem rec fuel byte_order p end_)).
  unfold body_variant.
  apply (signature_prefix_within fuel p DBUS_INVALID_VARIANT_SIGNATURE_BAD
           DBUS_INVALID_VARIANT_SIGNATURE_MISSING_NUL); [ exact Hp | ].
  intros cl Hcl Hroom.
  eapply within_bind; [ apply within_load; lia | ].
  intros c _. case_if; [ apply within_return | ].
  eapply within_bind; [ apply within_alignment | ].
  intros b [Hb _]. cbv beta zeta.
  destruct (align_bounds (p + 1 + cl + 1) b Hb ltac:(lia) ltac:(lia)) as [Ha _].
  set (a := _DBUS_ALIGN_ADDRESS (p + 1 + cl + 1) b) in *.
  destruct (Z.gtb_spec a end_) as [ | Hle]; [ apply within_return | ].
  eapply within_bind;
    [ apply (within_padding fuel p (end_ + 3) (p + 1 + cl + 1) a); lia | ].
  intros p' ->. cbv beta.
  case_if; [ apply within_return | ].
  eapply within_bind.
  - apply within_helper_call.
    apply (within_weaken a (end_ + 3) p (end_ + 3)
             (fun x => a <= snd x <= end_) (fun x => a <= snd x <= end_));
      [ lia | lia | auto | ].
    apply helper_within_iff. apply Hrec_in. lia.
  - intros [[v sub'] p5]. cbn [fst snd]. intros Hpost.
    assert (Hp5 : a <= p5).
    { destruct Hpost as [H | H]; [ lia | injection H as _ ->; lia ]. }
    case_if; [ apply within_return | ].
    eapply within_bind; [ apply within_next | ].
    intros [sub2 more] _. destruct more; [ apply within_return | ].
    eapply within_bind; [ apply within_assert | ]. intros _ _.
    apply within_ret. lia.
Qed.

Lemma body_struct_within (fuel : nat) (reader : DBusTypeReader) (p : Z) :
  0 <= p < end_ ->
  case_within p end_ (body_struct mem rec fuel reader p end_).
Proof.
  intros Hp.
  change (within p (end_ + 3) (fun p' => p <= p')
            (body_struct mem rec fuel reader p end_)).
  unfold body_struct.
  destruct (align_bounds p 8 ltac:(tauto) ltac:(lia) ltac:(lia)) as [Ha _].
  set (a := _DBUS_ALIGN_ADDRESS p 8) in *.
  destruct (Z.gtb_spec a end_) as [ | Hle]; [ apply within_return | ].
  eapply within_bind; [ apply (within_padding fuel p (end_ + 3) p a); lia | ].
  intros p' ->. cbv beta.
  eapply within_bind; [ apply within_recurse | ]. intros sub _.
  eapply within_bind.
  - apply within_helper_call.
    apply (within_weaken a (end_ + 3) p (end_ + 3)
             (fun x => a <= snd x <= end_) (fun x => a <= snd x <= end_));
      [ lia | lia | auto | ].
    apply helper_within_iff. apply Hrec_in. lia.
  - intros [[v sub'] p5]. cbn [fst snd]. intros Hpost.
    assert (Hp5 : a <= p5).
    { destruct Hpost as [H | H]; [ lia | injection H as _ ->; lia ]. }
    case_if; [ apply within_return | ].
    apply within_ret. lia.
Qed.

(** A struct that starts beyond [end] is not read. *)
Lemma body_struct_beyond (fuel : nat) (reader : DBusTypeReader) (p : Z) :
  end_ < p <= end_ + 8 ->
  stops_unread (body_struct mem rec fuel reader p end_).
Proof.
  intros Hp. unfold body_struct.
  destruct (align_bounds p 8 ltac:(tauto) ltac:(lia) ltac:(lia)) as [Ha _].
  destruct (Z.gtb_spec (_DBUS_ALIGN_ADDRESS p 8) end_) as [ | Hle]; [ | lia ].
  split; [ reflexivity | discriminate ].
Qed.

Lemma body_value_within (fuel : nat) (reader : DBusTypeReader) (t p : Z) :
  0 <= p < end_ ->
  case_within p end_ (body_value mem utf8 rec fuel reader t byte_order p end_).
Proof.
  intros Hp. unfold body_value.
  case_if.
  { change (within p (end_ + 3) (fun p' => p <= p')
              (@ret DBusValidity Z (p + 1))).
    apply within_ret. lia. }
  case_if; [ apply body_fixed_within; exact Hp | ].
  case_if; [ apply body_string_like_within; exact Hp | ].
  case_if; [ apply body_signature_within; exact Hp | ].
  case_if; [ apply body_variant_within; exact Hp | ].
  case_if; [ apply body_struct_within; exact Hp | ].
  change (within p (end_ + 3) (fun p' => p <= p') (@abort DBusValidity Z)).
  apply within_abort.
Qed.

(** A value of a type aligned to 8 that starts beyond [end] is not
    read. *)
Lemma body_value_beyond (fuel : nat) (reader : DBusTypeReader) (t p : Z) :
  end_ < p <= end_ + 8 -> aligned_to_8 t ->
  stops_unread (body_value mem utf8 rec fuel reader t byte_order p end_).
Proof.
  intros Hp Ht.
  assert (Hcase :
    body_value mem utf8 rec fuel reader t byte_order p end_
    = body_fixed mem fuel t byte_order p end_
    \/ body_value mem utf8 rec fuel reader t byte_order p end_
       = body_struct mem rec fuel reader p end_).
  { destruct Ht as [-> | [-> | [-> | ->]]];
      [ left | left | left | right ]; reflexivity. }
  destruct Hcase as [-> | ->].
  - apply body_fixed_beyond; assumption.
  - apply body_struct_beyond; assumption.
Qed.

End BodyCases.

Lemma stops_bind {R A B} (m : M R A) (k : A -> M R B) :
  stops_unread m -> stops_unread (bind m k).
Proof.
  intros [Hrd Hval]. split.
  - rewrite reads_bind. destruct (result m) as [a | r | | ] eqn:Hres;
      try exact Hrd. destruct (Hval a eq_refl).
  - intros b. rewrite result_bind.
    destruct (result m) as [a | r | | ] eqn:Hres; try discriminate.
    destruct (Hval a eq_refl).
Qed.

(** The helper from a cursor at or before [end] reads from the cursor on
    and less than 3 bytes past [end], and hands back a cursor between the
    two; from a cursor beyond [end], at a type aligned to 8, it reads
    nothing and does not succeed. *)
Lemma helper_safety (mem : memory)
    (utf8 : memory -> DBusString -> Z -> Z -> bool) (fuel : nat) :
  forall (reader : DBusTypeReader) (byte_order : Z) (walk : bool) (p end_ : Z),
    0 <= end_ /\ end_ + 16 <= 2 ^ ULONG_BITS ->
    (0 <= p <= end_ ->
     helper_within p end_
       (validate_body_helper mem utf8 fuel reader byte_order walk p end_))
    /\ (end_ < p <= end_ + 8 ->
        aligned_to_8 (_dbus_type_reader_get_current_type mem reader) ->
        stops_unread
          (validate_body_helper mem utf8 fuel reader byte_order walk p end_)).
Proof.
  induction fuel as [ | fuel IH]; intros reader byte_order walk p end_ Hend.
  { split.
    - intros _. split; [ apply rw_nil; reflexivity | discriminate ].
    - intros _ _. split; [ reflexivity | discriminate ]. }
  assert (Hrec_in : forall r w q, 0 <= q <= end_ ->
            helper_within q end_
              (validate_body_helper mem utf8 fuel r byte_order w q end_)).
  { intros r w q Hq. apply (IH r byte_order w q end_ Hend). exact Hq. }
  assert (Hrec_out : forall r w q, end_ < q <= end_ + 8 ->
            aligned_to_8 (_dbus_type_reader_get_current_type mem r) ->
            stops_unread
              (validate_body_helper mem utf8 fuel r byte_order w q end_)).
  { intros r w q Hq Hal. apply (IH r byte_order w q end_ Hend); assumption. }
  cbn [validate_body_helper]. cbv zeta.
  set (t := _dbus_type_reader_get_current_type mem reader).
  split.
  - intros Hp. apply helper_within_iff.
    case_if; [ | apply within_ret; cbn; lia ].
    destruct (Z.eqb_spec p end_) as [ | Hne]; [ apply within_return | ].
    eapply within_bind.
    + apply (body_value_within mem utf8
               (fun r w q => validate_body_helper mem utf8 fuel r byte_order w q end_)
               byte_order end_ Hend Hrec_in Hrec_out fuel reader t p). lia.
    + intros p1 Hp1. cbv beta in Hp1.
      destruct (Z.gtb_spec p1 end_) as [ | Hle]; [ apply within_return | ].
      destruct walk.
      * eapply within_bind; [ apply within_next | ].
        intros [reader1 more] _.
        apply (within_weaken p1 (end_ + 3) p (end_ + 3)
                 (fun x => p1 <= snd x <= end_)); [ lia | lia | | ].
        -- intros x Hx. lia.
        -- apply helper_within_iff. apply Hrec_in. lia.
      * apply within_ret. cbn. lia.
  - intros Hp Hal.
    assert (Hvalid : negb (t =? DBUS_TYPE_INVALID) = true).
    { destruct Hal as [H | [H | [H | H]]]; fold t in H; rewrite H; reflexivity. }
    rewrite Hvalid.
    destruct (Z.eqb_spec p end_) as [ | Hne]; [ lia | ].
    apply stops_bind.
    apply (body_value_beyond mem utf8 _ byte_order end_ Hend); assumption.
Qed.





(** ** The rules of the fixed-width and length-prefixed cases *)

Lemma unpack_uint32_result {R} (mem : memory) (byte_order a : Z) :
  result (@_dbus_unpack_uint32 mem R byte_order a)
  = Val (word_at mem byte_order a).
Proof. reflexivity. Qed.

(** The case of the fixed-width types, for a type [t] whose alignment
    (and width) is [b], at addresses that do not wrap and with budget for
    the padding: with [a] the cursor rounded up to [b], the case returns
    not-enough-data without reading when [a] is not before [end]; it
    returns padding-not-nul when a skipped byte is not nul; otherwise a
    boolean is accepted exactly when its word is 0 or 1, and a value of
    any other type is accepted whatever its bytes are; the cursor moves to
    [a + b], which may lie beyond [end]. *)
Theorem fixed_width_rule :
  forall (mem : memory) (fuel : nat) (t b byte_order p end_ : Z),
    @_dbus_type_get_alignment DBusValidity t = (Val b, []) ->
    0 <= p -> p + 8 <= 2 ^ ULONG_BITS -> (8 <= fuel)%nat ->
    let a := _DBUS_ALIGN_ADDRESS p b in
    let run := body_fixed mem fuel t byte_order p end_ in
    (end_ <= a -> run = (Ret DBUS_INVALID_NOT_ENOUGH_DATA, []))
    /\ (a < end_ -> (exists q, p <= q < a /\ byte_val (mem q) <> 0) ->
        result run = Ret DBUS_INVALID_ALIGNMENT_PADDING_NOT_NUL)
    /\ (a < end_ -> (forall q, p <= q < a -> byte_val (mem q) = 0) ->
        result run =
        if t =? DBUS_TYPE_BOOLEAN
        then if (word_at mem byte_order a =? 0) || (word_at mem byte_order a =? 1)
             then Val (a + b)
             else Ret DBUS_INVALID_BOOLEAN_NOT_ZERO_OR_ONE
        else Val (a + b)).
Proof.
  intros mem fuel t b byte_order p end_ Hal Hp Hfit Hfuel a run.
  assert (Hb : b = 1 \/ b = 4 \/ b = 8).
  { destruct (@alignment_values DBusValidity t) as [_ Hval].
    apply (Hval b). rewrite Hal. reflexivity. }
  destruct (align_bounds p b Hb Hp Hfit) as [Ha _]. fold a in Ha.
  assert (Hrun : run =
    bind (@ret DBusValidity Z b) (fun alignment =>
      if a >=? end_ then return_ DBUS_INVALID_NOT_ENOUGH_DATA
      else
        p' <- check_padding mem fuel p a ;;
        (if t =? DBUS_TYPE_BOOLEAN then
           v <- _dbus_unpack_uint32 mem byte_order p' ;;
           if negb ((v =? 0) || (v =? 1))
           then return_ DBUS_INVALID_BOOLEAN_NOT_ZERO_OR_ONE
           else ret tt
         else ret tt) ;;;
        ret (p' + alignment))).
  { subst run. unfold body_fixed. rewrite Hal. reflexivity. }
  rewrite Hrun. clear Hrun.
  refine (conj _ (conj _ _)).
  - intros Hge. unfold bind, ret; cbn [fst snd app].
    rewrite (geb_true a end_ Hge). reflexivity.
  - intros Hlt Hnz. rewrite result_bind. cbn [result ret fst].
    rewrite (Z.geb_leb a end_), (proj2 (Z.leb_gt end_ a) Hlt).
    rewrite result_bind.
    destruct (check_padding_spec mem fuel p a ltac:(lia) ltac:(lia))
      as [[Hres Hall] | [Hres _]].
    + destruct Hnz as (q & Hq & Hbad). destruct (Hbad (Hall q Hq)).
    + rewrite Hres. reflexivity.
  - intros Hlt Hz. rewrite result_bind. cbn [result ret fst].
    rewrite (Z.geb_leb a end_), (proj2 (Z.leb_gt end_ a) Hlt).
    rewrite result_bind.
    destruct (check_padding_spec mem fuel p a ltac:(lia) ltac:(lia))
      as [[Hres _] | [_ (q & Hq & Hbad)]].
    + rewrite Hres. rewrite result_bind.
      destruct (t =? DBUS_TYPE_BOOLEAN); [ | reflexivity ].
      rewrite result_bind, unpack_uint32_result.
      destruct ((word_at mem byte_order a =? 0) || (word_at mem byte_order a =? 1));
        reflexivity.
    + destruct (Hbad (Hz q Hq)).
Qed.

Lemma fixed_width_rule_witness :
  let mem := message_memory "b" [x00; x00; x00; x00; x02; x00; x00; x00] in
  result (body_fixed mem 8 DBUS_TYPE_BOOLEAN DBUS_LITTLE_ENDIAN 2004 2008)
  = Ret DBUS_INVALID_BOOLEAN_NOT_ZERO_OR_ONE.
Proof.
  cbv zeta.
  refine (eq_trans
    (proj2 (proj2
      (fixed_width_rule
         (message_memory "b" [x00; x00; x00; x00; x02; x00; x00; x00])
         8%nat DBUS_TYPE_BOOLEAN 4 DBUS_LITTLE_ENDIAN 2004 2008
         _ _ _ _)) _ _) _).
  - reflexivity.
  - lia.
  - vm_compute. discriminate.
  - lia.
  - reflexivity.
  - intros q Hq. change (_DBUS_ALIGN_ADDRESS 2004 4) with 2004 in Hq. lia.
  - reflexivity.
Defined.

(** The start of the string and object-path case, at addresses that do
    not wrap and with budget for the padding: with [a] the cursor rounded
    up to 4, the case returns not-enough-data without reading when the
    4-byte length does not fit before [end]; it returns padding-not-nul
    when a skipped byte is not nul; and when the length it reads exceeds
    the bytes left before [end] it returns
    string-length-out-of-bounds, having read nothing beyond the
    length. *)
Theorem length_prefix_rule :
  forall (mem : memory) (utf8 : memory -> DBusString -> Z -> Z -> bool)
         (rec : DBusTypeReader -> bool -> Z -> M DBusValidity (DBusTypeReader * Z))
         (fuel : nat) (reader : DBusTypeReader) (t byte_order p end_ : Z),
    t = DBUS_TYPE_STRING \/ t = DBUS_TYPE_OBJECT_PATH ->
    0 <= p <= end_ -> end_ + 16 <= 2 ^ ULONG_BITS -> (8 <= fuel)%nat ->
    let a := _DBUS_ALIGN_ADDRESS p 4 in
    let run := body_string_like mem utf8 rec fuel reader t byte_order p end_ in
    (end_ < a + 4 -> run = (Ret DBUS_INVALID_NOT_ENOUGH_DATA, []))
    /\ (a + 4 <= end_ -> (exists q, p <= q < a /\ byte_val (mem q) <> 0) ->
        result run = Ret DBUS_INVALID_ALIGNMENT_PADDING_NOT_NUL)
    /\ (a + 4 <= end_ -> (forall q, p <= q < a -> byte_val (mem q) = 0) ->
        end_ - (a + 4) < word_at mem byte_order a ->
        result run = Ret DBUS_INVALID_STRING_LENGTH_OUT_OF_BOUNDS
        /\ reads_within p (a + 4) run).
Proof.
  intros mem utf8 rec fuel reader t byte_order p end_ Ht Hp Hend Hfuel a run.
  assert (Hna : (t =? DBUS_TYPE_ARRAY) = false).
  { destruct Ht as [-> | ->]; reflexivity. }
  destruct (align_bounds p 4 ltac:(tauto) ltac:(lia) ltac:(lia)) as [Ha _].
  fold a in Ha. subst run. unfold body_string_like. fold a.
  refine (conj _ (conj _ _)).
  - intros Hshort. rewrite (gtb_true (a + 4) end_ Hshort). reflexivity.
  - intros Hroom Hnz. rewrite (gtb_false (a + 4) end_ Hroom).
    rewrite result_bind.
    destruct (check_padding_spec mem fuel p a ltac:(lia) ltac:(lia))
      as [[Hres Hall] | [Hres _]].
    + destruct Hnz as (q & Hq & Hbad). destruct (Hbad (Hall q Hq)).
    + rewrite Hres. reflexivity.
  - intros Hroom Hz Hlong. rewrite (gtb_false (a + 4) end_ Hroom).
    destruct (check_padding_spec mem fuel p a ltac:(lia) ltac:(lia))
      as [[Hres _] | [_ (q & Hq & Hbad)]]; [ | destruct (Hbad (Hz q Hq)) ].
    assert (Hcmp : (word_at mem byte_order a >? to_ulong (end_ - (a + 4))) = true).
    { rewrite to_ulong_small by lia. apply gtb_true. exact Hlong. }
    split.
    + rewrite result_bind, Hres.
      rewrite result_bind, unpack_uint32_result.
      rewrite result_bind, (proj2 (Z.leb_le (a + 4) end_) Hroom).
      cbn [dbus_assert result ret fst].
      rewrite Hna. rewrite result_bind. cbn [result ret fst].
      rewrite Hcmp. reflexivity.
    + apply rw_bind.
      { apply (reads_within_weaken p a); [ lia | lia | ].
        apply check_padding_within. lia. }
      intros p' Hp'. rewrite Hres in Hp'. injection Hp' as <-.
      apply rw_bind.
      { apply (reads_within_weaken a (a + 4)); [ lia | lia | ].
        apply unpack_uint32_within. }
      intros v Hv. rewrite unpack_uint32_result in Hv. injection Hv as <-.
      apply rw_bind; [ apply rw_assert | intros _ _ ].
      rewrite Hna. apply rw_bind; [ apply rw_nil; reflexivity | ].
      intros p2 Hp2. injection Hp2 as <-.
      rewrite Hcmp. apply rw_nil. reflexivity.
Qed.

Lemma length_prefix_rule_witness :
  let mem := message_memory "s" [x09; x00; x00; x00; "a"%byte; x00] in
  let run := body_string_like mem any_utf8
               (fun r w q => validate_body_helper mem any_utf8 2 r DBUS_LITTLE_ENDIAN
                               w q 2006)
               8 (_dbus_type_reader_init_types_only (string_at 1000 "s") 0)
               DBUS_TYPE_STRING DBUS_LITTLE_ENDIAN 2000 2006 in
  result run = Ret DBUS_INVALID_STRING_LENGTH_OUT_OF_BOUNDS
  /\ reads_within 2000 (2000 + 4) run.
Proof.
  cbv zeta.
  refine (proj2 (proj2
    (length_prefix_rule
       (message_memory "s" [x09; x00; x00; x00; "a"%byte; x00]) any_utf8
       (fun r w q =>
          validate_body_helper
            (message_memory "s" [x09; x00; x00; x00; "a"%byte; x00]) any_utf8 2
            r DBUS_LITTLE_ENDIAN w q 2006)
       8%nat (_dbus_type_reader_init_types_only (string_at 1000 "s") 0)
       DBUS_TYPE_STRING DBUS_LITTLE_ENDIAN 2000 2006 _ _ _ _)) _ _ _).
  - left. reflexivity.
  - lia.
  - vm_compute. discriminate.
  - lia.
  - vm_compute. discriminate.
  - intros q Hq. change (_DBUS_ALIGN_ADDRESS 2000 4) with 2000 in Hq. lia.
  - reflexivity.
Defined.

(** ** Empty signature, empty body *)

Lemma helper_at_the_end_of_the_signature (mem : memory)
    (utf8 : memory -> DBusString -> Z -> Z -> bool) (fuel : nat)
    (reader : DBusTypeReader) (byte_order : Z) (walk : bool) (p end_ : Z) :
  _dbus_type_reader_get_current_type mem reader = DBUS_TYPE_INVALID ->
  validate_body_helper mem utf8 (S fuel) reader byte_order walk p end_
  = (Val (reader, p), []).
Proof.
  intros Ht. cbn [validate_body_helper]. cbv zeta.
  rewrite Ht, Z.eqb_refl. reflexivity.
Qed.

Lemma helper_on_an_empty_body (mem : memory)
    (utf8 : memory -> DBusString -> Z -> Z -> bool) (fuel : nat)
    (reader : DBusTypeReader) (byte_order : Z) (walk : bool) (p : Z) :
  _dbus_type_reader_get_current_type mem reader <> DBUS_TYPE_INVALID ->
  validate_body_helper mem utf8 (S fuel) reader byte_order walk p p
  = (Ret DBUS_INVALID_NOT_ENOUGH_DATA, []).
Proof.
  intros Ht. cbn [validate_body_helper]. cbv zeta.
  apply Z.eqb_neq in Ht. rewrite Ht, Z.eqb_refl. reflexivity.
Qed.

(** Under its assertions and with a budget of one iteration or more,
    [_dbus_validate_body_with_reason] reads no byte of the value in two
    edge cases. With an empty expected signature (its first byte is the
    nul) the whole range is trailing data: with a location for
    [bytes_remaining] the function stores [len] there and returns
    [DBUS_VALID]; with [NULL] it returns [DBUS_VALID] for an empty range
    and [DBUS_INVALID_TOO_MUCH_DATA] otherwise. With a signature that is
    not empty and an empty range it returns
    [DBUS_INVALID_NOT_ENOUGH_DATA] and leaves [bytes_remaining] as it
    was. *)
Theorem empty_signature_and_empty_body :
  forall (mem : memory) (utf8 : memory -> DBusString -> Z -> Z -> bool)
         (fuel : nat) (expected_signature : DBusString)
         (expected_signature_start byte_order : Z) (bytes_remaining : option Z)
         (value_str : DBusString) (value_pos len : Z),
    0 <= len -> 0 <= value_pos -> value_pos <= string_len value_str - len ->
    (1 <= fuel)%nat ->
    let first :=
      byte_val (mem (string_data expected_signature + expected_signature_start)) in
    let run :=
      _dbus_validate_body_with_reason mem utf8 fuel expected_signature
        expected_signature_start byte_order bytes_remaining
        value_str value_pos len in
    (first = 0 ->
     run = (Ret (match bytes_remaining with
                 | Some _ => (DBUS_VALID, Some len)
                 | None => if 0 <? len then (DBUS_INVALID_TOO_MUCH_DATA, None)
                           else (DBUS_VALID, None)
                 end), []))
    /\ (first <> 0 -> len = 0 ->
        run = (Ret (DBUS_INVALID_NOT_ENOUGH_DATA, bytes_remaining), [])).
Proof.
  intros mem utf8 fuel expected_signature expected_signature_start byte_order
    bytes_remaining value_str value_pos len Hlen Hpos Hin Hfuel first run.
  destruct fuel as [ | fuel]; [ lia | ].
  subst run. unfold _dbus_validate_body_with_reason, _dbus_string_get_length,
    _dbus_string_get_const_data_len.
  rewrite (geb_true len 0 Hlen), (geb_true value_pos 0 Hpos),
    (proj2 (Z.leb_le _ _) Hin).
  cbn [dbus_assert].
  set (p := string_data value_str + value_pos).
  set (reader := _dbus_type_reader_init_types_only expected_signature
                   expected_signature_start).
  assert (Ht : _dbus_type_reader_get_current_type mem reader
               = if first =? DBUS_STRUCT_BEGIN_CHAR then DBUS_TYPE_STRUCT
                 else first) by reflexivity.
  split.
  - intros H0. rewrite H0 in Ht.
    change (0 =? DBUS_STRUCT_BEGIN_CHAR) with false in Ht.
    rewrite (helper_at_the_end_of_the_signature mem utf8 fuel reader byte_order
               true p (p + len) Ht).
    destruct bytes_remaining as [old | ].
    + cbn. replace (p + len - p) with len by lia. reflexivity.
    + cbn [bind ret helper_call fst snd app is_valid negb dbus_assert].
      destruct (Z.ltb_spec p (p + len)) as [Hlt | Hge];
        destruct (Z.ltb_spec 0 len) as [Hlt' | Hge']; try lia.
      * reflexivity.
      * replace (p + len) with p by lia. rewrite Z.eqb_refl. reflexivity.
  - intros Hne ->.
    assert (Ht' : _dbus_type_reader_get_current_type mem reader
                  <> DBUS_TYPE_INVALID).
    { rewrite Ht. destruct (first =? DBUS_STRUCT_BEGIN_CHAR);
        [ discriminate | exact Hne ]. }
    replace (p + 0) with p by lia.
    rewrite (helper_on_an_empty_body mem utf8 fuel reader byte_order true p Ht').
    reflexivity.
Qed.

Lemma empty_signature_and_empty_body_witness :
  _dbus_validate_body_with_reason
    (message_memory "" [x01; x02; x03]) any_utf8 1 (string_at 1000 "") 0
    DBUS_LITTLE_ENDIAN (Some 55) (mkString 2000 3) 0 3
  = (Ret (DBUS_VALID, Some 3), []).
Proof.
  apply (proj1 (empty_signature_and_empty_body
                  (message_memory "" [x01; x02; x03]) any_utf8 1%nat
                  (string_at 1000 "") 0 DBUS_LITTLE_ENDIAN (Some 55)
                  (mkString 2000 3) 0 3
                  ltac:(lia) ltac:(lia) ltac:(cbn; lia) ltac:(lia))).
  reflexivity.
Defined.

(** ** What an accepted value looks like *)

Lemma bind_val_inv {R A B} (m : M R A) (k : A -> M R B) (b : B) :
  result (bind m k) = Val b ->
  exists a, result m = Val a /\ result (k a) = Val b.
Proof.
  rewrite result_bind. destruct (result m) as [a | r | | ]; try discriminate.
  intros H. exists a. split; [ reflexivity | exact H ].
Qed.

Lemma call_val_inv {R R'} (m : M R R) (r : R) :
  result (@call R R' m) = Val r -> result m = Val r \/ result m = Ret r.
Proof.
  rewrite result_call. destruct (result m) as [a | a | | ]; try discriminate;
    intros H; injection H as <-; [ left | right ]; reflexivity.
Qed.

Lemma check_padding_val (mem : memory) (fuel : nat) :
  forall (p a p' : Z),
    p <= a -> result (check_padding mem fuel p a) = Val p' ->
    p' = a /\ forall q, p <= q < a -> byte_val (mem q) = 0.
Proof.
  induction fuel as [ | fuel IH]; intros p a p' Hle Hres; [ discriminate Hres | ].
  cbn [check_padding] in Hres.
  destruct (Z.eqb_spec p a) as [-> | Hne]; cbn [negb] in Hres.
  { injection Hres as <-. split; [ reflexivity | intros q Hq; lia ]. }
  rewrite result_bind in Hres. cbn [result load fst] in Hres.
  destruct (Z.eqb_spec (byte_val (mem p)) 0) as [Hz | Hnz]; cbn [negb] in Hres;
    [ | discriminate Hres ].
  destruct (IH (p + 1) a p' ltac:(lia) Hres) as [-> Hall].
  split; [ reflexivity | ].
  intros q Hq. destruct (Z.eq_dec q p) as [-> | Hqp];
    [ exact Hz | apply Hall; lia ].
Qed.

Lemma validate_path_never_falls_through (mem : memory) (fuel : nat)
    (str : DBusString) (start len : Z) (r : bool) :
  result (_dbus_validate_path mem fuel str start len) <> Val r.
Proof.
  unfold _dbus_validate_path.
  repeat (rewrite result_bind;
          match goal with
          | |- context [result (dbus_assert ?b)] =>
              destruct b; cbn [dbus_assert result fst ret abort]
          end; [ | discriminate ]).
  repeat (case_if; [ discriminate | ]).
  rewrite result_bind. cbn [result load fst].
  case_if; [ discriminate | ].
  rewrite result_bind.
  destruct (result (path_loop mem fuel _ _ _)) as [ls | v | | ];
    try discriminate.
  case_if; discriminate.
Qed.

Lemma validate_signature_never_falls_through (mem : memory) (fuel : nat)
    (str : DBusString) (start len : Z) (r : bool) :
  result (_dbus_validate_signature mem fuel str start len) <> Val r.
Proof.
  unfold _dbus_validate_signature.
  repeat (rewrite result_bind;
          match goal with
          | |- context [result (dbus_assert ?b)] =>
              destruct b; cbn [dbus_assert result fst ret abort]
          end; [ | discriminate ]).
  case_if; [ discriminate | ].
  rewrite result_bind, result_call.
  destruct (result (_dbus_validate_signature_with_reason mem fuel str start len));
    discriminate.
Qed.

(** A string or an object path that the helper accepts, at addresses that
    do not wrap: the bytes skipped up to the 4-byte boundary [a] are nul;
    the length [cl] read at [a] leaves room before [end] for the content
    and one more byte; that byte is nul and the cursor moves right after
    it; an object path is one that [_dbus_validate_path] finds valid, and
    a string is one that the UTF-8 collaborator accepts. *)
Theorem accepted_string_or_object_path :
  forall (mem : memory) (utf8 : memory -> DBusString -> Z -> Z -> bool)
         (rec : DBusTypeReader -> bool -> Z -> M DBusValidity (DBusTypeReader * Z))
         (fuel : nat) (reader : DBusTypeReader) (t byte_order p end_ p' : Z),
    t = DBUS_TYPE_STRING \/ t = DBUS_TYPE_OBJECT_PATH ->
    0 <= p <= end_ -> end_ + 16 <= 2 ^ ULONG_BITS ->
    result (body_string_like mem utf8 rec fuel reader t byte_order p end_)
    = Val p' ->
    let a := _DBUS_ALIGN_ADDRESS p 4 in
    let cl := word_at mem byte_order a in
    (forall q, p <= q < a -> byte_val (mem q) = 0)
    /\ a + 4 + cl < end_
    /\ byte_val (mem (a + 4 + cl)) = 0
    /\ p' = a + 4 + cl + 1
    /\ (t = DBUS_TYPE_OBJECT_PATH ->
        result (_dbus_validate_path mem fuel (mkString (a + 4) cl) 0 cl)
        = Ret true)
    /\ (t = DBUS_TYPE_STRING -> utf8 mem (mkString (a + 4) cl) 0 cl = true).
Proof.
  intros mem utf8 rec fuel reader t byte_order p end_ p' Ht Hp Hend Hres a cl.
  assert (Hna : (t =? DBUS_TYPE_ARRAY) = false).
  { destruct Ht as [-> | ->]; reflexivity. }
  destruct (align_bounds p 4 ltac:(tauto) ltac:(lia) ltac:(lia)) as [Ha _].
  fold a in Ha. unfold body_string_like in Hres. fold a in Hres.
  destruct (Z.gtb_spec (a + 4) end_) as [ | Hroom]; [ discriminate Hres | ].
  apply bind_val_inv in Hres. destruct Hres as (p1 & Hpad & Hres).
  destruct (check_padding_val mem fuel p a p1 ltac:(lia) Hpad) as [-> Hzero].
  apply bind_val_inv in Hres. destruct Hres as (v & Hv & Hres).
  rewrite unpack_uint32_result in Hv. injection Hv as <-. fold cl in Hres.
  apply bind_val_inv in Hres. destruct Hres as (u & _ & Hres).
  rewrite Hna in Hres.
  apply bind_val_inv in Hres. destruct Hres as (p2 & Hp2 & Hres).
  injection Hp2 as <-.
  destruct (Z.gtb_spec cl (to_ulong (end_ - (a + 4)))) as [ | Hfit];
    [ discriminate Hres | ].
  rewrite to_ulong_small in Hfit by lia.
  apply bind_val_inv in Hres. destruct Hres as (p3 & Hp3 & Hres).
  cbn [negb] in Hres.
  assert (Hcontent :
    p3 = a + 4 + cl
    /\ (t = DBUS_TYPE_OBJECT_PATH ->
        result (_dbus_validate_path mem fuel (mkString (a + 4) cl) 0 cl)
        = Ret true)
    /\ (t = DBUS_TYPE_STRING -> utf8 mem (mkString (a + 4) cl) 0 cl = true)).
  { destruct (Z.eqb_spec t DBUS_TYPE_OBJECT_PATH) as [Hto | Hto].
    - apply bind_val_inv in Hp3. destruct Hp3 as (ok & Hok & Hp3).
      destruct ok; cbn [negb] in Hp3; [ | discriminate Hp3 ].
      injection Hp3 as <-. split; [ reflexivity | ].
      split; [ intros _ | intros Hs; rewrite Hs in Hto; discriminate Hto ].
      apply call_val_inv in Hok. destruct Hok as [Hok | Hok]; [ | exact Hok ].
      destruct (validate_path_never_falls_through _ _ _ _ _ _ Hok).
    - destruct (Z.eqb_spec t DBUS_TYPE_STRING) as [Hts | Hts];
        [ | destruct Ht; contradiction ].
      unfold _dbus_string_init_const_len, _dbus_string_get_length in Hp3.
      cbn [string_len] in Hp3.
      destruct (utf8 mem (mkString (a + 4) cl) 0 cl) eqn:Hu; cbn [negb] in Hp3;
        [ | discriminate Hp3 ].
      injection Hp3 as <-. split; [ reflexivity | ].
      split; [ intros Ho; contradiction | intros _; reflexivity ]. }
  destruct Hcontent as (-> & Hpath & Hutf).
  destruct (Z.eqb_spec (a + 4 + cl) end_) as [ | Hne]; [ discriminate Hres | ].
  apply bind_val_inv in Hres. destruct Hres as (c & Hc & Hres).
  cbn [result load fst] in Hc. injection Hc as <-.
  destruct (Z.eqb_spec (byte_val (mem (a + 4 + cl))) 0) as [Hnul | ];
    cbn [negb] in Hres; [ | discriminate Hres ].
  injection Hres as <-.
  refine (conj Hzero (conj _ (conj Hnul (conj eq_refl (conj Hpath Hutf))))).
  lia.
Qed.

Lemma accepted_string_or_object_path_witness :
  let mem := message_memory "o" [x02; x00; x00; x00; "/"%byte; "a"%byte; x00] in
  result (_dbus_validate_path mem 8
            (mkString (_DBUS_ALIGN_ADDRESS 2000 4 + 4)
               (word_at mem DBUS_LITTLE_ENDIAN (_DBUS_ALIGN_ADDRESS 2000 4)))
            0 (word_at mem DBUS_LITTLE_ENDIAN (_DBUS_ALIGN_ADDRESS 2000 4)))
  = Ret true.
Proof.
  cbv zeta.
  refine (proj1 (proj2 (proj2 (proj2 (proj2
    (accepted_string_or_object_path
       (message_memory "o" [x02; x00; x00; x00; "/"%byte; "a"%byte; x00])
       any_utf8
       (fun r w q =>
          validate_body_helper
            (message_memory "o" [x02; x00; x00; x00; "/"%byte; "a"%byte; x00])
            any_utf8 2 r DBUS_LITTLE_ENDIAN w q 2007)
       8%nat (_dbus_type_reader_init_types_only (string_at 1000 "o") 0)
       DBUS_TYPE_OBJECT_PATH DBUS_LITTLE_ENDIAN 2000 2007 2007 _ _ _ _))))) _).
  - right. reflexivity.
  - lia.
  - vm_compute. discriminate.
  - reflexivity.
  - reflexivity.
Defined.

(** An array that the helper accepts, at addresses that do not wrap: the
    bytes skipped up to the 4-byte boundary [a] are nul, the element type
    has an alignment [b], and the cursor ends exactly the claimed number of
    bytes after the first address at or after the length word that is a
    multiple of [b]. *)
Theorem accepted_array_ends_at_its_claimed_length :
  forall (mem : memory) (utf8 : memory -> DBusString -> Z -> Z -> bool)
         (rec : DBusTypeReader -> bool -> Z -> M DBusValidity (DBusTypeReader * Z))
         (fuel : nat) (reader : DBusTypeReader) (byte_order p end_ p' : Z),
    0 <= p <= end_ -> end_ + 16 <= 2 ^ ULONG_BITS ->
    result (body_string_like mem utf8 rec fuel reader DBUS_TYPE_ARRAY
              byte_order p end_) = Val p' ->
    let a := _DBUS_ALIGN_ADDRESS p 4 in
    let cl := word_at mem byte_order a in
    (forall q, p <= q < a -> byte_val (mem q) = 0)
    /\ a + 4 <= end_
    /\ exists b,
         result (@_dbus_type_get_alignment DBusValidity
                   (_dbus_type_reader_get_element_type mem reader)) = Val b
         /\ p' = _DBUS_ALIGN_ADDRESS (a + 4) b + cl.
Proof.
  intros mem utf8 rec fuel reader byte_order p end_ p' Hp Hend Hres a cl.
  destruct (align_bounds p 4 ltac:(tauto) ltac:(lia) ltac:(lia)) as [Ha _].
  fold a in Ha. unfold body_string_like in Hres. fold a in Hres.
  destruct (Z.gtb_spec (a + 4) end_) as [ | Hroom]; [ discriminate Hres | ].
  apply bind_val_inv in Hres. destruct Hres as (p1 & Hpad & Hres).
  destruct (check_padding_val mem fuel p a p1 ltac:(lia) Hpad) as [-> Hzero].
  apply bind_val_inv in Hres. destruct Hres as (v & Hv & Hres).
  rewrite unpack_uint32_result in Hv. injection Hv as <-. fold cl in Hres.
  apply bind_val_inv in Hres. destruct Hres as (u & _ & Hres).
  change (DBUS_TYPE_ARRAY =? DBUS_TYPE_ARRAY) with true in Hres.
  change (DBUS_TYPE_ARRAY =? DBUS_TYPE_OBJECT_PATH) with false in Hres.
  change (DBUS_TYPE_ARRAY =? DBUS_TYPE_STRING) with false in Hres.
  cbv iota in Hres.
  apply bind_val_inv in Hres. destruct Hres as (p2 & Hp2 & Hres).
  apply bind_val_inv in Hp2. destruct Hp2 as (b & Hb & Hp2).
  injection Hp2 as <-.
  refine (conj Hzero (conj Hroom (ex_intro _ b (conj Hb _)))).
  match type of Hres with
  | context [if ?c then return_ DBUS_INVALID_STRING_LENGTH_OUT_OF_BOUNDS else _] =>
      destruct c; [ discriminate Hres | ]
  end.
  apply bind_val_inv in Hres. destruct Hres as (p3 & Hp3 & Hres).
  cbn [negb] in Hres. injection Hres as <-.
  cbn [andb] in Hp3.
  destruct (Z.gtb_spec cl 0) as [Hpos | Hzerolen].
  - apply bind_val_inv in Hp3. destruct Hp3 as (sub & _ & Hp3).
    apply bind_val_inv in Hp3. destruct Hp3 as ([sub' p4] & _ & Hp3).
    destruct (Z.eqb_spec p4 (_DBUS_ALIGN_ADDRESS (a + 4) b + cl)) as [Heq | ];
      cbn [negb] in Hp3; [ | discriminate Hp3 ].
    injection Hp3 as <-. exact Heq.
  - injection Hp3 as <-.
    assert (0 <= cl).
    { apply (proj2 (@unpack_uint32_within mem DBusValidity byte_order a)).
      apply unpack_uint32_result. }
    lia.
Qed.

Lemma accepted_array_ends_at_its_claimed_length_witness :
  let mem := message_memory "ay" [x02; x00; x00; x00; x07; x09] in
  let reader := _dbus_type_reader_init_types_only (string_at 1000 "ay") 0 in
  _DBUS_ALIGN_ADDRESS 2000 4 + 4 <= 2006
  /\ exists b,
       result (@_dbus_type_get_alignment DBusValidity
                 (_dbus_type_reader_get_element_type mem reader)) = Val b
       /\ 2006 = _DBUS_ALIGN_ADDRESS (_DBUS_ALIGN_ADDRESS 2000 4 + 4) b
                 + word_at mem DBUS_LITTLE_ENDIAN (_DBUS_ALIGN_ADDRESS 2000 4).
Proof.
  cbv zeta.
  refine (proj2
    (accepted_array_ends_at_its_claimed_length
       (message_memory "ay" [x02; x00; x00; x00; x07; x09])
       any_utf8
       (fun r w q =>
          validate_body_helper
            (message_memory "ay" [x02; x00; x00; x00; x07; x09])
            any_utf8 4 r DBUS_LITTLE_ENDIAN w q 2006)
       8%nat (_dbus_type_reader_init_types_only (string_at 1000 "ay") 0)
       DBUS_LITTLE_ENDIAN 2000 2006 2006 _ _ _)).
  - lia.
  - vm_compute. discriminate.
  - reflexivity.
Defined.

(** A signature-typed value that the helper accepts, at addresses that do
    not wrap: the length byte [cl] at the cursor leaves room before [end]
    for the signature and its nul, [_dbus_validate_signature] finds the
    [cl] bytes valid, the byte after them is nul and the cursor moves right
    after it. A variant that the helper accepts starts the same way, and
    its signature does not begin with a nul. *)
Theorem accepted_signature_value :
  forall (mem : memory)
         (rec : DBusTypeReader -> bool -> Z -> M DBusValidity (DBusTypeReader * Z))
         (fuel : nat) (byte_order p end_ p' : Z),
    0 <= p < end_ -> end_ <= 2 ^ ULONG_BITS ->
    let cl := byte_val (mem p) in
    let embedded :=
      p + cl + 2 <= end_
      /\ result (_dbus_validate_signature mem fuel (mkString (p + 1) cl) 0 cl)
         = Ret true
      /\ byte_val (mem (p + 1 + cl)) = 0 in
    (result (body_signature mem fuel p end_) = Val p' ->
     embedded /\ p' = p + cl + 2)
    /\ (result (body_variant mem rec fuel byte_order p end_) = Val p' ->
        embedded /\ byte_val (mem (p + 1)) <> 0).
Proof.
  intros mem rec fuel byte_order p end_ p' Hp Hend cl embedded.
  pose proof (byte_val_nonneg (mem p)) as Hnn.
  pose proof (byte_val_bound (mem p)) as Hbd.
  fold cl in Hnn, Hbd.
  assert (Hprefix : forall ok : bool,
    (to_uint32 (cl + 1) >? to_ulong (end_ - (p + 1))) = false ->
    result (@call bool DBusValidity
              (_dbus_validate_signature mem fuel
                 (_dbus_string_init_const_len (p + 1) cl) 0
                 (_dbus_string_get_length
                    (_dbus_string_init_const_len (p + 1) cl)))) = Val ok ->
    ok = true ->
    p + cl + 2 <= end_
    /\ result (_dbus_validate_signature mem fuel (mkString (p + 1) cl) 0 cl)
       = Ret true).
  { intros ok Hfit Hok ->.
    rewrite to_uint32_small in Hfit by lia.
    rewrite to_ulong_small in Hfit by lia.
    rewrite Z.gtb_ltb in Hfit. apply Z.ltb_ge in Hfit.
    split; [ lia | ].
    apply call_val_inv in Hok. destruct Hok as [Hok | Hok]; [ | exact Hok ].
    destruct (validate_signature_never_falls_through _ _ _ _ _ _ Hok). }
  split; intros Hres.
  - unfold body_signature in Hres.
    apply bind_val_inv in Hres. destruct Hres as (c & Hc & Hres).
    cbn [result load fst] in Hc. injection Hc as <-. fold cl in Hres.
    destruct (to_uint32 (cl + 1) >? to_ulong (end_ - (p + 1))) eqn:Hfit;
      [ discriminate Hres | ].
    apply bind_val_inv in Hres. destruct Hres as (ok & Hok & Hres).
    destruct ok; cbn [negb] in Hres; [ | discriminate Hres ].
    destruct (Hprefix true eq_refl Hok eq_refl) as [Hroom Hsig].
    apply bind_val_inv in Hres. destruct Hres as (u & _ & Hres).
    apply bind_val_inv in Hres. destruct Hres as (c & Hc & Hres).
    cbn [result load fst] in Hc. injection Hc as <-.
    change DBUS_TYPE_INVALID with 0 in Hres.
    destruct (Z.eqb_spec (byte_val (mem (p + 1 + cl))) 0) as [Hnul | ];
      cbn [negb] in Hres; [ | discriminate Hres ].
    injection Hres as <-.
    split; [ exact (conj Hroom (conj Hsig Hnul)) | lia ].
  - unfold body_variant in Hres.
    apply bind_val_inv in Hres. destruct Hres as (c & Hc & Hres).
    cbn [result load fst] in Hc. injection Hc as <-. fold cl in Hres.
    destruct (to_uint32 (cl + 1) >? to_ulong (end_ - (p + 1))) eqn:Hfit;
      [ discriminate Hres | ].
    apply bind_val_inv in Hres. destruct Hres as (ok & Hok & Hres).
    destruct ok; cbn [negb] in Hres; [ | discriminate Hres ].
    destruct (Hprefix true eq_refl Hok eq_refl) as [Hroom Hsig].
    apply bind_val_inv in Hres. destruct Hres as (c & Hc & Hres).
    cbn [result load fst] in Hc. injection Hc as <-.
    change DBUS_TYPE_INVALID with 0 in Hres.
    destruct (Z.eqb_spec (byte_val (mem (p + 1 + cl))) 0) as [Hnul | ];
      cbn [negb] in Hres; [ | discriminate Hres ].
    split; [ exact (conj Hroom (conj Hsig Hnul)) | ].
    apply bind_val_inv in Hres. destruct Hres as (b & _ & Hres).
    match type of Hres with
    | context [if ?c then return_ DBUS_INVALID_NOT_ENOUGH_DATA else _] =>
        destruct c; [ discriminate Hres | ]
    end.
    apply bind_val_inv in Hres. destruct Hres as (p1 & _ & Hres).
    match type of Hres with
    | context [if ?c then return_ DBUS_INVALID_VARIANT_SIGNATURE_EMPTY else _] =>
        destruct c eqn:Hempty; [ discriminate Hres | ]
    end.
    intros Hfirst. revert Hempty.
    unfold _dbus_type_reader_get_current_type, _dbus_type_reader_init_types_only,
      _dbus_first_type_in_signature, sig_byte, _dbus_string_init_const_len.
    cbn [finished type_str type_pos string_data].
    replace (p + 1 + 0) with (p + 1) by lia. rewrite Hfirst.
    change (0 =? DBUS_STRUCT_BEGIN_CHAR) with false. cbv iota.
    discriminate.
Qed.

Lemma accepted_signature_value_witness :
  let mem := message_memory "g" [x01; "y"%byte; x00] in
  result (_dbus_validate_signature mem 8
            (mkString (2000 + 1) (byte_val (mem 2000))) 0 (byte_val (mem 2000)))
  = Ret true.
Proof.
  cbv zeta.
  refine (proj1 (proj2 (proj1 (proj1
    (accepted_signature_value
       (message_memory "g" [x01; "y"%byte; x00])
       (fun r w q =>
          validate_body_helper
            (message_memory "g" [x01; "y"%byte; x00])
            any_utf8 2 r DBUS_LITTLE_ENDIAN w q 2003)
       8%nat DBUS_LITTLE_ENDIAN 2000 2003 2003 _ _) _)))).
  - lia.
  - vm_compute. discriminate.
  - reflexivity.
Defined.
